(** * thorvg.web lottie player: renderer fallback, frame clock, player state
      machine and the worker-delegated driver

    A shallow embedding of [src/lottie-player.ts], [src/worker/lottie-worker.ts]
    and [src/lottie-worker-player.ts].

    Conventions of the embedding.
    - A JavaScript [number] is an exact rational ([Q]): rounding, infinities
      and NaN are outside the model.  [Num] gives the comparison operators.
    - Object state is threaded explicitly.  A method is a computation over a
      [World] (the player instance plus everything ambient: the clock, the DOM
      geometry, the module-level variables).
    - An [async] function is a resumption: it runs until it returns, throws or
      reaches an [await], where it hands back the world and a continuation.
    - Everything a method does to the outside (events, engine calls, console
      warnings, fetches) is appended to the player's [log]. *)

From Stdlib Require Import QArith ZArith List String Bool Lia Ascii Lqa.
From Stdlib Require Import Qround Qabs.
Import ListNotations.
Local Open Scope string_scope.
Local Open Scope Q_scope.

(** ** Numbers *)

Module Num.
  (** [a === b], [a >= b], [a <= b], [a < b], [a > b] on numbers. *)
Definition eqb (a b : Q) : bool := Qeq_bool a b.
Definition geb (a b : Q) : bool := Qle_bool b a.
Definition leb (a b : Q) : bool := Qle_bool a b.
Definition ltb (a b : Q) : bool := negb (Qle_bool b a).
Definition gtb (a b : Q) : bool := negb (Qle_bool a b).
  (** Truthiness of a number: every number but zero. *)
Definition truthy (a : Q) : bool := negb (Qeq_bool a 0).
  (** [Math.abs]. *)
Definition abs (a : Q) : Q := Qabs a.
  (** [Math.floor]. *)
Definition floor (a : Q) : Q := inject_Z (Qfloor a).
  (** [a % b]: the remainder has the sign of the dividend. *)
Definition rem (a b : Q) : Q :=
    a - b * inject_Z (Z.quot (Qnum (a / b)) (Zpos (Qden (a / b)))).

End Num.

(** ** Canvas dimensions *)

(** [canvas.width = v] and [canvas.height = v].  The two attributes are
    [unsigned long]: the number assigned is truncated towards zero and taken
    modulo 2^32, and a result above 2^31 - 1 is replaced by the default of the
    attribute, 300 for the width and 150 for the height.  What the code reads
    back from the canvas is the number stored. *)
Definition canvasDimension (default : Q) (v : Q) : Q :=
  let n := (Z.quot (Qnum v) (Zpos (Qden v)) mod 2 ^ 32)%Z in
  if (n <=? 2147483647)%Z then inject_Z n else default.
Arguments canvasDimension : simpl never.

Definition canvas_width (v : Q) : Q := canvasDimension 300 v.
Definition canvas_height (v : Q) : Q := canvasDimension 150 v.

(** ** Enumerations *)

(** [enum Renderer]. *)
Inductive Renderer := SW | WG | GL.

Definition Renderer_eqb (a b : Renderer) : bool :=
  match a, b with
  | SW, SW | WG, WG | GL, GL => true
  | _, _ => false
  end.


(** The string value of a renderer, as template literals print it. *)
Definition Renderer_str (r : Renderer) : string :=
  match r with SW => "sw" | WG => "wg" | GL => "gl" end.

(** [enum InitStatus]. *)
Inductive InitStatus := IDLE | FAILED | REQUESTED | INITIALIZED.

Definition InitStatus_eqb (a b : InitStatus) : bool :=
  match a, b with
  | IDLE, IDLE | FAILED, FAILED | REQUESTED, REQUESTED
  | INITIALIZED, INITIALIZED => true
  | _, _ => false
  end.


(** [type RenderConfig]: both fields are optional. *)
Record RenderConfig := {
  enableDevicePixelRatio : option bool;
  renderer : option Renderer
}.

(** [enum FileType]. *)
Inductive FileType := JSON | LOT | JPG | PNG | SVG.

Definition FileType_eqb (a b : FileType) : bool :=
  match a, b with
  | JSON, JSON | LOT, LOT | JPG, JPG | PNG, PNG | SVG, SVG => true
  | _, _ => false
  end.

(** [enum PlayerState]. *)
Module PlayerState.
Inductive t := Destroyed | Error | Loading | Paused | Playing | Stopped | Frozen.

Definition eqb (a b : t) : bool :=
    match a, b with
    | Destroyed, Destroyed | Error, Error | Loading, Loading
    | Paused, Paused | Playing, Playing | Stopped, Stopped
    | Frozen, Frozen => true
    | _, _ => false
    end.

End PlayerState.

(** [enum PlayMode]. *)
Inductive PlayMode := Bounce | Normal.

Definition PlayMode_eqb (a b : PlayMode) : bool :=
  match a, b with
  | Bounce, Bounce | Normal, Normal => true
  | _, _ => false
  end.

(** [enum PlayerEvent]. *)
Module PlayerEvent.
Inductive t :=
  | Complete | Destroyed | Error | Frame | Freeze | Load | Loop | Pause
  | Play | Ready | Stop | RendererFallback.

Definition eqb (a b : t) : bool :=
    match a, b with
    | Complete, Complete | Destroyed, Destroyed | Error, Error
    | Frame, Frame | Freeze, Freeze | Load, Load | Loop, Loop
    | Pause, Pause | Play, Play | Ready, Ready | Stop, Stop
    | RendererFallback, RendererFallback => true
    | _, _ => false
    end.

End PlayerEvent.

(** ** The engine and the host, seen from the player *)

(** A JSON value, as [JSON.parse] returns it. *)
Unset Elimination Schemes.
Inductive Json :=
| JNull
| JBool (b : bool)
| JNumber (q : Q)
| JString (s : string)
| JArray (l : list Json)
| JObject (l : list (string * Json)).
Set Elimination Schemes.

(** A [TvgLottieAnimation] instance.  The engine is opaque: the record holds
    what its methods answer; the calls themselves go to the trace. *)
Record Tvg := {
  tvg_duration : Q;
  tvg_totalFrame : Q;
  tvg_frame : Q -> bool;
  tvg_update : bool;
  tvg_render : list Z;
  tvg_load : list Byte.byte -> FileType -> Q -> Q -> string -> bool;
  tvg_error : string;
  tvg_size : Q * Q
}.

(** The WASM module: [new _module.TvgLottieAnimation(engine, selector)]
    answers an instance, or throws ([None]). *)
Record TvgModule := {
  TvgLottieAnimation : Renderer -> option string -> option Tvg
}.

(** What the browser answers: geometry, JSON, URL and fetch. *)
Record Host := {
  devicePixelRatio : Q;
  innerWidth : Q;
  innerHeight : Q;
  rectLeft : Q;
  rectRight : Q;
  rectTop : Q;
  rectBottom : Q;
  canvasRectWidth : Q;
  canvasRectHeight : Q;
  JSON_parse : string -> option Json;
  JSON_stringify : Json -> string;
  ToString : Json -> string;
  URL_href : string -> option string;
  fetch_json : string -> option Json;
  fetch_arrayBuffer : string -> option (list Byte.byte);
  loadModule : option TvgModule;
  ImageData_ok : list Z -> Q -> Q -> bool
}.

(** What [load] is given: [typeof src] is ['string'], ['object'] (an
    [ArrayBuffer] or anything else) or something else. *)
Inductive Src :=
| SrcString (s : string)
| SrcArrayBuffer (b : list Byte.byte)
| SrcObject (o : Json)
| SrcOther.

(** [new TextEncoder().encode(s)]. *)
Definition encode (s : string) : list Byte.byte := list_byte_of_string s.

(** The string [encode] sees when it is handed a JSON value. *)
Definition asString (h : Host) (v : Json) : string :=
  match v with
  | JString s => s
  | _ => ToString h v
  end.

(** [detail] of a [CustomEvent]. *)
Inductive Detail :=
| NoDetail
| FrameDetail (frame : Q)
| MessageDetail (message : string)
| FallbackDetail (requestedRenderer fallbackRenderer : Renderer)
    (message : string).

(** Everything observable a method does. *)
Inductive Effect :=
| Dispatch (e : PlayerEvent.t) (d : Detail)
| ConsoleWarn (msg : string)
| RequestAnimationFrame
| ClearInterval
| ModuleInit
| Construct (engine : Renderer) (selector : option string)
| TvgResize (w h : Q)
| TvgViewport (x y w h : Q)
| TvgUpdate
| TvgRender
| TvgFrame (n : Q)
| TvgLoad (data : list Byte.byte) (ft : FileType) (w h : Q)
| TvgDelete
| PutImageData (w h : Q)
| Fetch (url : string)
| CallLoad (s : string) (ft : FileType).

(** ** Resumptions: [async] functions over a world [W] *)

Inductive Outcome (A : Type) :=
| Returned (a : A)
| Thrown (e : string)
| OutOfFuel.
Arguments Returned {A} a.
Arguments Thrown {A} e.
Arguments OutOfFuel {A}.

(** Why a computation is suspended. *)
Inductive Suspension :=
| Timer (ms : Q)
| Settled
| ModuleLoading
| Fetching (url : string).

Inductive Run (W A : Type) :=
| Done (o : Outcome A) (w : W)
| Await (s : Suspension) (w : W) (k : W -> Run W A).
Arguments Done {W A} o w.
Arguments Await {W A} s w k.

Definition Async (W A : Type) := W -> Run W A.

Definition ret {W A} (a : A) : Async W A := fun w => Done (Returned a) w.
Definition throw {W A} (e : string) : Async W A := fun w => Done (Thrown e) w.
Definition outOfFuel {W A} : Async W A := fun w => Done OutOfFuel w.

Fixpoint andThen {W A B} (r : Run W A) (f : A -> Async W B) : Run W B :=
  match r with
  | Done (Returned a) w => f a w
  | Done (Thrown e) w => Done (Thrown e) w
  | Done OutOfFuel w => Done OutOfFuel w
  | Await s w k => Await s w (fun w' => andThen (k w') f)
  end.

Definition bind {W A B} (c : Async W A) (f : A -> Async W B) : Async W B :=
  fun w => andThen (c w) f.

Notation "x <- c ;; k" := (bind c (fun x => k))
  (at level 61, c at next level, right associativity).
Notation "c ;; k" := (bind c (fun _ => k))
  (at level 61, right associativity).

(** [try { c } catch (err) { h err }]. *)
Fixpoint orElse {W A} (r : Run W A) (h : string -> Async W A) : Run W A :=
  match r with
  | Done (Thrown e) w => h e w
  | Done o w => Done o w
  | Await s w k => Await s w (fun w' => orElse (k w') h)
  end.

Definition tryCatch {W A} (c : Async W A) (h : string -> Async W A)
  : Async W A :=
  fun w => orElse (c w) h.

(** A suspension point: the continuation sees the world as it is when the
    computation is resumed. *)
Definition suspend {W} (s : Suspension) : Async W unit :=
  fun w => Await s w (fun w' => Done (Returned tt) w').

(** [await p] where [p] is the promise of an async call (or a plain value):
    the caller is resumed in a later microtask, once [p] has settled. *)
Definition await {W A} (c : Async W A) : Async W A :=
  a <- c ;; suspend Settled ;; ret a.

(** What a call leaves behind when its promise is not awaited. *)
Inductive Promise (W A : Type) :=
| Fulfilled (o : Outcome A)
| Pending (s : Suspension) (k : W -> Run W A).
Arguments Fulfilled {W A} o.
Arguments Pending {W A} s k.

(** Calling an async function without [await]: it runs up to its first
    suspension, and the caller goes on; a rejection stays in the promise. *)
Definition spawn {W A} (c : Async W A) : Async W (Promise W A) :=
  fun w =>
    match c w with
    | Done o w' => Done (Returned (Fulfilled o)) w'
    | Await s w' k => Done (Returned (Pending s k)) w'
    end.

(** The rest of a pending call. *)
Definition resume {W A} (p : Promise W A) : Async W A :=
  fun w =>
    match p with
    | Fulfilled o => Done o w
    | Pending _ k => k w
    end.

(** Running a computation to its end.  At each suspension the next entry of
    the schedule says what happened to the world meanwhile; an exhausted
    schedule leaves the world as it is. *)
Fixpoint drive {W A} (sched : list (W -> W)) (r : Run W A)
  : Outcome A * W :=
  match r with
  | Done o w => (o, w)
  | Await _ w k =>
      match sched with
      | [] => drive [] (k w)
      | e :: sched' => drive sched' (k (e w))
      end
  end.

(** The world when the synchronous part of a call is over. *)
Definition sync {W A} (r : Run W A) : W :=
  match r with
  | Done _ w => w
  | Await _ w _ => w
  end.

(** [when c body]: [if (c) { body }]. *)
Definition when {W} (c : bool) (body : Async W unit) : Async W unit :=
  if c then body else ret tt.

(** ** The main-thread player: [lottie-player.ts] *)

Module LottiePlayer.

Record Player := mkPlayer {
  src : option string;
  fileType : FileType;
  renderConfig : option RenderConfig;
  speed : Q;
  autoPlay : bool;
  count : option Q;
  loop : bool;
  direction : Q;
  mode : PlayMode;
  intermission : Q;
  totalFrame : Q;
  currentFrame : Q;
  currentState : PlayerState.t;
  _TVG : option Tvg;
  canvasId : string;
  canvasWidth : Q;
  canvasHeight : Q;
  _beginTime : Q;
  _counter : Q;
  _timer : bool;
  _observable : bool;
  _actualRenderer : option Renderer
}.

(** Field assignments [this.f = v]. *)
Definition set_fileType (v : FileType) (x : Player) : Player :=
  mkPlayer (src x) v (renderConfig x) (speed x) (autoPlay x) (count x)
    (loop x) (direction x) (mode x) (intermission x) (totalFrame x)
    (currentFrame x) (currentState x) (_TVG x) (canvasId x) (canvasWidth x)
    (canvasHeight x) (_beginTime x) (_counter x) (_timer x) (_observable x)
    (_actualRenderer x).
Definition set_direction (v : Q) (x : Player) : Player :=
  mkPlayer (src x) (fileType x) (renderConfig x) (speed x) (autoPlay x)
    (count x) (loop x) v (mode x) (intermission x) (totalFrame x)
    (currentFrame x) (currentState x) (_TVG x) (canvasId x) (canvasWidth x)
    (canvasHeight x) (_beginTime x) (_counter x) (_timer x) (_observable x)
    (_actualRenderer x).
Definition set_totalFrame (v : Q) (x : Player) : Player :=
  mkPlayer (src x) (fileType x) (renderConfig x) (speed x) (autoPlay x)
    (count x) (loop x) (direction x) (mode x) (intermission x) v
    (currentFrame x) (currentState x) (_TVG x) (canvasId x) (canvasWidth x)
    (canvasHeight x) (_beginTime x) (_counter x) (_timer x) (_observable x)
    (_actualRenderer x).
Definition set_currentFrame (v : Q) (x : Player) : Player :=
  mkPlayer (src x) (fileType x) (renderConfig x) (speed x) (autoPlay x)
    (count x) (loop x) (direction x) (mode x) (intermission x) (totalFrame x)
    v (currentState x) (_TVG x) (canvasId x) (canvasWidth x) (canvasHeight x)
    (_beginTime x) (_counter x) (_timer x) (_observable x)
    (_actualRenderer x).
Definition set_currentState (v : PlayerState.t) (x : Player) : Player :=
  mkPlayer (src x) (fileType x) (renderConfig x) (speed x) (autoPlay x)
    (count x) (loop x) (direction x) (mode x) (intermission x) (totalFrame x)
    (currentFrame x) v (_TVG x) (canvasId x) (canvasWidth x) (canvasHeight x)
    (_beginTime x) (_counter x) (_timer x) (_observable x)
    (_actualRenderer x).
Definition set__TVG (v : option Tvg) (x : Player) : Player :=
  mkPlayer (src x) (fileType x) (renderConfig x) (speed x) (autoPlay x)
    (count x) (loop x) (direction x) (mode x) (intermission x) (totalFrame x)
    (currentFrame x) (currentState x) v (canvasId x) (canvasWidth x)
    (canvasHeight x) (_beginTime x) (_counter x) (_timer x) (_observable x)
    (_actualRenderer x).
Definition set_canvasWidth (v : Q) (x : Player) : Player :=
  mkPlayer (src x) (fileType x) (renderConfig x) (speed x) (autoPlay x)
    (count x) (loop x) (direction x) (mode x) (intermission x) (totalFrame x)
    (currentFrame x) (currentState x) (_TVG x) (canvasId x) v (canvasHeight x)
    (_beginTime x) (_counter x) (_timer x) (_observable x)
    (_actualRenderer x).
Definition set_canvasHeight (v : Q) (x : Player) : Player :=
  mkPlayer (src x) (fileType x) (renderConfig x) (speed x) (autoPlay x)
    (count x) (loop x) (direction x) (mode x) (intermission x) (totalFrame x)
    (currentFrame x) (currentState x) (_TVG x) (canvasId x) (canvasWidth x) v
    (_beginTime x) (_counter x) (_timer x) (_observable x)
    (_actualRenderer x).
Definition set__beginTime (v : Q) (x : Player) : Player :=
  mkPlayer (src x) (fileType x) (renderConfig x) (speed x) (autoPlay x)
    (count x) (loop x) (direction x) (mode x) (intermission x) (totalFrame x)
    (currentFrame x) (currentState x) (_TVG x) (canvasId x) (canvasWidth x)
    (canvasHeight x) v (_counter x) (_timer x) (_observable x)
    (_actualRenderer x).
Definition set__counter (v : Q) (x : Player) : Player :=
  mkPlayer (src x) (fileType x) (renderConfig x) (speed x) (autoPlay x)
    (count x) (loop x) (direction x) (mode x) (intermission x) (totalFrame x)
    (currentFrame x) (currentState x) (_TVG x) (canvasId x) (canvasWidth x)
    (canvasHeight x) (_beginTime x) v (_timer x) (_observable x)
    (_actualRenderer x).
Definition set__timer (v : bool) (x : Player) : Player :=
  mkPlayer (src x) (fileType x) (renderConfig x) (speed x) (autoPlay x)
    (count x) (loop x) (direction x) (mode x) (intermission x) (totalFrame x)
    (currentFrame x) (currentState x) (_TVG x) (canvasId x) (canvasWidth x)
    (canvasHeight x) (_beginTime x) (_counter x) v (_observable x)
    (_actualRenderer x).
Definition set__observable (v : bool) (x : Player) : Player :=
  mkPlayer (src x) (fileType x) (renderConfig x) (speed x) (autoPlay x)
    (count x) (loop x) (direction x) (mode x) (intermission x) (totalFrame x)
    (currentFrame x) (currentState x) (_TVG x) (canvasId x) (canvasWidth x)
    (canvasHeight x) (_beginTime x) (_counter x) (_timer x) v
    (_actualRenderer x).
Definition set__actualRenderer (v : option Renderer) (x : Player) : Player :=
  mkPlayer (src x) (fileType x) (renderConfig x) (speed x) (autoPlay x)
    (count x) (loop x) (direction x) (mode x) (intermission x) (totalFrame x)
    (currentFrame x) (currentState x) (_TVG x) (canvasId x) (canvasWidth x)
    (canvasHeight x) (_beginTime x) (_counter x) (_timer x) (_observable x) v.

Record Ambient := mkAmbient {
  clock : Q;
  host : Host;
  _module : option TvgModule;
  _moduleRequested : bool;
  _initStatus : InitStatus;
  initResults : list Z
}.

(** Assignments to the module-level variables. *)
Definition set_clock (v : Q) (x : Ambient) : Ambient :=
  mkAmbient v (host x) (_module x) (_moduleRequested x) (_initStatus x)
    (initResults x).
Definition set__module (v : option TvgModule) (x : Ambient) : Ambient :=
  mkAmbient (clock x) (host x) v (_moduleRequested x) (_initStatus x)
    (initResults x).
Definition set__moduleRequested (v : bool) (x : Ambient) : Ambient :=
  mkAmbient (clock x) (host x) (_module x) v (_initStatus x) (initResults x).
Definition set__initStatus (v : InitStatus) (x : Ambient) : Ambient :=
  mkAmbient (clock x) (host x) (_module x) (_moduleRequested x) v
    (initResults x).
Definition set_initResults (v : list Z) (x : Ambient) : Ambient :=
  mkAmbient (clock x) (host x) (_module x) (_moduleRequested x)
    (_initStatus x) v.

(** The world a method runs in. *)
Record World := mkWorld {
  self : Player;
  ambient : Ambient;
  trace : list Effect
}.

(** What the rest of the page does while a method of this player is
    suspended: it touches what is ambient (time passing, other players of the
    same module), not this player. *)
Definition interfere (e : Ambient -> Ambient) (w : World) : World :=
  mkWorld (self w) (e (ambient w)) (trace w).


(** Methods of the player. *)
Definition M (A : Type) := Async World A.

(** *** Primitive accesses *)

Definition getSelf : M Player := fun w => Done (Returned (self w)) w.
Definition getAmbient : M Ambient :=
  fun w => Done (Returned (ambient w)) w.
Definition getHost : M Host :=
  fun w => Done (Returned (host (ambient w))) w.
Definition modSelf (f : Player -> Player) : M unit :=
  fun w => Done (Returned tt) (mkWorld (f (self w)) (ambient w) (trace w)).
Definition modAmbient (f : Ambient -> Ambient) : M unit :=
  fun w => Done (Returned tt) (mkWorld (self w) (f (ambient w)) (trace w)).
Definition emit (e : Effect) : M unit :=
  fun w => Done (Returned tt) (mkWorld (self w) (ambient w) (trace w ++ [e])).

(** [Date.now()], in milliseconds. *)
Definition Date_now : M Q := fun w => Done (Returned (clock (ambient w))) w.

(** [_wait(timeToDelay)]. *)
Definition _wait (timeToDelay : Q) : M unit := suspend (Timer timeToDelay).

(** [this.dispatchEvent(new CustomEvent(e, { detail }))]. *)
Definition dispatchEvent (e : PlayerEvent.t) (d : Detail) : M unit :=
  emit (Dispatch e d).

(** [this._TVG]: a method call on it throws when it is not set. *)
Definition theTVG : M Tvg :=
  p <- getSelf ;;
  match _TVG p with
  | Some t => ret t
  | None => throw "TypeError: this._TVG is undefined"
  end.

(** [_module], for a method call on it. *)
Definition theModule : M TvgModule :=
  g <- getAmbient ;;
  match _module g with
  | Some m => ret m
  | None => throw "TypeError: _module is undefined"
  end.



(** *** Loading sources: [_parseLottieFromURL], [_parseImageFromURL],
    [_parseJSON], [_parseSrc] *)

Definition _parseLottieFromURL (url : string) : M Json :=
  tryCatch
    (h <- getHost ;;
     match URL_href h url with
     | None => throw "TypeError: Invalid URL"
     | Some srcUrl =>
         emit (Fetch srcUrl) ;;
         suspend (Fetching srcUrl) ;;
         match fetch_json h srcUrl with
         | Some json => ret json
         | None => throw "fetch or json() rejected"
         end
     end)
    (fun _ =>
       throw "An error occurred while trying to load the Lottie file from URL").

Definition _parseImageFromURL (url : string) : M (list Byte.byte) :=
  h <- getHost ;;
  emit (Fetch url) ;;
  suspend (Fetching url) ;;
  match fetch_arrayBuffer h url with
  | Some buffer => ret buffer
  | None => throw "fetch rejected"
  end.

Definition _parseJSON (data : string) : M Json :=
  h <- getHost ;;
  match JSON_parse h data with
  | Some parsed => ret parsed
  | None =>
      json <- await (_parseLottieFromURL data) ;;
      ret (JString (JSON_stringify h json))
  end.

Definition _parseSrc (src : Src) (fileType : FileType)
  : M (list Byte.byte) :=
  h <- getHost ;;
  match src with
  | SrcArrayBuffer data => ret data
  | SrcObject data => ret (encode (JSON_stringify h data))
  | SrcString data =>
      if FileType_eqb fileType JSON || FileType_eqb fileType LOT then
        data' <- await (_parseJSON data) ;;
        ret (encode (asString h data'))
      else
        buffer <- await (_parseImageFromURL data) ;;
        ret buffer
  | SrcOther => throw "Invalid src type"
  end.

(** *** Rendering: [_viewport], [_render] *)

(** [this.renderConfig?.renderer]. *)
Definition configuredRenderer (p : Player) : option Renderer :=
  match renderConfig p with
  | Some rc => renderer rc
  | None => None
  end.

(** [this.renderConfig?.enableDevicePixelRatio], as a condition. *)
Definition usesDevicePixelRatio (p : Player) : bool :=
  match renderConfig p with
  | Some rc =>
      match enableDevicePixelRatio rc with
      | Some b => b
      | None => false
      end
  | None => false
  end.

Definition _viewport : M unit :=
  h <- getHost ;;
  p <- getSelf ;;
  let windowWidth := innerWidth h in
  let windowHeight := innerHeight h in
  let x := 0 in
  let y := 0 in
  let width := canvasWidth p in
  let height := canvasHeight p in
  let '(x, width) :=
    if Num.ltb (rectLeft h) 0
    then (Num.abs (rectLeft h), width - Num.abs (rectLeft h))
    else (x, width) in
  let '(y, height) :=
    if Num.ltb (rectTop h) 0
    then (Num.abs (rectTop h), height - Num.abs (rectTop h))
    else (y, height) in
  let width :=
    if Num.gtb (rectRight h) windowWidth
    then width - (rectRight h - windowWidth) else width in
  let height :=
    if Num.gtb (rectBottom h) windowHeight
    then height - (rectBottom h - windowHeight) else height in
  _ <- theTVG ;;
  emit (TvgViewport x y width height).

Definition _render : M unit :=
  h <- getHost ;;
  p <- getSelf ;;
  when (usesDevicePixelRatio p)
    (let dpr := 1 + ((devicePixelRatio h - 1) * (3 # 4)) in
     modSelf (set_canvasWidth (canvas_width (canvasRectWidth h * dpr))) ;;
     modSelf (set_canvasHeight (canvas_height (canvasRectHeight h * dpr)))) ;;
  tvg <- theTVG ;;
  p <- getSelf ;;
  emit (TvgResize (canvasWidth p) (canvasHeight p)) ;;
  _viewport ;;
  emit TvgUpdate ;;
  if negb (tvg_update tvg) then ret tt
  else
    match configuredRenderer p with
    | Some WG | Some GL => emit TvgRender
    | _ =>
        emit TvgRender ;;
        if (List.length (tvg_render tvg) <? 1)%nat then ret tt
        else if ImageData_ok h (tvg_render tvg) (canvasWidth p) (canvasHeight p)
        then emit (PutImageData (canvasWidth p) (canvasHeight p))
        else throw "ImageData: the input data length does not fit the size"
    end.

(** *** Commands and the frame clock *)

Definition play : M unit :=
  p <- getSelf ;;
  if negb (FileType_eqb (fileType p) JSON) && negb (FileType_eqb (fileType p) LOT)
  then ret tt
  else
    tvg <- theTVG ;;
    modSelf (set_totalFrame (tvg_totalFrame tvg)) ;;
    if Num.ltb (tvg_totalFrame tvg) 1 then ret tt
    else
      now <- Date_now ;;
      modSelf (set__beginTime (now / 1000)) ;;
      p <- getSelf ;;
      if PlayerState.eqb (currentState p) PlayerState.Playing then ret tt
      else if _observable p then
        modSelf (set_currentState PlayerState.Playing) ;;
        emit RequestAnimationFrame
      else modSelf (set_currentState PlayerState.Frozen).

Definition pause : M unit :=
  modSelf (set_currentState PlayerState.Paused) ;;
  dispatchEvent PlayerEvent.Pause NoDetail.

Definition freeze : M unit :=
  modSelf (set_currentState PlayerState.Frozen) ;;
  dispatchEvent PlayerEvent.Freeze NoDetail.

(** [this.count ? (this.mode === Bounce ? this.count * 2 : this.count) : 0]. *)
Definition totalCount (p : Player) : Q :=
  match count p with
  | Some c =>
      if Num.truthy c
      then (if PlayMode_eqb (mode p) Bounce then c * 2 else c)
      else 0
  | None => 0
  end.

(** [this.count], as a condition. *)
Definition hasCount (p : Player) : bool :=
  match count p with
  | Some c => Num.truthy c
  | None => false
  end.

(** The condition of the completion branch of [_update]. *)
Definition legOver (p : Player) : bool :=
  (Num.eqb (direction p) 1 && Num.geb (currentFrame p) (totalFrame p))
  || (Num.eqb (direction p) (-1) && Num.leb (currentFrame p) 0).

(** The frame [_update] assigns before it tests for completion. *)
Definition tickFrame (w : World) (tvg : Tvg) : Q :=
  let p := self w in
  let currentTime := clock (ambient w) / 1000 in
  let frame :=
    (currentTime - _beginTime p) / tvg_duration tvg * totalFrame p * speed p in
  if Num.eqb (direction p) (-1) then totalFrame p - frame else frame.

(** [this.loop || (totalCount && this._counter < totalCount)]. *)
Definition repeats (p : Player) : bool :=
  loop p || (Num.truthy (totalCount p) && Num.ltb (_counter p) (totalCount p)).

(** The two assignments of the Bounce branch, in their order. *)
Definition flipDirection (p : Player) : Player :=
  set_direction (if Num.eqb (direction p) 1 then -1 else 1) p.
Definition resetToBoundary (p : Player) : Player :=
  set_currentFrame (if Num.eqb (direction p) 1 then 0 else totalFrame p) p.
(** [this._counter += 1]. *)
Definition countLeg (p : Player) : Player :=
  set__counter (_counter p + 1) p.

Definition _update : M bool :=
  p <- getSelf ;;
  if negb (PlayerState.eqb (currentState p) PlayerState.Playing) then ret false
  else
    tvg <- theTVG ;;
    let duration := tvg_duration tvg in
    now <- Date_now ;;
    let currentTime := now / 1000 in
    modSelf (fun p =>
      set_currentFrame
        ((currentTime - _beginTime p) / duration * totalFrame p * speed p) p) ;;
    p <- getSelf ;;
    when (Num.eqb (direction p) (-1))
      (modSelf (fun p => set_currentFrame (totalFrame p - currentFrame p) p)) ;;
    p <- getSelf ;;
    early <-
      (if legOver p then
         if repeats p then
           when (PlayMode_eqb (mode p) Bounce)
             (modSelf flipDirection ;; modSelf resetToBoundary) ;;
           when (hasCount p) (modSelf countLeg) ;;
           _wait (intermission p) ;;
           play ;;
           ret (Some true)
         else
           dispatchEvent PlayerEvent.Complete NoDetail ;;
           modSelf (set_currentState PlayerState.Stopped) ;;
           ret None
       else ret None) ;;
    match early with
    | Some b => ret b
    | None =>
        p <- getSelf ;;
        dispatchEvent PlayerEvent.Frame (FrameDetail (currentFrame p)) ;;
        tvg <- theTVG ;;
        emit (TvgFrame (currentFrame p)) ;;
        ret (tvg_frame tvg (currentFrame p))
    end.

Definition _frame (curFrame : Q) : M unit :=
  pause ;;
  modSelf (set_currentFrame curFrame) ;;
  tvg <- theTVG ;;
  emit (TvgFrame curFrame).

Definition seek (frame : Q) : M unit :=
  _frame frame ;;
  _ <- await _update ;;
  _render.

(** [stop()] calls [this.seek(0)] without awaiting it; the value returned
    here is the promise that call leaves behind. *)
Definition stop : M (Promise World unit) :=
  modSelf (set_currentState PlayerState.Stopped) ;;
  modSelf (set_currentFrame 0) ;;
  modSelf (set__counter 1) ;;
  pending <- spawn (seek 0) ;;
  dispatchEvent PlayerEvent.Stop NoDetail ;;
  ret pending.

Definition resize (width height : Q) : M unit :=
  modSelf (set_canvasWidth (canvas_width width)) ;;
  modSelf (set_canvasHeight (canvas_height height)) ;;
  p <- getSelf ;;
  when (negb (PlayerState.eqb (currentState p) PlayerState.Playing)) _render.

Definition destroy : M unit :=
  p <- getSelf ;;
  match _TVG p with
  | None => ret tt
  | Some _ =>
      emit TvgDelete ;;
      modSelf (set__TVG None) ;;
      modSelf (set_currentState PlayerState.Destroyed) ;;
      dispatchEvent PlayerEvent.Destroyed NoDetail
  end.

Definition _animLoop : M unit :=
  p <- getSelf ;;
  match _TVG p with
  | None => ret tt
  | Some _ =>
      again <- await _update ;;
      when again (_render ;; emit RequestAnimationFrame)
  end.

(** [_observerCallback(entries)], for the entry of this player. *)
Definition _observerCallback (isIntersecting : bool) : M unit :=
  modSelf (set__observable isIntersecting) ;;
  p <- getSelf ;;
  if isIntersecting then
    when (PlayerState.eqb (currentState p) PlayerState.Frozen) play
  else
    when (PlayerState.eqb (currentState p) PlayerState.Playing)
      (freeze ;;
       dispatchEvent PlayerEvent.Freeze NoDetail).

Definition _loadBytes (data : list Byte.byte) : M unit :=
  tvg <- theTVG ;;
  p <- getSelf ;;
  emit (TvgLoad data (fileType p) (canvasWidth p) (canvasHeight p)) ;;
  if negb (tvg_load tvg data (fileType p) (canvasWidth p) (canvasHeight p) "")
  then throw ("Unable to load an image. Error: " ++ tvg_error tvg)
  else
    _render ;;
    dispatchEvent PlayerEvent.Load NoDetail ;;
    when (autoPlay p) play.

(** [load(src, fileType)]; [init] is the call [this._init()]. *)
Definition load (init : M unit) (src : Src) (fileType : FileType)
  : M unit :=
  tryCatch
    (await init ;;
     bytes <- await (_parseSrc src fileType) ;;
     dispatchEvent PlayerEvent.Ready NoDetail ;;
     modSelf (set_fileType fileType) ;;
     await (_loadBytes bytes))
    (fun _ =>
       modSelf (set_currentState PlayerState.Error) ;;
       dispatchEvent PlayerEvent.Error NoDetail).

(** *** Renderer initialisation: [_initModule], [_init] *)

(** [_module.init()]: the answers of the engine are consumed in order. *)
Definition module_init : M Z :=
  _ <- theModule ;;
  emit ModuleInit ;;
  g <- getAmbient ;;
  match initResults g with
  | [] => outOfFuel
  | res :: rest => modAmbient (set_initResults rest) ;; ret res
  end.

(** [while (_initStatus === InitStatus.REQUESTED) await _wait(100)]. *)
Fixpoint waitWhileRequested (fuel : nat) : M unit :=
  match fuel with
  | O => outOfFuel
  | S fuel' =>
      g <- getAmbient ;;
      if InitStatus_eqb (_initStatus g) REQUESTED
      then _wait 100 ;; waitWhileRequested fuel'
      else ret tt
  end.

(** [while (true) { switch (_module.init()) ... }]. *)
Fixpoint initLoop (fuel : nat) : M unit :=
  match fuel with
  | O => outOfFuel
  | S fuel' =>
      res <- module_init ;;
      if (res =? 0)%Z then modAmbient (set__initStatus INITIALIZED)
      else if (res =? 1)%Z then modAmbient (set__initStatus FAILED)
      else if (res =? 2)%Z then _wait 100 ;; initLoop fuel'
      else initLoop fuel'
  end.

Definition _initModule (fuel : nat) (engine : Renderer) : M unit :=
  if negb (Renderer_eqb engine WG) then ret tt
  else
    waitWhileRequested fuel ;;
    g <- getAmbient ;;
    if InitStatus_eqb (_initStatus g) INITIALIZED then ret tt
    else
      modAmbient (set__initStatus REQUESTED) ;;
      initLoop fuel.

(** [while (!_module) await _wait(100)]. *)
Fixpoint waitForModule (fuel : nat) : M unit :=
  match fuel with
  | O => outOfFuel
  | S fuel' =>
      g <- getAmbient ;;
      match _module g with
      | None => _wait 100 ;; waitForModule fuel'
      | Some _ => ret tt
      end
  end.

(** [(_initStatus as InitStatus) !== InitStatus.FAILED]. *)
Definition notFailed : M bool :=
  g <- getAmbient ;;
  ret (negb (InitStatus_eqb (_initStatus g) FAILED)).

(** [this.renderConfig?.renderer || Renderer.SW]. *)
Definition requestedRenderer (p : Player) : Renderer :=
  match configuredRenderer p with
  | Some r => r
  | None => SW
  end.

(** [this.src], as a condition. *)
Definition hasSrc (p : Player) : option string :=
  match src p with
  | Some "" => None
  | other => other
  end.

Definition fallbackMessage (originalEngine engine : Renderer) : string :=
  "Fallback from " ++ Renderer_str originalEngine ++ " to "
    ++ Renderer_str engine ++ " renderer".

(** The fallback chain of [_init]: the statements between the first
    [_initModule] and the final test of [success]. *)
Definition fallbackChain (fuel : nat) (engine : Renderer) (success : bool)
  : M (Renderer * bool) :=
  if negb success then
    if Renderer_eqb engine WG then
      emit (ConsoleWarn "WebGPU initialization failed, trying WebGL fallback...") ;;
      let engine := GL in
      modAmbient (set__initStatus IDLE) ;;
      await (_initModule fuel engine) ;;
      success <- notFailed ;;
      if negb success then
        emit (ConsoleWarn
          "WebGL initialization failed, falling back to software renderer...") ;;
        let engine := SW in
        modAmbient (set__initStatus IDLE) ;;
        await (_initModule fuel engine) ;;
        success <- notFailed ;;
        ret (engine, success)
      else ret (engine, success)
    else if Renderer_eqb engine GL then
      emit (ConsoleWarn
        "WebGL initialization failed, falling back to software renderer...") ;;
      let engine := SW in
      modAmbient (set__initStatus IDLE) ;;
      await (_initModule fuel engine) ;;
      success <- notFailed ;;
      ret (engine, success)
    else ret (engine, success)
  else ret (engine, success).

Fixpoint _init (fuel : nat) : M unit :=
  match fuel with
  | O => outOfFuel
  | S fuel' =>
      g <- getAmbient ;;
      when (_moduleRequested g) (waitForModule fuel') ;;
      g <- getAmbient ;;
      match _module g with
      | None =>
          modAmbient (set__moduleRequested true) ;;
          suspend ModuleLoading ;;
          h <- getHost ;;
          match loadModule h with
          | Some m => modAmbient (set__module (Some m))
          | None => throw "Module() rejected"
          end
      | Some _ => ret tt
      end ;;
      p <- getSelf ;;
      if negb (_timer p) then ret tt
      else
        emit ClearInterval ;;
        modSelf (set__timer false) ;;
        let engine := requestedRenderer p in
        let originalEngine := engine in
        await (_initModule fuel' engine) ;;
        success <- notFailed ;;
        chain <- fallbackChain fuel' engine success ;;
        let '(engine, success) := chain in
        if negb success then
          modSelf (set_currentState PlayerState.Error) ;;
          dispatchEvent PlayerEvent.Error
            (MessageDetail "Failed to initialize any renderer")
        else
          when (negb (Renderer_eqb engine originalEngine))
            (dispatchEvent PlayerEvent.RendererFallback
               (FallbackDetail originalEngine engine
                  (fallbackMessage originalEngine engine))) ;;
          m <- theModule ;;
          p <- getSelf ;;
          emit (Construct engine (Some ("#" ++ canvasId p))) ;;
          match TvgLottieAnimation m engine (Some ("#" ++ canvasId p)) with
          | None => throw "TvgLottieAnimation threw"
          | Some tvg =>
              modSelf (set__TVG (Some tvg)) ;;
              modSelf (set__actualRenderer (Some engine)) ;;
              match hasSrc p with
              | Some s =>
                  emit (CallLoad s (fileType p)) ;;
                  _ <- spawn (load (_init fuel') (SrcString s) (fileType p)) ;;
                  ret tt
              | None => ret tt
              end
          end
  end.

End LottiePlayer.

(** ** The message protocol: [worker/message-types.ts] *)

Record ViewportInfo := {
  vx : Q;
  vy : Q;
  vw : Q;
  vh : Q
}.

Record CanvasInfo := {
  width : Q;
  height : Q;
  canvasDevicePixelRatio : option Q;
  viewportInfo : option ViewportInfo
}.

(** An [ImageData]: a pixel buffer with its size. *)
Record ImageData := {
  pixels : list Z;
  imageWidth : Q;
  imageHeight : Q
}.

(** An [OffscreenCanvas]: its size, and whether [getContext('2d')] answers a
    context. *)
Record OffscreenCanvas := {
  offscreenWidth : Q;
  offscreenHeight : Q;
  offscreen2d : bool
}.

(** [type WorkerMessage]. *)
Inductive WorkerMessage :=
| INIT (wasmUrl : option string) (renderConfig : option RenderConfig)
    (useOffscreenCanvas : option bool)
    (offscreenCanvas : option OffscreenCanvas)
| LOAD (src : Src) (fileType : FileType)
| PLAY
| PAUSE
| STOP
| SEEK (frame : Q)
| RESIZE (canvasInfo : CanvasInfo)
| SET_SPEED (speed : Q)
| UPDATE_CANVAS_INFO (canvasInfo : CanvasInfo)
| UNKNOWN (type : string).

(** [type WorkerResponse]. *)
Inductive WorkerResponse :=
| READY
| LOADED (totalFrame : Q) (size : Q * Q)
| FRAME (imageData : option ImageData) (frameNumber : Q)
    (useOffscreenCanvas : bool)
| ERROR (message : string)
| COMPLETE.

Definition isCOMPLETE (r : WorkerResponse) : bool :=
  match r with
  | COMPLETE => true
  | _ => false
  end.

(** ** The worker: [worker/lottie-worker.ts] *)

Module LottieWorker.

Record Worker := mkWorker {
  _module : option TvgModule;
  _moduleRequested : bool;
  _TVG : option Tvg;
  _isInitialized : bool;
  _currentCanvasInfo : option CanvasInfo;
  _isPlaying : bool;
  _animationStartTime : Q;
  _animationSpeed : Q;
  _totalFrames : Q;
  _duration : Q;
  _animationFrame : bool;
  _useOffscreenCanvas : bool;
  _offscreenCanvas : option OffscreenCanvas;
  _offscreenContext : bool;
  _initStatus : InitStatus;
  now : Q;
  whost : Host;
  posted : list WorkerResponse;
  drawn : list ImageData;
  calls : list Effect
}.

(** Assignments to the variables of the worker. *)
Definition set__module (v : option TvgModule) (x : Worker) : Worker :=
  mkWorker v (_moduleRequested x) (_TVG x) (_isInitialized x)
    (_currentCanvasInfo x) (_isPlaying x) (_animationStartTime x)
    (_animationSpeed x) (_totalFrames x) (_duration x) (_animationFrame x)
    (_useOffscreenCanvas x) (_offscreenCanvas x) (_offscreenContext x)
    (_initStatus x) (now x) (whost x) (posted x) (drawn x) (calls x).
Definition set__moduleRequested (v : bool) (x : Worker) : Worker :=
  mkWorker (_module x) v (_TVG x) (_isInitialized x) (_currentCanvasInfo x)
    (_isPlaying x) (_animationStartTime x) (_animationSpeed x) (_totalFrames
    x) (_duration x) (_animationFrame x) (_useOffscreenCanvas x)
    (_offscreenCanvas x) (_offscreenContext x) (_initStatus x) (now x) (whost
    x) (posted x) (drawn x) (calls x).
Definition set__TVG (v : option Tvg) (x : Worker) : Worker :=
  mkWorker (_module x) (_moduleRequested x) v (_isInitialized x)
    (_currentCanvasInfo x) (_isPlaying x) (_animationStartTime x)
    (_animationSpeed x) (_totalFrames x) (_duration x) (_animationFrame x)
    (_useOffscreenCanvas x) (_offscreenCanvas x) (_offscreenContext x)
    (_initStatus x) (now x) (whost x) (posted x) (drawn x) (calls x).
Definition set__isInitialized (v : bool) (x : Worker) : Worker :=
  mkWorker (_module x) (_moduleRequested x) (_TVG x) v (_currentCanvasInfo x)
    (_isPlaying x) (_animationStartTime x) (_animationSpeed x) (_totalFrames
    x) (_duration x) (_animationFrame x) (_useOffscreenCanvas x)
    (_offscreenCanvas x) (_offscreenContext x) (_initStatus x) (now x) (whost
    x) (posted x) (drawn x) (calls x).
Definition set__currentCanvasInfo (v : option CanvasInfo) (x : Worker) : Worker :=
  mkWorker (_module x) (_moduleRequested x) (_TVG x) (_isInitialized x) v
    (_isPlaying x) (_animationStartTime x) (_animationSpeed x) (_totalFrames
    x) (_duration x) (_animationFrame x) (_useOffscreenCanvas x)
    (_offscreenCanvas x) (_offscreenContext x) (_initStatus x) (now x) (whost
    x) (posted x) (drawn x) (calls x).
Definition set__isPlaying (v : bool) (x : Worker) : Worker :=
  mkWorker (_module x) (_moduleRequested x) (_TVG x) (_isInitialized x)
    (_currentCanvasInfo x) v (_animationStartTime x) (_animationSpeed x)
    (_totalFrames x) (_duration x) (_animationFrame x) (_useOffscreenCanvas x)
    (_offscreenCanvas x) (_offscreenContext x) (_initStatus x) (now x) (whost
    x) (posted x) (drawn x) (calls x).
Definition set__animationStartTime (v : Q) (x : Worker) : Worker :=
  mkWorker (_module x) (_moduleRequested x) (_TVG x) (_isInitialized x)
    (_currentCanvasInfo x) (_isPlaying x) v (_animationSpeed x) (_totalFrames
    x) (_duration x) (_animationFrame x) (_useOffscreenCanvas x)
    (_offscreenCanvas x) (_offscreenContext x) (_initStatus x) (now x) (whost
    x) (posted x) (drawn x) (calls x).
Definition set__animationSpeed (v : Q) (x : Worker) : Worker :=
  mkWorker (_module x) (_moduleRequested x) (_TVG x) (_isInitialized x)
    (_currentCanvasInfo x) (_isPlaying x) (_animationStartTime x) v
    (_totalFrames x) (_duration x) (_animationFrame x) (_useOffscreenCanvas x)
    (_offscreenCanvas x) (_offscreenContext x) (_initStatus x) (now x) (whost
    x) (posted x) (drawn x) (calls x).
Definition set__totalFrames (v : Q) (x : Worker) : Worker :=
  mkWorker (_module x) (_moduleRequested x) (_TVG x) (_isInitialized x)
    (_currentCanvasInfo x) (_isPlaying x) (_animationStartTime x)
    (_animationSpeed x) v (_duration x) (_animationFrame x)
    (_useOffscreenCanvas x) (_offscreenCanvas x) (_offscreenContext x)
    (_initStatus x) (now x) (whost x) (posted x) (drawn x) (calls x).
Definition set__duration (v : Q) (x : Worker) : Worker :=
  mkWorker (_module x) (_moduleRequested x) (_TVG x) (_isInitialized x)
    (_currentCanvasInfo x) (_isPlaying x) (_animationStartTime x)
    (_animationSpeed x) (_totalFrames x) v (_animationFrame x)
    (_useOffscreenCanvas x) (_offscreenCanvas x) (_offscreenContext x)
    (_initStatus x) (now x) (whost x) (posted x) (drawn x) (calls x).
Definition set__animationFrame (v : bool) (x : Worker) : Worker :=
  mkWorker (_module x) (_moduleRequested x) (_TVG x) (_isInitialized x)
    (_currentCanvasInfo x) (_isPlaying x) (_animationStartTime x)
    (_animationSpeed x) (_totalFrames x) (_duration x) v (_useOffscreenCanvas
    x) (_offscreenCanvas x) (_offscreenContext x) (_initStatus x) (now x)
    (whost x) (posted x) (drawn x) (calls x).
Definition set__useOffscreenCanvas (v : bool) (x : Worker) : Worker :=
  mkWorker (_module x) (_moduleRequested x) (_TVG x) (_isInitialized x)
    (_currentCanvasInfo x) (_isPlaying x) (_animationStartTime x)
    (_animationSpeed x) (_totalFrames x) (_duration x) (_animationFrame x) v
    (_offscreenCanvas x) (_offscreenContext x) (_initStatus x) (now x) (whost
    x) (posted x) (drawn x) (calls x).
Definition set__offscreenCanvas (v : option OffscreenCanvas) (x : Worker) : Worker :=
  mkWorker (_module x) (_moduleRequested x) (_TVG x) (_isInitialized x)
    (_currentCanvasInfo x) (_isPlaying x) (_animationStartTime x)
    (_animationSpeed x) (_totalFrames x) (_duration x) (_animationFrame x)
    (_useOffscreenCanvas x) v (_offscreenContext x) (_initStatus x) (now x)
    (whost x) (posted x) (drawn x) (calls x).
Definition set__offscreenContext (v : bool) (x : Worker) : Worker :=
  mkWorker (_module x) (_moduleRequested x) (_TVG x) (_isInitialized x)
    (_currentCanvasInfo x) (_isPlaying x) (_animationStartTime x)
    (_animationSpeed x) (_totalFrames x) (_duration x) (_animationFrame x)
    (_useOffscreenCanvas x) (_offscreenCanvas x) v (_initStatus x) (now x)
    (whost x) (posted x) (drawn x) (calls x).
Definition set__initStatus (v : InitStatus) (x : Worker) : Worker :=
  mkWorker (_module x) (_moduleRequested x) (_TVG x) (_isInitialized x)
    (_currentCanvasInfo x) (_isPlaying x) (_animationStartTime x)
    (_animationSpeed x) (_totalFrames x) (_duration x) (_animationFrame x)
    (_useOffscreenCanvas x) (_offscreenCanvas x) (_offscreenContext x) v (now
    x) (whost x) (posted x) (drawn x) (calls x).
Definition set_now (v : Q) (x : Worker) : Worker :=
  mkWorker (_module x) (_moduleRequested x) (_TVG x) (_isInitialized x)
    (_currentCanvasInfo x) (_isPlaying x) (_animationStartTime x)
    (_animationSpeed x) (_totalFrames x) (_duration x) (_animationFrame x)
    (_useOffscreenCanvas x) (_offscreenCanvas x) (_offscreenContext x)
    (_initStatus x) v (whost x) (posted x) (drawn x) (calls x).
Definition set_posted (v : list WorkerResponse) (x : Worker) : Worker :=
  mkWorker (_module x) (_moduleRequested x) (_TVG x) (_isInitialized x)
    (_currentCanvasInfo x) (_isPlaying x) (_animationStartTime x)
    (_animationSpeed x) (_totalFrames x) (_duration x) (_animationFrame x)
    (_useOffscreenCanvas x) (_offscreenCanvas x) (_offscreenContext x)
    (_initStatus x) (now x) (whost x) v (drawn x) (calls x).
Definition set_drawn (v : list ImageData) (x : Worker) : Worker :=
  mkWorker (_module x) (_moduleRequested x) (_TVG x) (_isInitialized x)
    (_currentCanvasInfo x) (_isPlaying x) (_animationStartTime x)
    (_animationSpeed x) (_totalFrames x) (_duration x) (_animationFrame x)
    (_useOffscreenCanvas x) (_offscreenCanvas x) (_offscreenContext x)
    (_initStatus x) (now x) (whost x) (posted x) v (calls x).
Definition set_calls (v : list Effect) (x : Worker) : Worker :=
  mkWorker (_module x) (_moduleRequested x) (_TVG x) (_isInitialized x)
    (_currentCanvasInfo x) (_isPlaying x) (_animationStartTime x)
    (_animationSpeed x) (_totalFrames x) (_duration x) (_animationFrame x)
    (_useOffscreenCanvas x) (_offscreenCanvas x) (_offscreenContext x)
    (_initStatus x) (now x) (whost x) (posted x) (drawn x) v.

Definition W (A : Type) := Async Worker A.

Definition get : W Worker := fun w => Done (Returned w) w.
Definition modify (f : Worker -> Worker) : W unit :=
  fun w => Done (Returned tt) (f w).

(** [postMessage(r)]. *)
Definition postMessage (r : WorkerResponse) : W unit :=
  modify (fun w => set_posted (posted w ++ [r]) w).

(** A call into the engine, or a console warning. *)
Definition emit (e : Effect) : W unit :=
  modify (fun w => set_calls (calls w ++ [e]) w).

(** [_offscreenContext.putImageData(imageData, 0, 0)]. *)
Definition putImageData (i : ImageData) : W unit :=
  modify (fun w => set_drawn (drawn w ++ [i]) w).

(** [new ImageData(buffer, width, height)]: the host refuses a buffer that
    does not fit the size. *)
Definition newImageData (buffer : list Z) (width height : Q) : W ImageData :=
  w <- get ;;
  if ImageData_ok (whost w) buffer width height
  then ret {| pixels := buffer; imageWidth := width; imageHeight := height |}
  else throw "ImageData: the input data length does not fit the size".

(** [_initModule(engine)] of the worker. *)
Definition _initModule (engine : Renderer) : W unit :=
  if negb (Renderer_eqb engine WG) then ret tt
  else
    modify (set__initStatus FAILED) ;;
    throw "Worker only supports Software renderer. WebGPU/WebGL requires main thread context.".

(** [while (!_module) await new Promise(r => setTimeout(r, 100))]. *)
Fixpoint waitForModule (fuel : nat) : W unit :=
  match fuel with
  | O => outOfFuel
  | S fuel' =>
      w <- get ;;
      match _module w with
      | None => suspend (Timer 100) ;; waitForModule fuel'
      | Some _ => ret tt
      end
  end.

Definition isSome {A} (o : option A) : bool :=
  match o with
  | Some _ => true
  | None => false
  end.

(** [initializeWorker(wasmUrl, _renderConfig, useOffscreenCanvas,
    offscreenCanvas)]. *)
Definition initializeWorker (fuel : nat) (wasmUrl : option string)
    (_renderConfig : option RenderConfig) (useOffscreenCanvas : option bool)
    (offscreenCanvas : option OffscreenCanvas) : W unit :=
  tryCatch
    (modify (set__useOffscreenCanvas
               (match useOffscreenCanvas with Some b => b | None => false end)) ;;
     w <- get ;;
     match offscreenCanvas with
     | Some canvas =>
         when (_useOffscreenCanvas w)
           (modify (set__offscreenCanvas (Some canvas)) ;;
            modify (set__offscreenContext (offscreen2d canvas)))
     | None => ret tt
     end ;;
     w <- get ;;
     when (_moduleRequested w && negb (isSome (_module w)))
       (waitForModule fuel) ;;
     w <- get ;;
     match _module w with
     | Some _ => ret tt
     | None =>
         modify (set__moduleRequested true) ;;
         tryCatch
           (suspend ModuleLoading ;;
            w <- get ;;
            match loadModule (whost w) with
            | Some m => modify (set__module (Some m))
            | None => throw "Module loading returned null"
            end)
           (fun errorMessage =>
              throw ("WASM module loading failed: " ++ errorMessage))
     end ;;
     let engine := SW in
     await (_initModule engine) ;;
     w <- get ;;
     (if InitStatus_eqb (_initStatus w) FAILED
      then throw "Module initialization failed" else ret tt) ;;
     match _module w with
     | None => throw "TypeError: _module is undefined"
     | Some m =>
         emit (Construct engine (Some "")) ;;
         match TvgLottieAnimation m engine (Some "") with
         | Some tvg => modify (set__TVG (Some tvg))
         | None =>
             emit (Construct engine None) ;;
             match TvgLottieAnimation m engine None with
             | Some tvg => modify (set__TVG (Some tvg))
             | None =>
                 throw "TvgLottieAnimation creation failed with both empty string and null selector"
             end
         end
     end ;;
     modify (set__isInitialized true) ;;
     postMessage READY)
    (fun _ => postMessage (ERROR "Worker initialization failed")).

(** [loadLottieData(src, fileType)]. *)
Definition loadLottieData (src : Src) (fileType : FileType) : W unit :=
  tryCatch
    (w <- get ;;
     if negb (_isInitialized w) || negb (isSome (_TVG w))
     then throw "Worker not initialized"
     else
           let h := whost w in
           data <-
             match src with
             | SrcArrayBuffer b => ret b
             | SrcObject o => ret (encode (JSON_stringify h o))
             | SrcString s =>
                 if FileType_eqb fileType JSON || FileType_eqb fileType LOT
                 then
                   jsonData <-
                     match JSON_parse h s with
                     | Some parsed => ret parsed
                     | None =>
                         tryCatch
                           (match URL_href h s with
                            | None => throw "TypeError: Invalid URL"
                            | Some srcUrl =>
                                emit (Fetch srcUrl) ;;
                                suspend (Fetching srcUrl) ;;
                                match fetch_json h srcUrl with
                                | Some json =>
                                    ret (JString (JSON_stringify h json))
                                | None => throw "fetch or json() rejected"
                                end
                            end)
                           (fun _ =>
                              throw "An error occurred while trying to load the Lottie file from URL")
                     end ;;
                   ret (encode (asString h jsonData))
                 else
                   emit (Fetch s) ;;
                   suspend (Fetching s) ;;
                   match fetch_arrayBuffer h s with
                   | Some buffer => ret buffer
                   | None => throw "fetch rejected"
                   end
             | SrcOther => throw "Invalid src type"
             end ;;
           w <- get ;;
           let width :=
             match _currentCanvasInfo w with
             | Some info => if Num.truthy (width info) then width info else 200
             | None => 200
             end in
           let height :=
             match _currentCanvasInfo w with
             | Some info => if Num.truthy (height info) then height info else 200
             | None => 200
             end in
           match _TVG w with
           | None => throw "TypeError: _TVG is undefined"
           | Some tvg =>
               emit (TvgLoad data fileType width height) ;;
               if negb (tvg_load tvg data fileType width height "")
               then throw ("Unable to load Lottie data: " ++ tvg_error tvg)
               else
                 modify (set__totalFrames (tvg_totalFrame tvg)) ;;
                 modify (set__duration (tvg_duration tvg)) ;;
                 postMessage (LOADED (tvg_totalFrame tvg) (tvg_size tvg))
           end)
    (fun _ => postMessage (ERROR "Failed to load Lottie data")).

(** The part of [renderFrame] both branches share: resize, set the frame,
    update, render. *)
Definition renderInto (tvg : Tvg) (width height frameNumber : Q)
  : W (option (list Z)) :=
  emit (TvgResize width height) ;;
  emit (TvgFrame frameNumber) ;;
  emit TvgUpdate ;;
  if negb (tvg_update tvg) then ret None
  else emit TvgRender ;; ret (Some (tvg_render tvg)).

(** [_useOffscreenCanvas && _offscreenCanvas && _offscreenContext]. *)
Definition offscreenTarget (w : Worker) : option OffscreenCanvas :=
  if _useOffscreenCanvas w then
    match _offscreenCanvas w with
    | Some canvas => if _offscreenContext w then Some canvas else None
    | None => None
    end
  else None.

(** [renderFrame(frameNumber)]. *)
Definition renderFrame (frameNumber : Q) : W unit :=
  tryCatch
    (w <- get ;;
     if negb (_isInitialized w) then ret tt
     else
       match _TVG w with
       | None => ret tt
       | Some tvg =>
           match offscreenTarget w with
           | Some canvas =>
               let width := offscreenWidth canvas in
               let height := offscreenHeight canvas in
               rendered <- renderInto tvg width height frameNumber ;;
               match rendered with
               | None => ret tt
               | Some buffer =>
                   when (0 <? List.length buffer)%nat
                     (imageData <- newImageData buffer width height ;;
                      putImageData imageData) ;;
                   postMessage (FRAME None frameNumber true)
               end
           | None =>
               match _currentCanvasInfo w with
               | None => ret tt
               | Some info =>
                   match viewportInfo info with
                   | Some v => emit (TvgViewport (vx v) (vy v) (vw v) (vh v))
                   | None => ret tt
                   end ;;
                   rendered <-
                     renderInto tvg (width info) (height info) frameNumber ;;
                   match rendered with
                   | None => ret tt
                   | Some buffer =>
                       when (0 <? List.length buffer)%nat
                         (imageData <-
                            newImageData buffer (width info) (height info) ;;
                          postMessage
                            (FRAME (Some imageData) frameNumber false))
                   end
               end
           end
       end)
    (fun _ => postMessage (ERROR "Frame rendering failed")).

(** The callback [startWorkerAnimationLoop] hands to [setInterval]. *)
Definition intervalCallback : W unit :=
  w <- get ;;
  if negb (_isPlaying w) || negb (_isInitialized w) || negb (isSome (_TVG w))
     || negb (isSome (_currentCanvasInfo w))
  then ret tt
  else
    let currentTime := now w in
    let elapsed :=
      (currentTime - _animationStartTime w) / 1000 * _animationSpeed w in
    let frameNumber := (elapsed / _duration w) * _totalFrames w in
    frameNumber <-
      (if Num.geb frameNumber (_totalFrames w) then
         modify (set__animationStartTime currentTime) ;;
         ret (Num.rem frameNumber (_totalFrames w))
       else ret frameNumber) ;;
    let intFrame := Num.floor frameNumber in
    renderFrame intFrame.

Definition startWorkerAnimationLoop : W unit :=
  w <- get ;;
  if _isPlaying w then ret tt
  else
    modify (set__isPlaying true) ;;
    modify (fun w => set__animationStartTime (now w) w) ;;
    modify (set__animationFrame true).

Definition stopWorkerAnimationLoop : W unit :=
  modify (set__isPlaying false) ;;
  w <- get ;;
  when (_animationFrame w) (modify (set__animationFrame false)).

(** The ['message'] listener. *)
Definition onmessage (fuel : nat) (m : WorkerMessage) : W unit :=
  match m with
  | INIT wasmUrl renderConfig useOffscreenCanvas offscreenCanvas =>
      await (initializeWorker fuel wasmUrl renderConfig useOffscreenCanvas
               offscreenCanvas)
  | LOAD src fileType => await (loadLottieData src fileType)
  | PLAY => startWorkerAnimationLoop
  | PAUSE => stopWorkerAnimationLoop
  | STOP => stopWorkerAnimationLoop
  | SEEK frame => renderFrame frame
  | RESIZE canvasInfo
  | UPDATE_CANVAS_INFO canvasInfo =>
      modify (set__currentCanvasInfo (Some canvasInfo))
  | SET_SPEED speed => modify (set__animationSpeed speed)
  | UNKNOWN type => emit (ConsoleWarn "[Worker] Unknown message type:")
  end.

(** What the worker is given: a message, or the timer firing. *)
Inductive Input :=
| Message (m : WorkerMessage)
| IntervalFires
| TimePasses (t : Q).

(** One turn of the worker's event loop, run to its end. *)
Definition turn (fuel : nat) (i : Input) (w : Worker) : Worker :=
  match i with
  | Message m => snd (drive [] (onmessage fuel m w))
  | IntervalFires =>
      if _animationFrame w then snd (drive [] (intervalCallback w)) else w
  | TimePasses t => set_now t w
  end.

Definition turns (fuel : nat) (inputs : list Input) (w : Worker) : Worker :=
  fold_left (fun w i => turn fuel i w) inputs w.

(** The variables of a fresh worker. *)
Definition fresh (h : Host) (t : Q) : Worker :=
  mkWorker None false None false None false 0 1 60 2 false false None false
    IDLE t h [] [] [].

End LottieWorker.

(** ** The delegating player: [lottie-worker-player.ts] *)

Module LottieWorkerPlayer.

Record Player := mkPlayer {
  src : option string;
  fileType : FileType;
  renderConfig : option RenderConfig;
  speed : Q;
  autoPlay : bool;
  count : option Q;
  loop : bool;
  direction : Q;
  mode : PlayMode;
  intermission : Q;
  totalFrame : Q;
  currentFrame : Q;
  currentState : PlayerState.t;
  _worker : bool;
  _context : bool;
  canvasWidth : Q;
  canvasHeight : Q;
  _animationSize : Q * Q;
  _supportsOffscreenCanvas : bool;
  phost : Host;
  sent : list WorkerMessage;
  events : list (PlayerEvent.t * Detail);
  painted : list ImageData
}.

(** Field assignments [this.f = v]. *)
Definition set_src (v : option string) (x : Player) : Player :=
  mkPlayer v (fileType x) (renderConfig x) (speed x) (autoPlay x) (count x)
    (loop x) (direction x) (mode x) (intermission x) (totalFrame x)
    (currentFrame x) (currentState x) (_worker x) (_context x) (canvasWidth x)
    (canvasHeight x) (_animationSize x) (_supportsOffscreenCanvas x) (phost x)
    (sent x) (events x) (painted x).
Definition set_fileType (v : FileType) (x : Player) : Player :=
  mkPlayer (src x) v (renderConfig x) (speed x) (autoPlay x) (count x) (loop
    x) (direction x) (mode x) (intermission x) (totalFrame x) (currentFrame x)
    (currentState x) (_worker x) (_context x) (canvasWidth x) (canvasHeight x)
    (_animationSize x) (_supportsOffscreenCanvas x) (phost x) (sent x) (events
    x) (painted x).
Definition set_totalFrame (v : Q) (x : Player) : Player :=
  mkPlayer (src x) (fileType x) (renderConfig x) (speed x) (autoPlay x) (count
    x) (loop x) (direction x) (mode x) (intermission x) v (currentFrame x)
    (currentState x) (_worker x) (_context x) (canvasWidth x) (canvasHeight x)
    (_animationSize x) (_supportsOffscreenCanvas x) (phost x) (sent x) (events
    x) (painted x).
Definition set_currentFrame (v : Q) (x : Player) : Player :=
  mkPlayer (src x) (fileType x) (renderConfig x) (speed x) (autoPlay x) (count
    x) (loop x) (direction x) (mode x) (intermission x) (totalFrame x) v
    (currentState x) (_worker x) (_context x) (canvasWidth x) (canvasHeight x)
    (_animationSize x) (_supportsOffscreenCanvas x) (phost x) (sent x) (events
    x) (painted x).
Definition set_currentState (v : PlayerState.t) (x : Player) : Player :=
  mkPlayer (src x) (fileType x) (renderConfig x) (speed x) (autoPlay x) (count
    x) (loop x) (direction x) (mode x) (intermission x) (totalFrame x)
    (currentFrame x) v (_worker x) (_context x) (canvasWidth x) (canvasHeight
    x) (_animationSize x) (_supportsOffscreenCanvas x) (phost x) (sent x)
    (events x) (painted x).
Definition set__worker (v : bool) (x : Player) : Player :=
  mkPlayer (src x) (fileType x) (renderConfig x) (speed x) (autoPlay x) (count
    x) (loop x) (direction x) (mode x) (intermission x) (totalFrame x)
    (currentFrame x) (currentState x) v (_context x) (canvasWidth x)
    (canvasHeight x) (_animationSize x) (_supportsOffscreenCanvas x) (phost x)
    (sent x) (events x) (painted x).
Definition set_canvasWidth (v : Q) (x : Player) : Player :=
  mkPlayer (src x) (fileType x) (renderConfig x) (speed x) (autoPlay x) (count
    x) (loop x) (direction x) (mode x) (intermission x) (totalFrame x)
    (currentFrame x) (currentState x) (_worker x) (_context x) v (canvasHeight
    x) (_animationSize x) (_supportsOffscreenCanvas x) (phost x) (sent x)
    (events x) (painted x).
Definition set_canvasHeight (v : Q) (x : Player) : Player :=
  mkPlayer (src x) (fileType x) (renderConfig x) (speed x) (autoPlay x) (count
    x) (loop x) (direction x) (mode x) (intermission x) (totalFrame x)
    (currentFrame x) (currentState x) (_worker x) (_context x) (canvasWidth x)
    v (_animationSize x) (_supportsOffscreenCanvas x) (phost x) (sent x)
    (events x) (painted x).
Definition set__animationSize (v : Q * Q) (x : Player) : Player :=
  mkPlayer (src x) (fileType x) (renderConfig x) (speed x) (autoPlay x) (count
    x) (loop x) (direction x) (mode x) (intermission x) (totalFrame x)
    (currentFrame x) (currentState x) (_worker x) (_context x) (canvasWidth x)
    (canvasHeight x) v (_supportsOffscreenCanvas x) (phost x) (sent x) (events
    x) (painted x).
Definition set_sent (v : list WorkerMessage) (x : Player) : Player :=
  mkPlayer (src x) (fileType x) (renderConfig x) (speed x) (autoPlay x) (count
    x) (loop x) (direction x) (mode x) (intermission x) (totalFrame x)
    (currentFrame x) (currentState x) (_worker x) (_context x) (canvasWidth x)
    (canvasHeight x) (_animationSize x) (_supportsOffscreenCanvas x) (phost x)
    v (events x) (painted x).
Definition set_events (v : list (PlayerEvent.t * Detail)) (x : Player) : Player :=
  mkPlayer (src x) (fileType x) (renderConfig x) (speed x) (autoPlay x) (count
    x) (loop x) (direction x) (mode x) (intermission x) (totalFrame x)
    (currentFrame x) (currentState x) (_worker x) (_context x) (canvasWidth x)
    (canvasHeight x) (_animationSize x) (_supportsOffscreenCanvas x) (phost x)
    (sent x) v (painted x).
Definition set_painted (v : list ImageData) (x : Player) : Player :=
  mkPlayer (src x) (fileType x) (renderConfig x) (speed x) (autoPlay x) (count
    x) (loop x) (direction x) (mode x) (intermission x) (totalFrame x)
    (currentFrame x) (currentState x) (_worker x) (_context x) (canvasWidth x)
    (canvasHeight x) (_animationSize x) (_supportsOffscreenCanvas x) (phost x)
    (sent x) (events x) v.

(** [this._sendToWorker(message)]. *)
Definition _sendToWorker (message : WorkerMessage) (p : Player) : Player :=
  if _worker p then set_sent (sent p ++ [message]) p else p.

Definition dispatchEvent (e : PlayerEvent.t) (d : Detail) (p : Player)
  : Player :=
  set_events (events p ++ [(e, d)]) p.

Definition _calculateCanvasInfo (p : Player) : CanvasInfo :=
  let h := phost p in
  let dpr :=
    if Num.truthy (devicePixelRatio h) then devicePixelRatio h else 1 in
  let windowWidth := innerWidth h in
  let windowHeight := innerHeight h in
  let x := 0 in
  let y := 0 in
  let width := canvasWidth p in
  let height := canvasHeight p in
  let '(x, width) :=
    if Num.ltb (rectLeft h) 0
    then (Num.abs (rectLeft h), width - Num.abs (rectLeft h))
    else (x, width) in
  let '(y, height) :=
    if Num.ltb (rectTop h) 0
    then (Num.abs (rectTop h), height - Num.abs (rectTop h))
    else (y, height) in
  let width :=
    if Num.gtb (rectRight h) windowWidth
    then width - (rectRight h - windowWidth) else width in
  let height :=
    if Num.gtb (rectBottom h) windowHeight
    then height - (rectBottom h - windowHeight) else height in
  {| width := canvasWidth p;
     height := canvasHeight p;
     canvasDevicePixelRatio := Some dpr;
     viewportInfo := Some {| vx := x; vy := y; vw := width; vh := height |} |}.

Definition _updateCanvasInfo (p : Player) : Player :=
  _sendToWorker (UPDATE_CANVAS_INFO (_calculateCanvasInfo p)) p.

Definition load (src : Src) (fileType : FileType) (p : Player) : Player :=
  let p :=
    set_src
      (match src with
       | SrcString s => Some s
       | SrcObject o => Some (JSON_stringify (phost p) o)
       | SrcArrayBuffer _ => Some "{}"
       | SrcOther => None
       end) p in
  let p := set_fileType fileType p in
  let p := set_currentState PlayerState.Loading p in
  _sendToWorker (LOAD src fileType) p.

Definition play (p : Player) : Player :=
  if negb (PlayerState.eqb (currentState p) PlayerState.Stopped)
     && negb (PlayerState.eqb (currentState p) PlayerState.Paused)
  then p
  else if Num.ltb (totalFrame p) 1 then p
  else
    let p := set_currentState PlayerState.Playing p in
    let p := _sendToWorker PLAY p in
    dispatchEvent PlayerEvent.Play NoDetail p.

Definition pause (p : Player) : Player :=
  let p := set_currentState PlayerState.Paused p in
  let p := _sendToWorker PAUSE p in
  dispatchEvent PlayerEvent.Pause NoDetail p.

Definition seek (frame : Q) (p : Player) : Player :=
  let p := set_currentFrame frame p in
  _sendToWorker (SEEK frame) p.

Definition stop (p : Player) : Player :=
  let p := set_currentState PlayerState.Stopped p in
  let p := set_currentFrame 0 p in
  let p := _sendToWorker STOP p in
  let p := seek 0 p in
  dispatchEvent PlayerEvent.Stop NoDetail p.

Definition resize (width height : Q) (p : Player) : Player :=
  let p := set_canvasWidth (canvas_width width) p in
  let p := set_canvasHeight (canvas_height height) p in
  _updateCanvasInfo p.

Definition destroy (p : Player) : Player :=
  let p := if _worker p then set__worker false p else p in
  let p := set_currentState PlayerState.Destroyed p in
  dispatchEvent PlayerEvent.Destroyed NoDetail p.

(** [this.src], as a condition. *)
Definition hasSrc (p : Player) : option string :=
  match src p with
  | Some "" => None
  | other => other
  end.

Definition _handleWorkerMessage (r : WorkerResponse) (p : Player) : Player :=
  match r with
  | READY =>
      let p := _updateCanvasInfo p in
      match hasSrc p with
      | Some s => load (SrcString s) (fileType p) p
      | None => p
      end
  | LOADED totalFrame size =>
      let p := set_totalFrame totalFrame p in
      let p := set__animationSize size p in
      let p := set_currentState PlayerState.Stopped p in
      let p := dispatchEvent PlayerEvent.Load NoDetail p in
      if autoPlay p then play p else p
  | FRAME imageData frameNumber _ =>
      let p :=
        if negb (_supportsOffscreenCanvas p) then
          match imageData with
          | Some i => if _context p then set_painted (painted p ++ [i]) p else p
          | None => p
          end
        else p in
      let p := set_currentFrame frameNumber p in
      dispatchEvent PlayerEvent.Frame (FrameDetail (currentFrame p)) p
  | ERROR message =>
      let p := set_currentState PlayerState.Error p in
      dispatchEvent PlayerEvent.Error (MessageDetail message) p
  | COMPLETE =>
      let p := set_currentState PlayerState.Stopped p in
      dispatchEvent PlayerEvent.Complete NoDetail p
  end.

(** The player handling, in order, what the worker posted. *)
Definition receive (rs : list WorkerResponse) (p : Player) : Player :=
  fold_left (fun p r => _handleWorkerMessage r p) rs p.

End LottieWorkerPlayer.

(** ** Reading traces *)

(** The events a trace dispatches, in order. *)
Definition dispatched (t : list Effect) : list (PlayerEvent.t * Detail) :=
  flat_map (fun e => match e with Dispatch ev d => [(ev, d)] | _ => [] end) t.

(** The [rendererFallback] events of a trace, by their detail. *)
Definition fallbacks (t : list Effect) : list Detail :=
  flat_map
    (fun e =>
       match e with
       | Dispatch PlayerEvent.RendererFallback d => [d]
       | _ => []
       end) t.

(** The engines a trace constructs. *)
Definition constructed (t : list Effect) : list Renderer :=
  flat_map (fun e => match e with Construct r _ => [r] | _ => [] end) t.

(** The fallback order: WebGPU, then WebGL, then software. *)
Definition lowerTier (requested active : Renderer) : Prop :=
  match requested, active with
  | WG, GL | WG, SW | GL, SW => True
  | _, _ => False
  end.

(** [Calm P F C w]: the player is [P], and the trace of [w] has dispatched
    the fallback events [F] and constructed the engines [C]. *)
Definition Calm (P : LottiePlayer.Player) (F : list Detail)
    (C : list Renderer) (w : LottiePlayer.World) : Prop :=
  LottiePlayer.self w = P
  /\ fallbacks (LottiePlayer.trace w) = F
  /\ constructed (LottiePlayer.trace w) = C.

(** What [fallbackChain] may answer, given the engine it starts from and
    whether that engine came up. *)
Definition chainResult (engine : Renderer) (success : bool)
    (r : Renderer * bool) : Prop :=
  if success then r = (engine, true)
  else
    match engine with
    | WG => r = (GL, true) \/ r = (SW, true) \/ r = (SW, false)
    | GL => r = (SW, true) \/ r = (SW, false)
    | SW => r = (SW, false)
    end.

(** The URLs a trace fetches. *)
Definition fetched (t : list Effect) : list string :=
  flat_map (fun e => match e with Fetch url => [url] | _ => [] end) t.

(** [Tame ok base w]: every engine the worker has constructed is the software
    one, and what it has posted is [base] followed by responses that [ok]
    accepts. *)
Definition Tame (ok : WorkerResponse -> bool) (base : list WorkerResponse)
    (w : LottieWorker.Worker) : Prop :=
  Forall (eq SW) (constructed (LottieWorker.calls w))
  /\ exists rs,
       LottieWorker.posted w = (base ++ rs)%list /\ forallb ok rs = true.

(** ** Judgements on resumptions *)

(** [Sat I Q r]: every world in which [r] is suspended satisfies [I], and if
    each resumption happens in a world satisfying [I], then [r] ends with an
    outcome and a world satisfying [Q]. *)
Inductive Sat {W A} (I : W -> Prop) (Q : Outcome A -> W -> Prop)
  : Run W A -> Prop :=
| Sat_Done o w : Q o w -> Sat I Q (Done o w)
| Sat_Await s w k :
    I w -> (forall w', I w' -> Sat I Q (k w')) -> Sat I Q (Await s w k).

(** [Keeps I r]: [I] holds wherever [r] stops, for good or for a while. *)
Definition Keeps {W A} (I : W -> Prop) (r : Run W A) : Prop :=
  Sat I (fun _ w => I w) r.

(** [Runs Q r]: however the rest of the page interferes at the suspensions of
    a method [r] of the player, it ends with an outcome and a world satisfying
    [Q]. *)
Inductive Runs {A} (Q : Outcome A -> LottiePlayer.World -> Prop)
  : Run LottiePlayer.World A -> Prop :=
| Runs_Done o w : Q o w -> Runs Q (Done o w)
| Runs_Await s w k :
    (forall e, Runs Q (k (LottiePlayer.interfere e w))) ->
    Runs Q (Await s w k).

(** [Holds I r]: the same, for an invariant. *)
Definition Holds {A} (I : LottiePlayer.World -> Prop)
    (r : Run LottiePlayer.World A) : Prop :=
  Runs (fun _ w => I w) r.

(** ** The element on its page: the rest of [lottie-player.ts] *)

(** What a call into the host answers: a value, or an exception (for an
    awaited call, a rejection). *)
Inductive Answer (A : Type) :=
| Gives (a : A)
| Raises (e : string).
Arguments Gives {A} a.
Arguments Raises {A} e.

Definition call {W A} (r : Answer A) : Async W A :=
  match r with
  | Gives a => ret a
  | Raises e => throw e
  end.

(** Waiting for a call that was started earlier. *)
Definition settle {W A} (p : Promise W A) : Async W A :=
  fun w =>
    match p with
    | Fulfilled o => Done o w
    | Pending s k => Await s w k
    end.

(** [navigator.gpu], as far as [checkWebGPUSupport] follows it. *)
Record GPUDevice := {
  device_destroy : Answer unit
}.

Record GPUAdapter := {
  requestDevice : Answer GPUDevice
}.

Record GPU := {
  requestAdapter : Answer (option GPUAdapter)
}.

(** [navigator]: [gpu] is [None] when ['gpu' in navigator] is false. *)
Record Navigator := {
  gpu : option GPU
}.

(** [document.createElement('canvas')], and the [getContext] of the canvas it
    answers: [true] stands for a context, [false] for [null]. *)
Record Document := {
  createElement_canvas : Answer (string -> Answer bool)
}.

(** [s.replaceAll(c, replacement)], for a pattern of one character. *)
Fixpoint replaceAll (c : ascii) (replacement : string) (s : string)
  : string :=
  match s with
  | EmptyString => EmptyString
  | String a s' =>
      if Ascii.eqb a c then replacement ++ replaceAll c replacement s'
      else String a (replaceAll c replacement s')
  end.

(** Calls into the DOM and the module that the remaining methods make. *)
Inductive DomCall :=
| ObserverObserve
| ObserverDisconnect
| ElementRemove
| SetInterval (ms : Q)
| ModuleTerm
| StyleBackgroundColor (value : string)
| SaverSave (data : list Byte.byte) (mimeType : string)
| SaverDelete
| ReadFile (path : string)
| CanvasToBlob (mimeType : string)
| LinkAppend (download : string) (blob : list Byte.byte)
| LinkClick
| LinkRemove.

Module LottieElement.
Import LottiePlayer.

(** The two properties the setters assign that had no assignment so far. *)
Definition set_speed (v : Q) (x : Player) : Player :=
  mkPlayer (src x) (fileType x) (renderConfig x) v (autoPlay x) (count x)
    (loop x) (direction x) (mode x) (intermission x) (totalFrame x)
    (currentFrame x) (currentState x) (_TVG x) (canvasId x) (canvasWidth x)
    (canvasHeight x) (_beginTime x) (_counter x) (_timer x) (_observable x)
    (_actualRenderer x).
Definition set_loop (v : bool) (x : Player) : Player :=
  mkPlayer (src x) (fileType x) (renderConfig x) (speed x) (autoPlay x)
    (count x) v (direction x) (mode x) (intermission x) (totalFrame x)
    (currentFrame x) (currentState x) (_TVG x) (canvasId x) (canvasWidth x)
    (canvasHeight x) (_beginTime x) (_counter x) (_timer x) (_observable x)
    (_actualRenderer x).
(** [this._canvas.id = v]. *)
Definition set_canvasId (v : string) (x : Player) : Player :=
  mkPlayer (src x) (fileType x) (renderConfig x) (speed x) (autoPlay x)
    (count x) (loop x) (direction x) (mode x) (intermission x) (totalFrame x)
    (currentFrame x) (currentState x) (_TVG x) v (canvasWidth x)
    (canvasHeight x) (_beginTime x) (_counter x) (_timer x) (_observable x)
    (_actualRenderer x).

(** *** GPU feature detection *)

Definition checkWebGPUSupport (navigator : Navigator) : M bool :=
  tryCatch
    (match gpu navigator with
     | None => ret false
     | Some gpu =>
         adapter <- await (call (requestAdapter gpu)) ;;
         match adapter with
         | None => ret false
         | Some adapter =>
             device <- await (call (requestDevice adapter)) ;;
             call (device_destroy device) ;;
             ret true
         end
     end)
    (fun _ =>
       emit (ConsoleWarn "WebGPU support check failed:") ;;
       ret false).

Definition checkWebGLSupport (document : Document) : M bool :=
  tryCatch
    (getContext <- call (createElement_canvas document) ;;
     gl <- call (getContext "webgl") ;;
     if gl then ret true
     else
       gl <- call (getContext "experimental-webgl") ;;
       ret gl)
    (fun _ =>
       emit (ConsoleWarn "WebGL support check failed:") ;;
       ret false).

(** [Promise.all] of the two checks: the WebGPU check is started, the WebGL
    check runs, then both are waited for. *)
Definition checkGPUSupport (navigator : Navigator) (document : Document)
  : M (bool * bool) :=
  started <- spawn (checkWebGPUSupport navigator) ;;
  webgl <- checkWebGLSupport document ;;
  webgpu <- await (settle started) ;;
  ret (webgpu, webgl).

(** *** Properties read and assigned from outside *)

(** [get size()]. *)
Definition size (p : Player) : Q * Q :=
  match _TVG p with
  | Some tvg => tvg_size tvg
  | None => (0, 0)
  end.

(** [get actualRenderer()]. *)
Definition actualRenderer (p : Player) : option Renderer :=
  _actualRenderer p.

Definition setLooping (value : bool) : M unit :=
  p <- getSelf ;;
  match _TVG p with
  | None => ret tt
  | Some _ => modSelf (set_loop value)
  end.

Definition setDirection (value : Q) : M unit :=
  p <- getSelf ;;
  match _TVG p with
  | None => ret tt
  | Some _ => modSelf (set_direction value)
  end.

Definition setSpeed (value : Q) : M unit :=
  p <- getSelf ;;
  match _TVG p with
  | None => ret tt
  | Some _ => modSelf (set_speed value)
  end.

(** *** Methods that reach into the document *)

(** What the element has besides its [Player]: the observer, and what the
    document and the module answer to the methods below. *)
Record Dom := mkDom {
  _observer : bool;
  uuidv4 : string;
  offsetWidth : Q;
  offsetHeight : Q;
  saver_save : list Byte.byte -> string -> bool;
  saver_error : string;
  FS_readFile : string -> list Byte.byte;
  domLog : list DomCall
}.

Definition set__observer (v : bool) (x : Dom) : Dom :=
  mkDom v (uuidv4 x) (offsetWidth x) (offsetHeight x) (saver_save x)
    (saver_error x) (FS_readFile x) (domLog x).
Definition set_domLog (v : list DomCall) (x : Dom) : Dom :=
  mkDom (_observer x) (uuidv4 x) (offsetWidth x) (offsetHeight x)
    (saver_save x) (saver_error x) (FS_readFile x) v.

Record Page := mkPage {
  world : World;
  dom : Dom
}.

(** Methods of the element. *)
Definition E (A : Type) := Async Page A.

(** A method of the player, as a method of the element. *)
Fixpoint liftRun {A} (r : Run World A) (d : Dom) : Run Page A :=
  match r with
  | Done o w => Done o (mkPage w d)
  | Await s w k =>
      Await s (mkPage w d) (fun pg => liftRun (k (world pg)) (dom pg))
  end.

Definition lift {A} (c : M A) : E A :=
  fun pg => liftRun (c (world pg)) (dom pg).

Definition getDom : E Dom := fun pg => Done (Returned (dom pg)) pg.
Definition modDom (f : Dom -> Dom) : E unit :=
  fun pg => Done (Returned tt) (mkPage (world pg) (f (dom pg))).
Definition domCall (c : DomCall) : E unit :=
  modDom (fun d => set_domLog (domLog d ++ [c])%list d).

Definition _downloadFile (fileName : string) (blob : list Byte.byte)
  : E unit :=
  domCall (LinkAppend fileName blob) ;;
  domCall LinkClick ;;
  domCall LinkRemove.

(** [firstUpdated()]; the value returned here is the load it has started, if
    any. *)
Definition firstUpdated (fuel : nat) : E (option (Promise Page unit)) :=
  d <- getDom ;;
  lift (modSelf
          (set_canvasId
             ("thorvg-" ++ substring 0 6 (replaceAll "-" "" (uuidv4 d))))) ;;
  lift (modSelf (set_canvasWidth (canvas_width (offsetWidth d)))) ;;
  lift (modSelf (set_canvasHeight (canvas_height (offsetHeight d)))) ;;
  modDom (set__observer true) ;;
  domCall ObserverObserve ;;
  p <- lift getSelf ;;
  match _TVG p with
  | None =>
      lift (modSelf (set__timer true)) ;;
      domCall (SetInterval 100) ;;
      ret None
  | Some _ =>
      match hasSrc p with
      | Some s =>
          lift (emit (CallLoad s (fileType p))) ;;
          started <-
            spawn (lift (load (_init fuel) (SrcString s) (fileType p))) ;;
          ret (Some started)
      | None => ret None
      end
  end.

(** [destroy()], with what it does to the observer and to the document. *)
Definition destroy : E unit :=
  p <- lift getSelf ;;
  match _TVG p with
  | None => ret tt
  | Some _ =>
      lift (emit TvgDelete) ;;
      lift (modSelf (set__TVG None)) ;;
      lift (modSelf (set_currentState PlayerState.Destroyed)) ;;
      d <- getDom ;;
      when (_observer d)
        (domCall ObserverDisconnect ;;
         modDom (set__observer false)) ;;
      lift (dispatchEvent PlayerEvent.Destroyed NoDetail) ;;
      domCall ElementRemove
  end.

(** [term()]: [_module.term()] throws when there is no module. *)
Definition term : E unit :=
  _ <- lift theModule ;;
  domCall ModuleTerm ;;
  lift (modAmbient (set__module None)).

Definition setBgColor (value : string) : E unit :=
  p <- lift getSelf ;;
  match _TVG p with
  | None => ret tt
  | Some _ => domCall (StyleBackgroundColor value)
  end.

(** [save2png()] hands the canvas a callback; the canvas calls it later, with
    the blob or with [null]. *)
Definition save2png_callback (blob : option (list Byte.byte)) : E unit :=
  match blob with
  | None => ret tt
  | Some blob => _downloadFile "output.png" blob
  end.

Definition save2png : E unit :=
  p <- lift getSelf ;;
  match _TVG p with
  | None => ret tt
  | Some _ => domCall (CanvasToBlob "image/png")
  end.

(** [save2gif(src)].  The saver is a second engine instance; what its [save]
    and [error] answer, and what the module's file system holds afterwards,
    are the page's. *)
Definition save2gif (src : string) : E unit :=
  m <- lift theModule ;;
  p <- lift getSelf ;;
  lift (emit (Construct SW (Some ("#" ++ canvasId p)))) ;;
  match TvgLottieAnimation m SW (Some ("#" ++ canvasId p)) with
  | None => throw "TvgLottieAnimation threw"
  | Some _ =>
      bytes <- await (lift (_parseSrc (SrcString src) JSON)) ;;
      d <- getDom ;;
      domCall (SaverSave bytes "gif") ;;
      if negb (saver_save d bytes "gif") then
        domCall SaverDelete ;;
        throw ("Unable to save. Error: " ++ saver_error d)
      else
        _ <- lift theModule ;;
        domCall (ReadFile "output.gif") ;;
        let data := FS_readFile d "output.gif" in
        if (List.length data <? 6)%nat then
          domCall SaverDelete ;;
          throw "Unable to save the GIF data. The generated file size is invalid."
        else
          _downloadFile "output.gif" data ;;
          domCall SaverDelete
  end.

(** *** The entry points of the element *)

(** Everything the page can make the element do: its public methods, and the
    callbacks it has registered. *)
Inductive Call :=
| Play
| Pause
| Stop
| Freeze
| Seek (frame : Q)
| Resize (width height : Q)
| Load (src : Src) (fileType : FileType)
| SetLooping (value : bool)
| SetDirection (value : Q)
| SetSpeed (value : Q)
| SetBgColor (value : string)
| Destroy
| Term
| Save2png
| Save2gif (src : string)
| FirstUpdated
| TimerFires
| AnimationFrame
| Intersection (isIntersecting : bool)
| BlobReady (blob : option (list Byte.byte)).

(** A call, with what it leaves running: [stop()] starts a [seek], and
    [firstUpdated()] a [load], that they do not wait for. *)
Definition invoke (fuel : nat) (c : Call) : E unit :=
  match c with
  | Play => lift play
  | Pause => lift pause
  | Stop =>
      lift (started <- stop ;;
            settle started)
  | Freeze => lift freeze
  | Seek frame => lift (seek frame)
  | Resize width height => lift (resize width height)
  | Load src fileType => lift (load (_init fuel) src fileType)
  | SetLooping value => lift (setLooping value)
  | SetDirection value => lift (setDirection value)
  | SetSpeed value => lift (setSpeed value)
  | SetBgColor value => setBgColor value
  | Destroy => destroy
  | Term => term
  | Save2png => save2png
  | Save2gif src => save2gif src
  | FirstUpdated =>
      started <- firstUpdated fuel ;;
      match started with
      | Some load => settle load
      | None => ret tt
      end
  | TimerFires => lift (_init fuel)
  | AnimationFrame => lift _animLoop
  | Intersection isIntersecting => lift (_observerCallback isIntersecting)
  | BlobReady blob => save2png_callback blob
  end.

(** *** The event loop of the page *)

(** What happens on the page, one thing at a time: the element is called, a
    suspended call is resumed, or what is ambient changes. *)
Inductive Event :=
| Calls (c : Call)
| Resumes (i : nat)
| Changes (e : Ambient -> Ambient).

Record Loop := mkLoop {
  page : Page;
  suspended : list (Page -> Run Page unit)
}.

(** A call runs until it ends or suspends; a suspended call joins the
    others. *)
Definition park (r : Run Page unit) (others : list (Page -> Run Page unit))
  : Loop :=
  match r with
  | Done _ pg => mkLoop pg others
  | Await _ pg k => mkLoop pg (others ++ [k])%list
  end.

(** The list without its element of index [i]. *)
Fixpoint without {A} (i : nat) (l : list A) : list A :=
  match l, i with
  | [], _ => []
  | _ :: rest, O => rest
  | x :: rest, S i' => x :: without i' rest
  end.

Definition step (fuel : nat) (l : Loop) (ev : Event) : Loop :=
  match ev with
  | Calls c => park (invoke fuel c (page l)) (suspended l)
  | Resumes i =>
      match nth_error (suspended l) i with
      | Some k => park (k (page l)) (without i (suspended l))
      | None => l
      end
  | Changes e =>
      mkLoop (mkPage (interfere e (world (page l))) (dom (page l)))
        (suspended l)
  end.

Definition run (fuel : nat) (events : list Event) (pg : Page) : Loop :=
  fold_left (step fuel) events (mkLoop pg []).

End LottieElement.

(** ** Reading traces, continued *)

(** The [play] and [loop] events of a trace. *)
Definition playOrLoop (t : list Effect) : list (PlayerEvent.t * Detail) :=
  flat_map
    (fun x =>
       match x with
       | Dispatch PlayerEvent.Play d => [(PlayerEvent.Play, d)]
       | Dispatch PlayerEvent.Loop d => [(PlayerEvent.Loop, d)]
       | _ => []
       end) t.

(** The sizes of the images a trace puts on the canvas. *)
Definition paints (t : list Effect) : list (Q * Q) :=
  flat_map
    (fun x => match x with PutImageData w h => [(w, h)] | _ => [] end) t.

(** The size [_render] gives the canvas before it hands it to the engine: the
    size of the canvas on the page, scaled and stored, when device pixel
    ratio scaling is on, and the size the canvas has otherwise. *)
Definition sizeAtRender (w : LottiePlayer.World) : Q * Q :=
  let h := LottiePlayer.host (LottiePlayer.ambient w) in
  let p := LottiePlayer.self w in
  if LottiePlayer.usesDevicePixelRatio p then
    let dpr := 1 + ((devicePixelRatio h - 1) * (3 # 4)) in
    (canvas_width (canvasRectWidth h * dpr),
     canvas_height (canvasRectHeight h * dpr))
  else (LottiePlayer.canvasWidth p, LottiePlayer.canvasHeight p).

(** Whether [new ImageData] accepts the image of the engine at that size. *)
Definition paintable (w : LottiePlayer.World) (tvg : Tvg) : bool :=
  ImageData_ok (LottiePlayer.host (LottiePlayer.ambient w)) (tvg_render tvg)
    (fst (sizeAtRender w)) (snd (sizeAtRender w)).

(** [Within f r v w]: the player of [w] is configured for the renderer [r],
    and what [f] reads in the trace of [w] is [v]. *)
Definition Within {A} (f : Effect -> list A) (r : option Renderer)
    (v : list A) (w : LottiePlayer.World) : Prop :=
  LottiePlayer.configuredRenderer (LottiePlayer.self w) = r
  /\ flat_map f (LottiePlayer.trace w) = v.

(** ** The delegating element on its page: the rest of
    [lottie-worker-player.ts] *)

Module LottieWorkerElement.
Import LottieWorkerPlayer.

(** What the element has besides its [Player]: whether its worker has been
    terminated, and whether it has been removed from the document. *)
Record Element := mkElement {
  player : Player;
  terminated : bool;
  removed : bool
}.

(** A method of the player, as a method of the element. *)
Definition lift (f : Player -> Player) (x : Element) : Element :=
  mkElement (f (player x)) (terminated x) (removed x).

(** [get size()]. *)
Definition size (p : Player) : Q * Q := _animationSize p.

Definition _handleWorkerError (message : string) (p : Player) : Player :=
  let p := set_currentState PlayerState.Error p in
  dispatchEvent PlayerEvent.Error (MessageDetail message) p.

(** [destroy()], with the worker terminated and the element removed. *)
Definition destroy (x : Element) : Element :=
  let x :=
    if _worker (player x)
    then mkElement (set__worker false (player x)) true (removed x)
    else x in
  let x := lift (set_currentState PlayerState.Destroyed) x in
  let x := lift (dispatchEvent PlayerEvent.Destroyed NoDetail) x in
  mkElement (player x) (terminated x) true.

(** Everything the page and the worker can make the element do. *)
Inductive Call :=
| Load (src : Src) (fileType : FileType)
| Play
| Pause
| Stop
| Seek (frame : Q)
| Resize (width height : Q)
| Destroy
| WorkerSays (r : WorkerResponse)
| WorkerFails (message : string).

Definition invoke (c : Call) (x : Element) : Element :=
  match c with
  | Load src fileType => lift (load src fileType) x
  | Play => lift play x
  | Pause => lift pause x
  | Stop => lift stop x
  | Seek frame => lift (seek frame) x
  | Resize width height => lift (resize width height) x
  | Destroy => destroy x
  | WorkerSays r => lift (_handleWorkerMessage r) x
  | WorkerFails message => lift (_handleWorkerError message) x
  end.

Definition session (calls : list Call) (x : Element) : Element :=
  fold_left (fun x c => invoke c x) calls x.

End LottieWorkerElement.

(** ** A concrete page, for examples *)

Module Sample.

Definition tvg : Tvg :=
  {| tvg_duration := 2;
     tvg_totalFrame := 60;
     tvg_frame := fun _ => true;
     tvg_update := true;
     tvg_render := [0; 0; 0; 255]%Z;
     tvg_load := fun _ _ _ _ _ => true;
     tvg_error := "";
     tvg_size := (100, 100) |}.

Definition module : TvgModule :=
  {| TvgLottieAnimation := fun _ _ => Some tvg |}.

(** A host whose JSON parser knows the empty object only, and whose network
    answers it for every [https:] URL. *)
Definition host : Host :=
  {| devicePixelRatio := 1;
     innerWidth := 800;
     innerHeight := 600;
     rectLeft := 0;
     rectRight := 100;
     rectTop := 0;
     rectBottom := 100;
     canvasRectWidth := 100;
     canvasRectHeight := 100;
     JSON_parse := fun s => if String.eqb s "{}" then Some (JObject []) else None;
     JSON_stringify := fun _ => "{}";
     ToString := fun _ => "[object Object]";
     URL_href := fun s => if String.prefix "https://" s then Some s else None;
     fetch_json := fun _ => Some (JObject []);
     fetch_arrayBuffer := fun _ => Some [];
     loadModule := Some module;
     ImageData_ok := fun _ _ _ => true |}.

(** A loaded, visible player in the middle of a forward pass. *)
Definition player : LottiePlayer.Player :=
  LottiePlayer.mkPlayer None JSON None 1 false None false 1 Normal 1
    60 0 PlayerState.Playing (Some tvg) "thorvg-0" 100 100 10 1 false true
    (Some SW).

Definition ambient : LottiePlayer.Ambient :=
  LottiePlayer.mkAmbient 10500 host (Some module) true IDLE [].

Definition world : LottiePlayer.World :=
  LottiePlayer.mkWorld player ambient [].

(** The same player at the end of a forward pass, in Bounce mode with a
    count of two. *)
Definition bouncer : LottiePlayer.Player :=
  LottiePlayer.mkPlayer None JSON None 1 false (Some 2) false 1 Bounce 1
    60 0 PlayerState.Playing (Some tvg) "thorvg-0" 100 100 10 1 false true
    (Some SW).

Definition turning : LottiePlayer.World :=
  LottiePlayer.mkWorld bouncer
    (LottiePlayer.mkAmbient 12000 host (Some module) true IDLE []) [].

(** A player that has just been attached and asks for WebGPU, on a page where
    the engine refuses WebGPU. *)
Definition newcomer : LottiePlayer.Player :=
  LottiePlayer.mkPlayer None JSON
    (Some {| enableDevicePixelRatio := None; renderer := Some WG |})
    1 false None false 1 Normal 1 0 0 PlayerState.Loading None "thorvg-1"
    100 100 0 1 true false None.

Definition arrival : LottiePlayer.World :=
  LottiePlayer.mkWorld newcomer
    (LottiePlayer.mkAmbient 0 host (Some module) true IDLE [2; 1]%Z) [].

(** A worker that has been initialised, told the canvas size, given the
    empty animation and told to play, two and a half seconds ago. *)
Definition canvas : CanvasInfo :=
  {| width := 100;
     height := 100;
     canvasDevicePixelRatio := Some 1;
     viewportInfo := None |}.

Definition playingWorker : LottieWorker.Worker :=
  LottieWorker.turns 1
    [LottieWorker.Message
       (INIT None
          (Some {| enableDevicePixelRatio := None; renderer := Some WG |})
          None None);
     LottieWorker.Message (UPDATE_CANVAS_INFO canvas);
     LottieWorker.Message (LOAD (SrcString "{}") JSON);
     LottieWorker.Message PLAY;
     LottieWorker.TimePasses 2500]
    (LottieWorker.fresh host 0).

End Sample.

(** ** More of the concrete page *)

Module Fixture.

(** An engine that refuses every animation. *)
Definition refusing : Tvg :=
  {| tvg_duration := 2;
     tvg_totalFrame := 60;
     tvg_frame := fun _ => true;
     tvg_update := true;
     tvg_render := [0; 0; 0; 255]%Z;
     tvg_load := fun _ _ _ _ _ => false;
     tvg_error := "Invalid data";
     tvg_size := (100, 100) |}.

(** The sample player, with that engine. *)
Definition refused : LottiePlayer.World :=
  LottiePlayer.mkWorld
    (LottiePlayer.mkPlayer None JSON None 1 false None false 1 Normal 1
       60 0 PlayerState.Playing (Some refusing) "thorvg-0" 100 100 10 1 false
       true (Some SW))
    Sample.ambient [].

(** A browser that checks the size of an image: [new ImageData(data, w, h)]
    wants 4 * w * h bytes. *)
Definition browser : Host :=
  {| devicePixelRatio := devicePixelRatio Sample.host;
     innerWidth := innerWidth Sample.host;
     innerHeight := innerHeight Sample.host;
     rectLeft := 0;
     rectRight := 1;
     rectTop := 0;
     rectBottom := 1;
     canvasRectWidth := 1;
     canvasRectHeight := 1;
     JSON_parse := JSON_parse Sample.host;
     JSON_stringify := JSON_stringify Sample.host;
     ToString := ToString Sample.host;
     URL_href := URL_href Sample.host;
     fetch_json := fetch_json Sample.host;
     fetch_arrayBuffer := fetch_arrayBuffer Sample.host;
     loadModule := loadModule Sample.host;
     ImageData_ok :=
       fun data w h =>
         Qeq_bool (inject_Z (Z.of_nat (List.length data))) (4 * w * h) |}.

(** The sample player with a canvas of one pixel, which the four bytes of the
    sample engine fill, in that browser. *)
Definition pixel : LottiePlayer.World :=
  LottiePlayer.mkWorld
    (LottiePlayer.mkPlayer None JSON None 1 false None false 1 Normal 1
       60 0 PlayerState.Playing (Some Sample.tvg) "thorvg-0" 1 1 10 1 false
       true (Some SW))
    (LottiePlayer.mkAmbient 10500 browser (Some Sample.module) true IDLE [])
    [].

(** The bouncing sample player at the end of its first leg, likewise. *)
Definition pixelTurning : LottiePlayer.World :=
  LottiePlayer.mkWorld
    (LottiePlayer.mkPlayer None JSON None 1 false (Some 2) false 1 Bounce 1
       60 0 PlayerState.Playing (Some Sample.tvg) "thorvg-0" 1 1 10 1 false
       true (Some SW))
    (LottiePlayer.mkAmbient 12000 browser (Some Sample.module) true IDLE [])
    [].


(** The sample page scrolled so that the element, 100 wide, is 500 to the
    left of the window. *)
Definition farLeft : LottiePlayer.World :=
  LottiePlayer.mkWorld Sample.player
    (LottiePlayer.mkAmbient 10500
       {| devicePixelRatio := 1;
          innerWidth := 800;
          innerHeight := 600;
          rectLeft := -500;
          rectRight := -400;
          rectTop := 0;
          rectBottom := 100;
          canvasRectWidth := 100;
          canvasRectHeight := 100;
          JSON_parse := JSON_parse Sample.host;
          JSON_stringify := JSON_stringify Sample.host;
          ToString := ToString Sample.host;
          URL_href := URL_href Sample.host;
          fetch_json := fetch_json Sample.host;
          fetch_arrayBuffer := fetch_arrayBuffer Sample.host;
          loadModule := loadModule Sample.host;
          ImageData_ok := ImageData_ok Sample.host |}
       (Some Sample.module) true IDLE []) [].

(** A module whose WebGL engine cannot be constructed; the software engine
    can. *)
Definition glless : TvgModule :=
  {| TvgLottieAnimation :=
       fun engine _ => match engine with GL => None | _ => Some Sample.tvg end
  |}.

(** A player that has just been attached and asks for WebGL, on a page with
    that module and nothing else going on. *)
Definition hopeful : LottiePlayer.World :=
  LottiePlayer.mkWorld
    (LottiePlayer.mkPlayer None JSON
       (Some {| enableDevicePixelRatio := None; renderer := Some GL |})
       1 false None false 1 Normal 1 0 0 PlayerState.Loading None "thorvg-2"
       100 100 0 1 true false None)
    (LottiePlayer.mkAmbient 0 Sample.host (Some glless) true IDLE []) [].

(** A page that accepts WebGPU at the second answer. *)
Definition welcome : LottiePlayer.World :=
  LottiePlayer.mkWorld Sample.newcomer
    (LottiePlayer.mkAmbient 0 Sample.host (Some Sample.module) true IDLE
       [2; 0]%Z) [].

(** The document around the element: an observer, a uuid, a canvas laid out
    at 300 by 150, a saver that exports whatever it is given, and a module
    file system that holds eight bytes. *)
Definition dom : LottieElement.Dom :=
  LottieElement.mkDom true "0f8fad5b-d9cb-469f-a165-70867728950e" 300 150
    (fun _ _ => true) ""
    (fun _ => repeat Byte.x00 8) [].

Definition page : LottieElement.Page :=
  LottieElement.mkPage Sample.world dom.

(** The page of an element that has just been attached: no engine yet. *)
Definition attached : LottieElement.Page :=
  LottieElement.mkPage
    (LottiePlayer.mkWorld
       (LottiePlayer.mkPlayer None JSON None 1 false None false 1 Normal 1
          0 0 PlayerState.Loading None "" 0 0 0 1 false true None)
       Sample.ambient [])
    dom.

(** The page of a loaded element configured for WebGL. *)
Definition glPage : LottieElement.Page :=
  LottieElement.mkPage
    (LottiePlayer.mkWorld
       (LottiePlayer.mkPlayer None JSON
          (Some {| enableDevicePixelRatio := None; renderer := Some GL |})
          1 false None false 1 Normal 1 60 0 PlayerState.Stopped
          (Some Sample.tvg) "thorvg-0" 100 100 10 1 false true (Some GL))
       Sample.ambient [])
    dom.

(** A delegating player with a worker, the empty animation as its source and
    a canvas of 100 by 100 that it paints itself. *)
Definition delegate : LottieWorkerPlayer.Player :=
  LottieWorkerPlayer.mkPlayer (Some "{}") JSON None 1 true None false 1
    Normal 1 0 0 PlayerState.Loading true true 100 100 (0, 0) false
    Sample.host [] [] [].

(** A worker that has been initialised, and nothing more. *)
Definition readyWorker : LottieWorker.Worker :=
  LottieWorker.turn 1
    (LottieWorker.Message (INIT None None None None))
    (LottieWorker.fresh Sample.host 0).

End Fixture.

(** * Properties *)

Local Open Scope list_scope.

(** ** Numbers and enumerations *)

Lemma Num_eqb_iff a b : Num.eqb a b = true <-> a == b.
Proof. apply Qeq_bool_iff. Qed.

Lemma Num_geb_iff a b : Num.geb a b = true <-> b <= a.
Proof. apply Qle_bool_iff. Qed.

Lemma Num_leb_iff a b : Num.leb a b = true <-> a <= b.
Proof. apply Qle_bool_iff. Qed.

Lemma Num_ltb_iff a b : Num.ltb a b = true <-> a < b.
Proof.
  unfold Num.ltb. rewrite negb_true_iff, <- not_true_iff_false, Qle_bool_iff.
  split; [apply Qnot_le_lt | apply Qlt_not_le].
Qed.

Lemma Renderer_eqb_eq a b : Renderer_eqb a b = true <-> a = b.
Proof. destruct a, b; simpl; split; congruence. Qed.

Lemma InitStatus_eqb_eq a b : InitStatus_eqb a b = true <-> a = b.
Proof. destruct a, b; simpl; split; congruence. Qed.

Lemma PlayerState_eqb_eq a b : PlayerState.eqb a b = true <-> a = b.
Proof. destruct a, b; simpl; split; congruence. Qed.

Lemma PlayerState_eqb_refl a : PlayerState.eqb a a = true.
Proof. now destruct a. Qed.

Lemma PlayerEvent_eqb_eq a b : PlayerEvent.eqb a b = true <-> a = b.
Proof. destruct a, b; simpl; split; congruence. Qed.

(** ** A small logic for resumptions *)

Section ProgramLogic.
Context {W : Type}.
Variable I : W -> Prop.

Lemma sat_weaken {A} (Q Q' : Outcome A -> W -> Prop) r :
  Sat I Q r -> (forall o w, Q o w -> Q' o w) -> Sat I Q' r.
Proof.
  intros H HQ. induction H as [o w H | s w k Hw _ IH].
  - constructor. now apply HQ.
  - constructor; auto.
Qed.

Lemma sat_andThen {A B} (Q : Outcome A -> W -> Prop)
    (Q' : Outcome B -> W -> Prop) r (f : A -> Async W B) :
  Sat I Q r ->
  (forall a w, Q (Returned a) w -> Sat I Q' (f a w)) ->
  (forall e w, Q (Thrown e) w -> Q' (Thrown e) w) ->
  (forall w, Q OutOfFuel w -> Q' OutOfFuel w) ->
  Sat I Q' (andThen r f).
Proof.
  intros H Hr Ht Ho. induction H as [o w H | s w k Hw _ IH].
  - destruct o as [a | e |]; simpl.
    + now apply Hr.
    + constructor. now apply Ht.
    + constructor. now apply Ho.
  - simpl. constructor; auto.
Qed.

Lemma sat_orElse {A} (Q Q' : Outcome A -> W -> Prop) r
    (h : string -> Async W A) :
  Sat I Q r ->
  (forall e w, Q (Thrown e) w -> Sat I Q' (h e w)) ->
  (forall a w, Q (Returned a) w -> Q' (Returned a) w) ->
  (forall w, Q OutOfFuel w -> Q' OutOfFuel w) ->
  Sat I Q' (orElse r h).
Proof.
  intros H Ht Hr Ho. induction H as [o w H | s w k Hw _ IH].
  - destruct o as [a | e |]; simpl.
    + constructor. now apply Hr.
    + now apply Ht.
    + constructor. now apply Ho.
  - simpl. constructor; auto.
Qed.

(** Running to the end, with a schedule that respects [I]. *)
Lemma sat_drive {A} (Q : Outcome A -> W -> Prop) r sched :
  Sat I Q r ->
  Forall (fun e => forall w, I w -> I (e w)) sched ->
  Q (fst (drive sched r)) (snd (drive sched r)).
Proof.
  intros H. revert sched.
  induction H as [o w H | s w k Hw _ IH]; intros sched Hs; simpl.
  - exact H.
  - destruct sched as [| e sched'].
    + apply IH; auto.
    + inversion Hs; subst. apply IH; auto.
Qed.

(** The synchronous part ends in a world satisfying [I], when every final
    world does. *)
Lemma sat_sync {A} (r : Run W A) :
  Sat I (fun _ w => I w) r -> I (sync r).
Proof. intros H. destruct H; simpl; auto. Qed.

End ProgramLogic.

Section KeepsRules.
Context {W : Type}.
Variable I : W -> Prop.

Lemma keeps_done {A} (o : Outcome A) w : I w -> Keeps I (Done o w).
Proof. intros. now constructor. Qed.

Lemma keeps_ret {A} (a : A) w : I w -> Keeps I (ret a w).
Proof. apply keeps_done. Qed.

Lemma keeps_throw {A} e w : I w -> Keeps I (@throw W A e w).
Proof. apply keeps_done. Qed.

Lemma keeps_outOfFuel {A} w : I w -> Keeps I (@outOfFuel W A w).
Proof. apply keeps_done. Qed.

Lemma keeps_bind {A B} (c : Async W A) (f : A -> Async W B) w :
  Keeps I (c w) ->
  (forall a w', I w' -> Keeps I (f a w')) ->
  Keeps I (bind c f w).
Proof.
  intros Hc Hf. unfold bind, Keeps in *.
  eapply sat_andThen; eauto.
Qed.

Lemma keeps_tryCatch {A} (c : Async W A) (h : string -> Async W A) w :
  Keeps I (c w) ->
  (forall e w', I w' -> Keeps I (h e w')) ->
  Keeps I (tryCatch c h w).
Proof.
  intros Hc Hh. unfold tryCatch, Keeps in *.
  eapply sat_orElse; eauto.
Qed.

Lemma keeps_suspend s w : I w -> Keeps I (@suspend W s w).
Proof.
  intros H. unfold suspend. constructor; auto. intros. now constructor.
Qed.

Lemma keeps_await {A} (c : Async W A) w :
  Keeps I (c w) -> Keeps I (await c w).
Proof.
  intros H. unfold await. apply keeps_bind; auto.
  intros a w' Hw'. apply keeps_bind.
  - now apply keeps_suspend.
  - intros. now apply keeps_ret.
Qed.

Lemma keeps_when c (body : Async W unit) w :
  I w -> (c = true -> Keeps I (body w)) -> Keeps I (when c body w).
Proof.
  intros Hw Hb. destruct c; simpl; auto. now apply keeps_ret.
Qed.

Lemma keeps_spawn {A} (c : Async W A) w :
  Keeps I (c w) -> Keeps I (spawn c w).
Proof.
  intros H. unfold spawn. destruct H; now constructor.
Qed.

Lemma keeps_start {A} (r : Run W A) : Keeps I r -> I (sync r).
Proof. apply sat_sync. Qed.

Lemma keeps_drive {A} (r : Run W A) sched :
  Keeps I r ->
  Forall (fun e => forall w, I w -> I (e w)) sched ->
  I (snd (drive sched r)).
Proof. intros H Hs. exact (sat_drive I _ r sched H Hs). Qed.

End KeepsRules.

(** ** The main-thread player *)

Section PlayerFacts.
Import LottiePlayer.
#[local] Opaque Qplus Qminus Qmult Qdiv Qinv Qopp Qle_bool Qeq_bool Qabs.

Lemma dispatched_app t u : dispatched (t ++ u) = dispatched t ++ dispatched u.
Proof. apply flat_map_app. Qed.

Lemma fallbacks_app t u : fallbacks (t ++ u) = fallbacks t ++ fallbacks u.
Proof. apply flat_map_app. Qed.

Lemma fetched_app t u : fetched (t ++ u) = fetched t ++ fetched u.
Proof. apply flat_map_app. Qed.

Lemma constructed_app (t u : list Effect) :
  constructed (t ++ u) = constructed t ++ constructed u.
Proof. apply flat_map_app. Qed.

Ltac open_world w :=
  let p := fresh "p" in
  let g := fresh "g" in
  let t := fresh "t" in
  destruct w as [p g t]; destruct p; simpl in *; subst.

(** *** Rendering leaves the player state alone *)

(** [_render] is synchronous; it changes the canvas size at most, and
    dispatches nothing. *)
Lemma render_frame w :
  exists o w' rest,
    _render w = Done o w'
    /\ ambient w' = ambient w
    /\ currentState (self w') = currentState (self w)
    /\ currentFrame (self w') = currentFrame (self w)
    /\ _counter (self w') = _counter (self w)
    /\ trace w' = trace w ++ rest
    /\ dispatched rest = []
    /\ (forall tvg, _TVG (self w) = Some tvg ->
        exists x y rest', rest = TvgResize x y :: rest').
Proof.
  destruct w as [p g t].
  destruct p as [? ? rc ? ? ? ? ? ? ? ? ? ? tvg ? ? ? ? ? ? ? ?].
  unfold _render, _viewport, usesDevicePixelRatio, configuredRenderer.
  destruct rc as [[[[]|] r]|]; destruct tvg as [tvg|]; cbn;
    repeat match goal with
      | |- context [if ?c then _ else _] => destruct c; cbn
      | |- context [match ?r with Some _ => _ | None => _ end] => destruct r; cbn
      | |- context [match ?r with SW => _ | WG => _ | GL => _ end] => destruct r; cbn
      end;
    do 3 eexists; (split; [reflexivity|]);
    cbn; rewrite <- ?app_assoc; cbn;
    repeat (split; [reflexivity || (symmetry; apply app_nil_r) |]);
    solve [intros ? [=] | intros; do 3 eexists; reflexivity].
Qed.

Ltac setters :=
  unfold set_fileType, set_direction, set_totalFrame, set_currentFrame,
    set_currentState, set__TVG, set_canvasWidth, set_canvasHeight,
    set__beginTime, set__counter, set__timer, set__observable,
    set__actualRenderer, flipDirection, resetToBoundary, countLeg in *.

(** *** [play] *)

(** [play] is synchronous. *)
Lemma play_sync w : exists o w', play w = Done o w'.
Proof.
  destruct w as [p g t].
  destruct p as [? ft ? ? ? ? ? ? ? ? ? ? st tvg ? ? ? ? ? ? obs ?].
  unfold play. cbn.
  destruct (negb (FileType_eqb ft JSON) && negb (FileType_eqb ft LOT));
    [do 2 eexists; reflexivity|].
  destruct tvg as [tvg|]; cbn; [|do 2 eexists; reflexivity].
  destruct (Num.ltb (tvg_totalFrame tvg) 1); cbn;
    [do 2 eexists; reflexivity|].
  destruct st, obs; cbn; do 2 eexists; reflexivity.
Qed.

(** While the player is playing, [play] only re-reads the frame count and
    restarts the clock. *)
Lemma play_while_playing w tvg :
  currentState (self w) = PlayerState.Playing ->
  _TVG (self w) = Some tvg ->
  exists w',
    play w = Done (Returned tt) w'
    /\ trace w' = trace w
    /\ ambient w' = ambient w
    /\ currentState (self w') = PlayerState.Playing.
Proof.
  intros Hs Ht. destruct w as [p g t].
  destruct p as [? ft ? ? ? ? ? ? ? ? ? ? st ? ? ? ? ? ? ? obs ?].
  simpl in Hs, Ht. subst. unfold play. cbn.
  destruct (negb (FileType_eqb ft JSON) && negb (FileType_eqb ft LOT));
    [eexists; repeat split; reflexivity|].
  cbn. destruct (Num.ltb (tvg_totalFrame tvg) 1); cbn;
    eexists; repeat split; reflexivity.
Qed.

(** From a rest state, with something loaded and the player on screen,
    [play] starts the clock at the present time and asks for a tick. *)
Lemma play_from_rest w tvg :
  currentState (self w) <> PlayerState.Playing ->
  _TVG (self w) = Some tvg ->
  fileType (self w) = JSON \/ fileType (self w) = LOT ->
  Num.ltb (tvg_totalFrame tvg) 1 = false ->
  _observable (self w) = true ->
  play w =
    Done (Returned tt)
      (mkWorld
         (set_currentState PlayerState.Playing
            (set__beginTime (clock (ambient w) / 1000)
               (set_totalFrame (tvg_totalFrame tvg) (self w))))
         (ambient w) (trace w ++ [RequestAnimationFrame])).
Proof.
  intros Hs Ht Hf Hn Ho. destruct w as [p g t].
  destruct p as [? ft ? ? ? ? ? ? ? ? ? ? st ? ? ? ? ? ? ? obs ?].
  simpl in *. subst. unfold play. cbn.
  replace (negb (FileType_eqb ft JSON) && negb (FileType_eqb ft LOT))
    with false by (destruct Hf; subst; reflexivity).
  cbn. rewrite Hn. cbn.
  destruct st; try reflexivity. now elim Hs.
Qed.

(** *** The frame clock: [_update] *)

Lemma update_idle w :
  currentState (self w) <> PlayerState.Playing ->
  _update w = Done (Returned false) w.
Proof.
  intros H. destruct w as [p g t].
  destruct p as [? ? ? ? ? ? ? ? ? ? ? ? st ? ? ? ? ? ? ? ? ?].
  simpl in H. destruct st; try reflexivity. now elim H.
Qed.

(** What one tick does, by cases on the two tests of [_update]. *)
Lemma update_tick w tvg :
  currentState (self w) = PlayerState.Playing ->
  _TVG (self w) = Some tvg ->
  let frame := tickFrame w tvg in
  let p1 := set_currentFrame frame (self w) in
  if legOver p1 then
    if repeats p1 then
      exists k,
        _update w =
          Await (Timer (intermission p1))
            (mkWorld
               ((if hasCount p1 then countLeg else fun p => p)
                  (if PlayMode_eqb (mode p1) Bounce
                   then resetToBoundary (flipDirection p1) else p1))
               (ambient w) (trace w)) k
        /\ forall w', k w' = andThen (play w') (fun _ => ret true)
    else
      _update w =
        Done (Returned (tvg_frame tvg frame))
          (mkWorld (set_currentState PlayerState.Stopped p1) (ambient w)
             (trace w ++ [Dispatch PlayerEvent.Complete NoDetail;
                          Dispatch PlayerEvent.Frame (FrameDetail frame);
                          TvgFrame frame]))
  else
    _update w =
      Done (Returned (tvg_frame tvg frame))
        (mkWorld p1 (ambient w)
           (trace w ++ [Dispatch PlayerEvent.Frame (FrameDetail frame);
                        TvgFrame frame])).
Proof.
  Opaque play.
  intros Hs Ht. destruct w as [p g t].
  destruct p as [? ? ? ? ? cnt lp dir md ? ? ? ? ? ? ? ? ? ? ? ? ?].
  simpl in Hs, Ht. subst.
  unfold _update, tickFrame. cbn. setters. cbn.
  destruct (Num.eqb dir (-1)) eqn:Hback; cbn;
    match goal with
    | |- context [legOver ?p] => destruct (legOver p) eqn:Hover; cbn
    end;
    try (rewrite <- app_assoc; reflexivity);
    match goal with
    | |- context [repeats ?p] => destruct (repeats p) eqn:Hrep; cbn
    end;
    try (rewrite <- !app_assoc; reflexivity).
  all: unfold hasCount; cbn; destruct md; cbn; setters; cbn.
  all: destruct cnt as [c|]; cbn; [destruct (Num.truthy c); cbn|]; setters; cbn.
  all: eexists; split; [reflexivity|]; intros w'; unfold bind;
    destruct (play_sync w') as [o [w'' E]]; rewrite E; destruct o; reflexivity.
Qed.
Transparent play.

Lemma legOver_iff p :
  legOver p = true <->
  (direction p == 1 /\ totalFrame p <= currentFrame p)
  \/ (direction p == -1 /\ currentFrame p <= 0).
Proof.
  unfold legOver.
  rewrite orb_true_iff, !andb_true_iff, !Num_eqb_iff, Num_geb_iff, Num_leb_iff.
  reflexivity.
Qed.

Lemma repeats_iff p :
  repeats p = true <->
  loop p = true \/ (~ totalCount p == 0 /\ _counter p < totalCount p).
Proof.
  unfold repeats, Num.truthy.
  rewrite orb_true_iff, andb_true_iff, negb_true_iff, Num_ltb_iff.
  rewrite <- not_true_iff_false, Qeq_bool_iff. reflexivity.
Qed.

(** C2. On a tick while Playing, the frame is
    [(now - beginTime) / duration * totalFrame * speed], replaced by
    [totalFrame] minus that value when the direction is backward ([-1]); the
    tick treats the leg as over (it either suspends for the intermission or
    dispatches [complete] and stops) exactly when the frame is [>= totalFrame]
    going forward or [<= 0] going backward, and otherwise reports the frame and
    stays Playing. *)
Theorem update_frame_and_completion w tvg :
  currentState (self w) = PlayerState.Playing ->
  _TVG (self w) = Some tvg ->
  let p := self w in
  let now := clock (ambient w) / 1000 in
  let elapsed :=
    (now - _beginTime p) / tvg_duration tvg * totalFrame p * speed p in
  let frame :=
    if Num.eqb (direction p) (-1) then totalFrame p - elapsed else elapsed in
  let over :=
    (direction p == 1 /\ totalFrame p <= frame)
    \/ (direction p == -1 /\ frame <= 0) in
  (~ over ->
   exists w',
     _update w = Done (Returned (tvg_frame tvg frame)) w'
     /\ currentFrame (self w') = frame
     /\ currentState (self w') = PlayerState.Playing
     /\ dispatched (trace w') =
        dispatched (trace w) ++ [(PlayerEvent.Frame, FrameDetail frame)])
  /\ (over ->
      (exists w' k, _update w = Await (Timer (intermission p)) w' k)
      \/ (exists w',
            _update w = Done (Returned (tvg_frame tvg frame)) w'
            /\ currentFrame (self w') = frame
            /\ currentState (self w') = PlayerState.Stopped
            /\ dispatched (trace w') =
               dispatched (trace w)
                 ++ [(PlayerEvent.Complete, NoDetail);
                     (PlayerEvent.Frame, FrameDetail frame)])).
Proof.
  intros Hs Ht p now elapsed frame over.
  pose proof (update_tick w tvg Hs Ht) as H. cbv zeta in H.
  change (tickFrame w tvg) with frame in H.
  assert (Hover : legOver (set_currentFrame frame p) = true <-> over).
  { rewrite legOver_iff. destruct w as [q g t]; destruct q; reflexivity. }
  fold p in H.
  destruct (legOver (set_currentFrame frame p)) eqn:E.
  - split; [intros Hn; elim Hn; now apply Hover|]. intros _.
    destruct (repeats (set_currentFrame frame p)).
    + left. destruct H as [k [H _]]. do 2 eexists. exact H.
    + right. eexists. split; [exact H|]. cbn.
      rewrite dispatched_app. destruct w as [q g t]; destruct q.
      repeat split; reflexivity.
  - split; [intros _ | intros Ho; apply Hover in Ho; discriminate].
    eexists. split; [exact H|]. cbn. rewrite dispatched_app.
    destruct w as [q g t]; destruct q. simpl in Hs. subst.
    repeat split; reflexivity.
Qed.

(** C3. When a leg is over, the tick goes on (it suspends for the
    intermission) exactly when [loop] is set or the repeat counter is below
    the effective limit, which is [count * 2] in Bounce mode, [count]
    otherwise, and 0 when no count is configured.  When it goes on, Bounce
    mode flips the direction and puts the frame on the boundary of the new
    direction (0 when now forward, [totalFrame] when now backward); the
    counter is incremented after that, and only when a count is
    configured. *)
Theorem update_repeat_bookkeeping w tvg :
  currentState (self w) = PlayerState.Playing ->
  _TVG (self w) = Some tvg ->
  let p := self w in
  let frame := tickFrame w tvg in
  legOver (set_currentFrame frame p) = true ->
  let limit :=
    match count p with
    | Some c =>
        if Num.truthy c
        then (if PlayMode_eqb (mode p) Bounce then c * 2 else c)
        else 0
    | None => 0
    end in
  let finite :=
    match count p with
    | Some c => Num.truthy c
    | None => false
    end in
  let goesOn := loop p = true \/ (~ limit == 0 /\ _counter p < limit) in
  ((exists w' k, _update w = Await (Timer (intermission p)) w' k) <-> goesOn)
  /\ (goesOn ->
      exists w' k,
        _update w = Await (Timer (intermission p)) w' k
        /\ (mode p = Bounce ->
            direction (self w') = (if Num.eqb (direction p) 1 then -1 else 1)
            /\ currentFrame (self w') =
               (if Num.eqb (direction (self w')) 1 then 0 else totalFrame p))
        /\ (mode p = Normal ->
            direction (self w') = direction p
            /\ currentFrame (self w') = frame)
        /\ _counter (self w') =
           (if finite then _counter p + 1 else _counter p)
        /\ self w' =
           (if finite then countLeg else fun q => q)
             (if PlayMode_eqb (mode p) Bounce
              then resetToBoundary (flipDirection (set_currentFrame frame p))
              else set_currentFrame frame p)).
Proof.
  intros Hs Ht p frame Hover limit finite goesOn.
  pose proof (update_tick w tvg Hs Ht) as H. cbv zeta in H.
  fold p frame in H. rewrite Hover in H.
  assert (Hrep : repeats (set_currentFrame frame p) = true <-> goesOn).
  { rewrite repeats_iff. destruct w as [q g t]; destruct q; reflexivity. }
  destruct (repeats (set_currentFrame frame p)) eqn:E.
  - destruct H as [k [H _]].
    split; [split; [intros _; now apply Hrep | intros _; eauto]|].
    intros _. do 2 eexists. split; [exact H|].
    destruct w as [q g t]; destruct q as [? ? ? ? ? cnt ? ? md ? ? ? ? ? ? ? ? ? ? ? ? ?].
    subst p finite frame limit goesOn. unfold hasCount. setters. cbn.
    destruct cnt as [c|]; [destruct (Num.truthy c)|]; destruct md; cbn;
      repeat match goal with
        | |- _ /\ _ => split
        | |- _ -> _ => intros ?
        end; try discriminate; reflexivity.
  - split.
    + split; [intros [w' [k Hk]]; rewrite H in Hk; discriminate|].
      intros Hg. apply Hrep in Hg. discriminate.
    + intros Hg. apply Hrep in Hg. discriminate.
Qed.

(** C6 (the code against the claim).  On a tick where the clock goes on
    instead of completing, the player waits for the intermission, calls
    [play()] and answers [true]: it dispatches nothing at all, so no [loop]
    event reaches the observers. *)
Theorem looping_tick_dispatches_nothing w tvg sched :
  currentState (self w) = PlayerState.Playing ->
  _TVG (self w) = Some tvg ->
  legOver (set_currentFrame (tickFrame w tvg) (self w)) = true ->
  repeats (self w) = true ->
  (exists w1 k, _update w = Await (Timer (intermission (self w))) w1 k)
  /\ exists w',
       drive (map interfere sched) (_update w) = (Returned true, w')
       /\ trace w' = trace w.
Proof.
  intros Hs Ht Hover Hrep.
  pose proof (update_tick w tvg Hs Ht) as H. cbv zeta in H.
  rewrite Hover in H.
  replace (repeats (set_currentFrame (tickFrame w tvg) (self w))) with true in H
    by (destruct w as [q g t]; destruct q; symmetry; exact Hrep).
  destruct H as [k [H Hk]].
  split.
  { do 2 eexists. rewrite H. destruct w as [q g t]; destruct q; reflexivity. }
  rewrite H.
  match type of H with _ = Await _ ?w1 _ => set (w1' := w1) end.
  assert (Hplay : forall e, exists w',
             k (interfere e w1') = Done (Returned true) w' /\ trace w' = trace w).
  { intros e. rewrite Hk.
    assert (Hs' : currentState (self (interfere e w1')) = PlayerState.Playing).
    { subst w1'. destruct w as [q g t].
      destruct q as [? ? ? ? ? cnt ? ? md ? ? ? ? ? ? ? ? ? ? ? ? ?].
      simpl in Hs. subst. unfold interfere, hasCount. setters. cbn.
      destruct cnt as [c|]; [destruct (Num.truthy c)|]; destruct md;
        reflexivity. }
    assert (Ht' : _TVG (self (interfere e w1')) = Some tvg).
    { subst w1'. destruct w as [q g t].
      destruct q as [? ? ? ? ? cnt ? ? md ? ? ? ? ? ? ? ? ? ? ? ? ?].
      simpl in Ht. subst. unfold interfere, hasCount. setters. cbn.
      destruct cnt as [c|]; [destruct (Num.truthy c)|]; destruct md;
        reflexivity. }
    destruct (play_while_playing _ tvg Hs' Ht') as [w' [Hp [Htr _]]].
    exists w'. rewrite Hp. split; [reflexivity|]. rewrite Htr. reflexivity. }
  destruct sched as [|e sched]; simpl.
  - destruct (Hplay (fun g => g)) as [w' [Hw' Htr]].
    replace (interfere (fun g => g) w1') with w1' in Hw'
      by (destruct w1'; reflexivity).
    rewrite Hw'. simpl. eauto.
  - destruct (Hplay e) as [w' [Hw' Htr]]. rewrite Hw'. simpl. eauto.
Qed.


(** *** Visibility: [_observerCallback] *)

(** Losing the intersection in any state but Playing only records that the
    player is off screen. *)
Lemma observerCallback_hidden_at_rest w :
  currentState (self w) <> PlayerState.Playing ->
  _observerCallback false w =
    Done (Returned tt)
      (mkWorld (set__observable false (self w)) (ambient w) (trace w)).
Proof.
  intros H. destruct w as [p g t].
  destruct p as [? ? ? ? ? ? ? ? ? ? ? ? st ? ? ? ? ? ? ? ? ?].
  simpl in H. destruct st; try reflexivity. now elim H.
Qed.

(** C7 (the code against the claim).  When the intersection is lost while the
    player is Playing, the state becomes Frozen and the [freeze] event is
    dispatched twice: once by [freeze()] and once more by the callback. *)
Theorem observerCallback_dispatches_freeze_twice w :
  currentState (self w) = PlayerState.Playing ->
  exists w',
    _observerCallback false w = Done (Returned tt) w'
    /\ currentState (self w') = PlayerState.Frozen
    /\ trace w' =
       trace w ++ [Dispatch PlayerEvent.Freeze NoDetail;
                   Dispatch PlayerEvent.Freeze NoDetail].
Proof.
  intros H. destruct w as [p g t]. destruct p. simpl in H. subst.
  eexists. split; [reflexivity|]. cbn. split; [reflexivity|].
  now rewrite <- app_assoc.
Qed.

(** *** [seek] and [stop] *)

(** [_frame] pauses first, whatever the state was. *)
Lemma frame_pauses w curFrame :
  exists o w',
    _frame curFrame w = Done o w'
    /\ ambient w' = ambient w
    /\ self w' =
       set_currentFrame curFrame (set_currentState PlayerState.Paused (self w))
    /\ match _TVG (self w) with
       | Some _ =>
           o = Returned tt
           /\ trace w' =
              trace w ++ [Dispatch PlayerEvent.Pause NoDetail; TvgFrame curFrame]
       | None =>
           (exists e, o = Thrown e)
           /\ trace w' = trace w ++ [Dispatch PlayerEvent.Pause NoDetail]
       end.
Proof.
  destruct w as [p g t].
  destruct p as [? ? ? ? ? ? ? ? ? ? ? ? ? tvg ? ? ? ? ? ? ? ?].
  destruct tvg; cbn; do 2 eexists; (split; [reflexivity|]); cbn;
    repeat split; eauto; now rewrite <- ?app_assoc.
Qed.

(** The synchronous part of [seek], and what is left of it. *)
Lemma seek_start w frame :
  match _TVG (self w) with
  | Some _ =>
      exists k,
        seek frame w =
          Await Settled
            (mkWorld
               (set_currentFrame frame
                  (set_currentState PlayerState.Paused (self w)))
               (ambient w)
               (trace w ++ [Dispatch PlayerEvent.Pause NoDetail; TvgFrame frame]))
            k
        /\ forall w', k w' = _render w'
  | None =>
      exists e,
        seek frame w =
          Done (Thrown e)
            (mkWorld
               (set_currentFrame frame
                  (set_currentState PlayerState.Paused (self w)))
               (ambient w)
               (trace w ++ [Dispatch PlayerEvent.Pause NoDetail]))
  end.
Proof.
  Opaque _render.
  destruct w as [p g t].
  destruct p as [? ? ? ? ? ? ? ? ? ? ? ? ? tvg ? ? ? ? ? ? ? ?].
  destruct tvg; cbn.
  - eexists. rewrite <- app_assoc. split; [reflexivity|]. reflexivity.
  - eexists. reflexivity.
  Transparent _render.
Qed.

(** C5 (the code against the claim).  When [stop()] returns, the frame and the
    repeat counter are reset and the [stop] event is dispatched, but the state
    is Paused: the [seek(0)] it calls goes through [pause()], which overwrites
    the Stopped state and dispatches [pause].  The state is still Paused once
    the pending [seek] has finished. *)
Theorem stop_leaves_player_paused w :
  exists pending w',
    stop w = Done (Returned pending) w'
    /\ currentState (self w') = PlayerState.Paused
    /\ currentFrame (self w') = 0
    /\ _counter (self w') = 1
    /\ dispatched (trace w') =
       dispatched (trace w)
         ++ [(PlayerEvent.Pause, NoDetail); (PlayerEvent.Stop, NoDetail)]
    /\ forall sched,
         currentState
           (self (snd (drive (map interfere sched) (resume pending w'))))
         = PlayerState.Paused.
Proof.
  Opaque _render.
  destruct w as [p g t].
  destruct p as [? ? ? ? ? ? ? ? ? ? ? ? ? tvg ? ? ? ? ? ? ? ?].
  destruct tvg as [tvg|]; cbn.
  - do 2 eexists. split; [reflexivity|]. cbn.
    repeat (split; [try reflexivity|]).
    + rewrite <- !app_assoc, dispatched_app. reflexivity.
    + intros sched.
      match goal with
      | |- context [_render ?w0] =>
          destruct (render_frame w0) as [o [w' [rest [E [_ [Hs _]]]]]];
          rewrite E
      end.
      simpl. exact Hs.
  - do 2 eexists. split; [reflexivity|]. cbn.
    repeat (split; [try reflexivity|]).
    + rewrite <- !app_assoc, dispatched_app. reflexivity.
    + intros sched. reflexivity.
  Transparent _render.
Qed.

(** C4, as the code has it.  Whatever the state was, [seek(f)] puts the player
    in Paused before anything else, hands frame [f] to the engine and renders
    once.  A later [play()] from Paused or Stopped does not resume from [f]:
    it restarts the clock at the present time, so the frame of a tick depends
    on the time elapsed since [play()] only; at the instant of [play()] it is
    0 going forward and [totalFrame] going backward. *)
Theorem seek_pauses_and_play_restarts_clock w f sched :
  (exists w1, sync (seek f w) = w1
     /\ currentState (self w1) = PlayerState.Paused
     /\ currentFrame (self w1) = f)
  /\ (let w2 := snd (drive (map interfere sched) (seek f w)) in
      currentState (self w2) = PlayerState.Paused
      /\ currentFrame (self w2) = f
      /\ forall tvg, _TVG (self w) = Some tvg ->
         exists x y rest,
           trace w2 =
             trace w ++ Dispatch PlayerEvent.Pause NoDetail
               :: TvgFrame f :: TvgResize x y :: rest)
  /\ (forall tvg,
        (currentState (self w) = PlayerState.Paused
         \/ currentState (self w) = PlayerState.Stopped) ->
        _TVG (self w) = Some tvg ->
        fileType (self w) = JSON \/ fileType (self w) = LOT ->
        Num.ltb (tvg_totalFrame tvg) 1 = false ->
        _observable (self w) = true ->
        exists w3,
          play w = Done (Returned tt) w3
          /\ currentState (self w3) = PlayerState.Playing
          /\ _beginTime (self w3) = clock (ambient w) / 1000
          /\ (forall t,
                tickFrame (interfere (set_clock t) w3) tvg =
                  let elapsed :=
                    (t / 1000 - clock (ambient w) / 1000) / tvg_duration tvg
                      * tvg_totalFrame tvg * speed (self w) in
                  if Num.eqb (direction (self w)) (-1)
                  then tvg_totalFrame tvg - elapsed else elapsed)
          /\ tickFrame w3 tvg ==
               (if Num.eqb (direction (self w)) (-1)
                then tvg_totalFrame tvg else 0)).
Proof.
  split; [|split].
  - pose proof (seek_start w f) as H.
    destruct (_TVG (self w)) as [tvg0|].
    + destruct H as [k [-> _]]. eexists. split; [reflexivity|].
      split; destruct w as [q g t]; destruct q; reflexivity.
    + destruct H as [e ->]. eexists. split; [reflexivity|].
      split; destruct w as [q g t]; destruct q; reflexivity.
  - cbv zeta. pose proof (seek_start w f) as H.
    destruct (_TVG (self w)) as [tvg0|] eqn:Htvg.
    + destruct H as [k [-> Hk]].
      match goal with
      | |- context [Await Settled ?w0 k] => set (w1 := w0)
      end.
      assert (Hr : forall e s,
        let w2 := snd (drive s (k (interfere e w1))) in
        currentState (self w2) = PlayerState.Paused
        /\ currentFrame (self w2) = f
        /\ exists x y rest,
             trace w2 =
               trace w ++ Dispatch PlayerEvent.Pause NoDetail
                 :: TvgFrame f :: TvgResize x y :: rest).
      { intros e s. cbv zeta. rewrite Hk.
        destruct (render_frame (interfere e w1))
          as [o [w' [rest [E [_ [Hs [Hf [_ [Htr [_ Hres]]]]]]]]]].
        rewrite E. replace (snd (drive s (Done o w'))) with w'
          by (destruct s; reflexivity).
        rewrite Hs, Hf, Htr.
        destruct (Hres tvg0) as [x [y [rest' ->]]].
        { subst w1. destruct w as [q g t]; destruct q. simpl in *. exact Htvg. }
        subst w1. destruct w as [q g t]; destruct q. cbn.
        repeat split. exists x, y, rest'. now rewrite <- app_assoc. }
      destruct sched as [|e sched']; simpl.
      * specialize (Hr (fun g => g) []). cbv zeta in Hr.
        replace (interfere (fun g => g) w1) with w1 in Hr
          by (destruct w1; reflexivity).
        destruct Hr as [H1 [H2 H3]]. repeat split; auto.
      * specialize (Hr e (map interfere sched')). cbv zeta in Hr.
        destruct Hr as [H1 [H2 H3]]. repeat split; auto.
    + destruct H as [e ->]. simpl.
      destruct w as [q g t]; destruct q. simpl in *.
      repeat split; try reflexivity. intros ? [=].
  - intros tvg Hst Htvg Hft Hn Hobs.
    rewrite (play_from_rest w tvg); auto.
    2:{ destruct Hst as [-> | ->]; discriminate. }
    eexists. split; [reflexivity|].
    destruct w as [q g t].
    destruct q as [? ? ? ? ? ? ? dir ? ? ? ? ? ? ? ? ? ? ? ? ? ?].
    simpl in *. unfold tickFrame. cbn.
    repeat split.
    Transparent Qdiv.
    destruct (Num.eqb dir (-1)); unfold Qdiv; ring.
    Opaque Qdiv.
Qed.

End PlayerFacts.

Section SourceFacts.
Import LottiePlayer.

(** *** Sources: [_parseSrc] *)

(** What [_parseSrc] answers for a string source of type json or lot.  A
    string that [JSON.parse] accepts is not fetched, and what is encoded is
    the parsed value, converted to a string as [encode] does.  Only when
    parsing fails is the string read as a URL; then that URL is fetched and
    the body, stringified again, is the payload (and an invalid URL is an
    error, with nothing fetched). *)
Lemma parseSrc_literal_before_locator w s ft sched :
  ft = JSON \/ ft = LOT ->
  let h := host (ambient w) in
  let r := drive (map interfere sched) (_parseSrc (SrcString s) ft w) in
  match JSON_parse h s with
  | Some v =>
      fst r = Returned (encode (asString h v))
      /\ trace (snd r) = trace w
  | None =>
      match URL_href h s with
      | None => (exists e, fst r = Thrown e) /\ trace (snd r) = trace w
      | Some url =>
          trace (snd r) = trace w ++ [Fetch url]
          /\ match fetch_json h url with
             | Some json => fst r = Returned (encode (JSON_stringify h json))
             | None => exists e, fst r = Thrown e
             end
      end
  end.
Proof.
  intros Hft h r. subst r h.
  destruct w as [p g t]. cbn.
  unfold _parseSrc. cbn.
  replace (FileType_eqb ft JSON || FileType_eqb ft LOT) with true
    by (destruct Hft; subst; reflexivity).
  unfold _parseJSON. cbn.
  destruct (JSON_parse (host g) s) as [v|]; cbn.
  - destruct sched; cbn; auto.
  - unfold _parseLottieFromURL. cbn.
    destruct (URL_href (host g) s) as [url|]; cbn.
    + destruct (fetch_json (host g) url) as [json|];
        destruct sched as [|e1 [|e2 [|e3 sched]]]; cbn; eauto.
    + eauto.
Qed.

(** [TextEncoder.encode] loses nothing: two strings with the same bytes are
    the same string. *)
Lemma encode_inj s t : encode s = encode t -> s = t.
Proof.
  unfold encode. intros H.
  rewrite <- (string_of_list_byte_of_string s),
    <- (string_of_list_byte_of_string t), H.
  reflexivity.
Qed.

(** C8 (the code against the claim).  A string source of type json or lot
    whose text is a JSON object is not fetched, but it is not taken as the
    data either: [_parseJSON] answers the parsed object, not a string, and
    what [_parseSrc] encodes is the string conversion of that object, the
    fifteen characters [[object Object]], whatever the text was.  The two
    sibling paths do hand over JSON text: the same object given as an object
    is stringified, and so is the body fetched when the string is a URL. *)
Theorem parseSrc_encodes_parsed_object_not_text w s ft l sched :
  ft = JSON \/ ft = LOT ->
  JSON_parse (host (ambient w)) s = Some (JObject l) ->
  ToString (host (ambient w)) (JObject l) = "[object Object]" ->
  let h := host (ambient w) in
  let r := drive (map interfere sched) (_parseSrc (SrcString s) ft w) in
  fst r = Returned (encode "[object Object]")
  /\ trace (snd r) = trace w
  /\ (fst r = Returned (encode s) -> s = "[object Object]")
  /\ fst (drive (map interfere sched) (_parseSrc (SrcObject (JObject l)) ft w))
     = Returned (encode (JSON_stringify h (JObject l)))
  /\ forall u url json,
       JSON_parse h u = None ->
       URL_href h u = Some url ->
       fetch_json h url = Some json ->
       fst (drive (map interfere sched) (_parseSrc (SrcString u) ft w))
       = Returned (encode (JSON_stringify h json)).
Proof.
  intros Hft Hp Hs h r.
  pose proof (parseSrc_literal_before_locator w s ft sched Hft) as H.
  cbv zeta in H. rewrite Hp in H. destruct H as [H1 H2].
  unfold asString in H1. rewrite Hs in H1.
  subst r. split; [exact H1|]. split; [exact H2|]. split; [|split].
  - rewrite H1. intros E. injection E as E. apply encode_inj in E.
    symmetry. exact E.
  - destruct w as [p g t]. destruct sched; reflexivity.
  - intros u url json Hu Hurl Hf.
    pose proof (parseSrc_literal_before_locator w u ft sched Hft) as H.
    cbv zeta in H. subst h. rewrite Hu, Hurl, Hf in H. exact (proj2 H).
Qed.

End SourceFacts.

(** ** Renderer initialisation *)

Section InitFacts.
Import LottiePlayer.

Lemma interfere_id w : interfere (fun g => g) w = w.
Proof. now destruct w. Qed.

Lemma runs_drive {A} (Q : Outcome A -> World -> Prop) r sched :
  Runs Q r ->
  Q (fst (drive (map interfere sched) r)) (snd (drive (map interfere sched) r)).
Proof.
  intros H. revert sched.
  induction H as [o w H | s w k _ IH]; intros sched; simpl.
  - exact H.
  - destruct sched as [| e sched']; simpl.
    + specialize (IH (fun g => g) []). now rewrite interfere_id in IH.
    + apply IH.
Qed.

Lemma runs_weaken {A} (Q Q' : Outcome A -> World -> Prop) r :
  Runs Q r -> (forall o w, Q o w -> Q' o w) -> Runs Q' r.
Proof.
  intros H HQ. induction H as [o w H | s w k _ IH].
  - constructor. now apply HQ.
  - constructor. auto.
Qed.

Lemma runs_andThen {A B} (Q : Outcome A -> World -> Prop)
    (Q' : Outcome B -> World -> Prop) r (f : A -> M B) :
  Runs Q r ->
  (forall a w, Q (Returned a) w -> Runs Q' (f a w)) ->
  (forall e w, Q (Thrown e) w -> Q' (Thrown e) w) ->
  (forall w, Q OutOfFuel w -> Q' OutOfFuel w) ->
  Runs Q' (andThen r f).
Proof.
  intros H Hr Ht Ho. induction H as [o w H | s w k _ IH].
  - destruct o as [a | e |]; simpl.
    + now apply Hr.
    + constructor. now apply Ht.
    + constructor. now apply Ho.
  - simpl. constructor. auto.
Qed.

(** *** Computations that keep an invariant of the player and the trace *)

Section Holds.
Variable I : World -> Prop.
Hypothesis stable : forall e w, I w -> I (interfere e w).

Lemma holds_done {A} (o : Outcome A) w : I w -> Holds I (Done o w).
Proof. intros. now constructor. Qed.

Lemma holds_bind {A B} (c : M A) (f : A -> M B) w :
  Holds I (c w) -> (forall a w', I w' -> Holds I (f a w')) -> Holds I (bind c f w).
Proof. intros Hc Hf. unfold bind, Holds in *. eapply runs_andThen; eauto. Qed.

Lemma holds_suspend s w : I w -> Holds I (@suspend World s w).
Proof.
  intros H. unfold suspend. constructor. intros e. constructor. now apply stable.
Qed.

Lemma holds_await {A} (c : M A) w : Holds I (c w) -> Holds I (await c w).
Proof.
  intros H. unfold await. apply holds_bind; auto.
  intros a w' Hw'. apply holds_bind.
  - now apply holds_suspend.
  - intros. now apply holds_done.
Qed.

Lemma holds_when c (body : M unit) w :
  I w -> (c = true -> Holds I (body w)) -> Holds I (when c body w).
Proof. intros Hw Hb. destruct c; simpl; auto. now apply holds_done. Qed.

End Holds.


(** *** Computations that leave the player and its events alone *)

Lemma calm_stable P F C e w : Calm P F C w -> Calm P F C (interfere e w).
Proof. now destruct w. Qed.

Lemma calm_modAmbient P F C f w :
  Calm P F C w -> Holds (Calm P F C) (modAmbient f w).
Proof. intros. apply holds_done. now destruct w. Qed.

Lemma calm_emit P F C e w :
  fallbacks [e] = [] -> constructed [e] = [] ->
  Calm P F C w -> Holds (Calm P F C) (emit e w).
Proof.
  intros Hf Hc [H1 [H2 H3]]. apply holds_done. destruct w as [p g t].
  unfold Calm in *. cbn [self trace] in *. split; [assumption|]. split.
  - now rewrite fallbacks_app, Hf, app_nil_r.
  - now rewrite constructed_app, Hc, app_nil_r.
Qed.

Ltac calm_step :=
  match goal with
  | |- Holds _ (bind _ _ _) => apply holds_bind; [| intros]
  | |- Holds _ (await _ _) => apply holds_await; [apply calm_stable |]
  | |- Holds _ (when _ _ _) => apply holds_when; [assumption | intros]
  | |- Holds _ (ret _ _) => apply holds_done; assumption
  | |- Holds _ (throw _ _) => apply holds_done; assumption
  | |- Holds _ (outOfFuel _) => apply holds_done; assumption
  | |- Holds _ (getAmbient _) => apply holds_done; assumption
  | |- Holds _ (getHost _) => apply holds_done; assumption
  | |- Holds _ (getSelf _) => apply holds_done; assumption
  | |- Holds _ (suspend _ _) =>
      apply holds_suspend; [apply calm_stable | assumption]
  | |- Holds _ (_wait _ _) =>
      apply holds_suspend; [apply calm_stable | assumption]
  | |- Holds _ (modAmbient _ _) => apply calm_modAmbient; assumption
  | |- Holds _ (emit _ _) =>
      apply calm_emit; [reflexivity | reflexivity | assumption]
  | |- Holds _ ((if ?c then _ else _) _) => destruct c
  | |- Holds _ ((match ?x with _ => _ end) _) => destruct x
  end.

Lemma theModule_calm P F C w :
  Calm P F C w -> Holds (Calm P F C) (theModule w).
Proof. intros. unfold theModule. repeat calm_step. Qed.

Lemma module_init_calm P F C w :
  Calm P F C w -> Holds (Calm P F C) (module_init w).
Proof.
  intros. unfold module_init.
  repeat first [calm_step | apply theModule_calm; assumption].
Qed.

Lemma waitForModule_calm P F C fuel w :
  Calm P F C w -> Holds (Calm P F C) (waitForModule fuel w).
Proof.
  revert w. induction fuel as [|fuel IH]; intros w H; simpl.
  - calm_step.
  - repeat calm_step. now apply IH.
Qed.

Lemma waitWhileRequested_calm P F C fuel w :
  Calm P F C w -> Holds (Calm P F C) (waitWhileRequested fuel w).
Proof.
  revert w. induction fuel as [|fuel IH]; intros w H; simpl.
  - calm_step.
  - repeat calm_step. now apply IH.
Qed.

Lemma initLoop_calm P F C fuel w :
  Calm P F C w -> Holds (Calm P F C) (initLoop fuel w).
Proof.
  revert w. induction fuel as [|fuel IH]; intros w H; simpl.
  - calm_step.
  - repeat first [calm_step | apply module_init_calm; assumption
                 | apply IH; assumption].
Qed.

Lemma initModule_calm P F C fuel engine w :
  Calm P F C w -> Holds (Calm P F C) (_initModule fuel engine w).
Proof.
  intros. unfold _initModule.
  repeat first [calm_step | apply waitWhileRequested_calm; assumption
               | apply initLoop_calm; assumption].
Qed.

Lemma notFailed_calm P F C w :
  Calm P F C w -> Holds (Calm P F C) (notFailed w).
Proof. intros. unfold notFailed. repeat calm_step. Qed.

(** The fallback chain answers a lower tier or gives up; it dispatches and
    constructs nothing. *)
Lemma fallbackChain_calm P F C fuel engine success w :
  Calm P F C w ->
  Runs (fun o w' =>
          Calm P F C w'
          /\ match o with
             | Returned r => chainResult engine success r
             | _ => True
             end)
    (fallbackChain fuel engine success w).
Proof.
  intros H. unfold fallbackChain.
  assert (Hstep : forall {A B} (c : M A) (f : A -> M B) w
                         (Q : Outcome B -> World -> Prop),
             Calm P F C w ->
             (forall w, Calm P F C w -> Holds (Calm P F C) (c w)) ->
             (forall a w', Calm P F C w' -> Runs Q (f a w')) ->
             (forall e w', Calm P F C w' -> Q (Thrown e) w') ->
             (forall w', Calm P F C w' -> Q OutOfFuel w') ->
             Runs Q (bind c f w)).
  { intros A B c f w0 Q H0 Hc Hf Ht Ho. unfold bind.
    eapply runs_andThen; [apply Hc; exact H0 | | |]; cbv beta; auto. }
  assert (Hawait : forall engine w,
             Calm P F C w -> Holds (Calm P F C) (await (_initModule fuel engine) w)).
  { intros. apply holds_await; [apply calm_stable|]. now apply initModule_calm. }
  destruct success; simpl.
  - constructor. split; [assumption | reflexivity].
  - destruct engine; simpl.
    + constructor. split; [assumption | reflexivity].
    + (* WG *)
      apply Hstep; auto; [intros; now apply calm_emit|]. intros _ w1 H1.
      apply Hstep; auto; [intros; now apply calm_modAmbient|]. intros _ w2 H2.
      apply Hstep; auto. intros _ w3 H3.
      apply Hstep; auto; [intros; now apply notFailed_calm|]. intros b w4 H4.
      destruct b; simpl.
      * constructor. split; [assumption | simpl; auto].
      * apply Hstep; auto; [intros; now apply calm_emit|]. intros _ w5 H5.
        apply Hstep; auto; [intros; now apply calm_modAmbient|]. intros _ w6 H6.
        apply Hstep; auto. intros _ w7 H7.
        apply Hstep; auto; [intros; now apply notFailed_calm|]. intros b w8 H8.
        constructor. split; [assumption|]. destruct b; simpl; auto.
    + (* GL *)
      apply Hstep; auto; [intros; now apply calm_emit|]. intros _ w1 H1.
      apply Hstep; auto; [intros; now apply calm_modAmbient|]. intros _ w2 H2.
      apply Hstep; auto. intros _ w3 H3.
      apply Hstep; auto; [intros; now apply notFailed_calm|]. intros b w4 H4.
      constructor. split; [assumption|]. destruct b; simpl; auto.
Qed.

(** A [load] called from [_init] does nothing before its first suspension:
    the [_init] it awaits finds the timer cleared. *)
Lemma spawn_load_inert n src ft w :
  _timer (self w) = false ->
  exists pr w',
    spawn (load (_init n) src ft) w = Done (Returned pr) w'
    /\ self w' = self w /\ trace w' = trace w.
Proof.
  intros Ht. destruct w as [p g t].
  destruct p as [? ? ? ? ? ? ? ? ? ? ? ? ? ? ? ? ? ? ? tm ? ?].
  simpl in Ht. subst.
  destruct g as [ck h md mr st rs].
  unfold spawn, load, tryCatch, await, bind.
  destruct n as [|n]; [do 2 eexists; cbn; repeat split; reflexivity|].
  cbn.
  destruct mr; cbn.
  - destruct n as [|n]; cbn; [do 2 eexists; repeat split; reflexivity|].
    destruct md; cbn; do 2 eexists; repeat split; reflexivity.
  - destruct md; cbn; do 2 eexists; repeat split; reflexivity.
Qed.


Lemma calm_then {A B} P F C (c : M A) (f : A -> M B) w
    (Q : Outcome B -> World -> Prop) :
  Holds (Calm P F C) (c w) ->
  (forall a w', Calm P F C w' -> Runs Q (f a w')) ->
  (forall e w', Q (Thrown e) w') ->
  (forall w', Q OutOfFuel w') ->
  Runs Q (bind c f w).
Proof.
  intros Hc Hf Ht Ho. unfold bind.
  eapply runs_andThen; [exact Hc | | |]; cbv beta; auto.
Qed.

(** How [_init] ends when it returns: either it has constructed nothing and
    dispatched no fallback event, or it has constructed one engine, which is
    the active renderer; that engine is the requested one and no fallback
    event was dispatched, or it is a lower tier and exactly one fallback event
    was dispatched, with the requested and the active renderer. *)
Lemma init_outcome fuel w :
  Runs (fun o w' =>
          o = Returned tt ->
          let req := requestedRenderer (self w) in
          (fallbacks (trace w') = fallbacks (trace w)
           /\ constructed (trace w') = constructed (trace w)
           /\ _actualRenderer (self w') = _actualRenderer (self w))
          \/ exists act,
               constructed (trace w') = constructed (trace w) ++ [act]
               /\ _actualRenderer (self w') = Some act
               /\ ((act = req
                    /\ fallbacks (trace w') = fallbacks (trace w))
                   \/ (lowerTier req act
                       /\ fallbacks (trace w') =
                          fallbacks (trace w)
                            ++ [FallbackDetail req act (fallbackMessage req act)])))
    (_init fuel w).
Proof.
  Opaque waitForModule _initModule fallbackChain spawn notFailed fallbackMessage.
  destruct fuel as [|fuel]; [constructor; discriminate|].
  set (P := self w). set (F := fallbacks (trace w)).
  set (C := constructed (trace w)).
  assert (H0 : Calm P F C w) by (repeat split).
  cbn [_init].
  (* the module *)
  apply (calm_then P F C); try discriminate; [calm_step|]. intros g w1 H1.
  apply (calm_then P F C); try discriminate.
  { calm_step. now apply waitForModule_calm. }
  intros _ w2 H2.
  apply (calm_then P F C); try discriminate; [calm_step|]. intros g2 w3 H3.
  apply (calm_then P F C); try discriminate; [repeat calm_step|].
  intros _ w4 H4.
  (* the timer *)
  unfold bind at 1. unfold getSelf. cbn [andThen].
  destruct H4 as [Hp [HF HC]]. rewrite Hp.
  destruct (_timer P) eqn:Htimer; cbn [negb].
  2:{ constructor. intros _. cbv zeta. left. rewrite Hp. auto. }
  unfold bind at 1. unfold emit at 1. cbn [andThen].
  unfold bind at 1. unfold modSelf at 1. cbn [andThen self ambient trace].
  rewrite Hp.
  set (P1 := set__timer false P).
  assert (Ht1 : _timer P1 = false) by (subst P1; now destruct P).
  assert (Hr1 : requestedRenderer P1 = requestedRenderer P)
    by (subst P1; now destruct P).
  assert (Ha1 : _actualRenderer P1 = _actualRenderer P)
    by (subst P1; now destruct P).
  match goal with
  | |- Runs _ (bind _ _ ?w0) =>
      assert (H5 : Calm P1 F C w0)
  end.
  { repeat split; cbn [self trace].
    - now rewrite fallbacks_app, app_nil_r.
    - now rewrite constructed_app, app_nil_r. }
  (* the first bring-up and the chain *)
  apply (calm_then P1 F C); try discriminate.
  { apply holds_await; [apply calm_stable|]. now apply initModule_calm. }
  intros _ w6 H6.
  apply (calm_then P1 F C); try discriminate; [now apply notFailed_calm|].
  intros b w7 H7.
  unfold bind at 1.
  eapply runs_andThen;
    [apply (fallbackChain_calm P1 F C); exact H7 | | discriminate | discriminate].
  cbv beta. intros [engine success] w8 [H8 Hres].
  destruct H8 as [Hp8 [HF8 HC8]].
  destruct w8 as [p8 g8 t8]. cbn [self trace] in Hp8, HF8, HC8. subst p8.
  Transparent spawn.
  destruct success; cbn [negb].
  2:{ (* every tier failed *)
    cbn. constructor. intros _. cbv zeta. left. cbn.
    rewrite fallbacks_app, constructed_app, HF8, HC8. cbn.
    rewrite !app_nil_r. repeat split. }
  assert (Hact :
    (engine = requestedRenderer P /\ Renderer_eqb engine (requestedRenderer P) = true)
    \/ (lowerTier (requestedRenderer P) engine
        /\ Renderer_eqb engine (requestedRenderer P) = false)).
  { unfold chainResult in Hres. destruct b.
    - injection Hres as ->. left. split; [reflexivity|].
      now destruct (requestedRenderer P).
    - right. remember (requestedRenderer P) as req eqn:Hreq. clear Hreq.
      destruct req;
        repeat match goal with
          | H : _ \/ _ |- _ => destruct H
          | H : (_, _) = (_, _) |- _ => inversion H; clear H; subst
          end; try discriminate; split; simpl; auto. }
  unfold bind at 1.
  assert (Hwhen : exists t9,
    when (negb (Renderer_eqb engine (requestedRenderer P)))
      (dispatchEvent PlayerEvent.RendererFallback
         (FallbackDetail (requestedRenderer P) engine
            (fallbackMessage (requestedRenderer P) engine)))
      (mkWorld P1 g8 t8) = Done (Returned tt) (mkWorld P1 g8 t9)
    /\ constructed t9 = C
    /\ ((engine = requestedRenderer P /\ fallbacks t9 = F)
        \/ (lowerTier (requestedRenderer P) engine
            /\ fallbacks t9 =
               F ++ [FallbackDetail (requestedRenderer P) engine
                       (fallbackMessage (requestedRenderer P) engine)]))).
  { destruct Hact as [[He Hb] | [Hl Hb]]; rewrite Hb; cbn.
    - eexists. split; [reflexivity|]. split; [assumption|]. left. auto.
    - eexists. split; [reflexivity|]. cbn [trace].
      rewrite constructed_app, fallbacks_app, HF8, HC8.
      split; [apply app_nil_r|]. right. auto. }
  destruct Hwhen as [t9 [-> [HC9 HF9]]]. cbn [andThen].
  Opaque spawn hasSrc canvasId String.append.
  cbn.
  destruct (_module g8) as [m|]; [|constructor; discriminate].
  cbn.
  destruct (TvgLottieAnimation m engine (Some ("#" ++ canvasId P1))%string)
    as [tvg|]; [|constructor; discriminate].
  cbn.
  assert (Hfinal : forall t10 p10,
    constructed t10 = C ++ [engine] ->
    fallbacks t10 = fallbacks t9 ->
    _actualRenderer p10 = Some engine ->
    (fallbacks t10 = F
     /\ constructed t10 = C
     /\ _actualRenderer p10 = _actualRenderer P)
    \/ exists act,
         constructed t10 = C ++ [act]
         /\ _actualRenderer p10 = Some act
         /\ ((act = requestedRenderer P /\ fallbacks t10 = F)
             \/ (lowerTier (requestedRenderer P) act
                 /\ fallbacks t10 =
                    F ++ [FallbackDetail (requestedRenderer P) act
                            (fallbackMessage (requestedRenderer P) act)]))).
  { intros t10 p10 Hc10 Hf10 Hp10. right. exists engine.
    split; [exact Hc10|]. split; [exact Hp10|]. rewrite Hf10. exact HF9. }
  destruct (hasSrc P1) as [s|]; cbn.
  - unfold bind at 1.
    match goal with
    | |- context [spawn (load (_init ?n) ?src ?ft) ?w0] =>
        destruct (spawn_load_inert n src ft w0)
          as [pr [w' [E [Hs' Ht']]]]; [now destruct P|]
    end.
    rewrite E. cbn [andThen ret]. constructor. intros _.
    rewrite Hs', Ht'. cbn [self trace]. apply Hfinal.
    + rewrite !constructed_app, HC9. cbn. now rewrite app_nil_r.
    + rewrite !fallbacks_app. cbn. now rewrite !app_nil_r.
    + reflexivity.
  - constructor. intros _. cbn [self trace]. apply Hfinal.
    + rewrite !constructed_app, HC9. reflexivity.
    + rewrite !fallbacks_app. cbn. now rewrite !app_nil_r.
    + reflexivity.
  Transparent spawn hasSrc canvasId String.append.
  Transparent waitForModule _initModule fallbackChain notFailed fallbackMessage.
Qed.

(** *** The sequential case: nothing interferes *)

Lemma drive_nil_andThen {W A B} (r : Run W A) (f : A -> Async W B) :
  drive [] (andThen r f) =
    match drive [] r with
    | (Returned a, w) => drive [] (f a w)
    | (Thrown e, w) => (Thrown e, w)
    | (OutOfFuel, w) => (OutOfFuel, w)
    end.
Proof.
  induction r as [o w | s w k IH]; simpl.
  - destruct o; reflexivity.
  - apply IH.
Qed.

Lemma fallbacks_ModuleInit n : fallbacks (repeat ModuleInit n) = [].
Proof. induction n; simpl; auto. Qed.

Lemma constructed_ModuleInit n : constructed (repeat ModuleInit n) = [].
Proof. induction n; simpl; auto. Qed.

(** The engine answers anything but 0 and 1 for a while, then 1: the loop ends
    with the status FAILED. *)
Lemma initLoop_refused pre : forall fuel w m rest,
  _module (ambient w) = Some m ->
  initResults (ambient w) = pre ++ 1%Z :: rest ->
  Forall (fun r => r <> 0 /\ r <> 1)%Z pre ->
  (List.length pre < fuel)%nat ->
  drive [] (initLoop fuel w) =
    (Returned tt,
     mkWorld (self w)
       (set__initStatus FAILED (set_initResults rest (ambient w)))
       (trace w ++ repeat ModuleInit (S (List.length pre)))).
Proof.
  induction pre as [|r pre IH]; intros fuel w m rest Hm Hr Hp Hf;
    (destruct fuel as [|fuel]; [inversion Hf|]);
    destruct w as [p g t]; destruct g as [ck h md mr st rs];
    simpl in Hm, Hr; subst.
  - reflexivity.
  - inversion Hp as [|? ? [Hr0 Hr1] Hp']; subst.
    simpl in Hf. apply PeanoNat.lt_S_n in Hf.
    cbn [initLoop]. unfold bind at 1. cbn -[initLoop Z.eqb].
    replace (r =? 0)%Z with false by (symmetry; now apply Z.eqb_neq).
    replace (r =? 1)%Z with false by (symmetry; now apply Z.eqb_neq).
    destruct (r =? 2)%Z; cbn -[initLoop];
      rewrite (IH fuel _ m rest);
      [cbn; rewrite <- app_assoc; reflexivity
      | reflexivity | reflexivity | assumption | assumption
      | cbn; rewrite <- app_assoc; reflexivity
      | reflexivity | reflexivity | assumption | assumption].
Qed.

(** WebGPU is requested and the engine refuses it: [_init] goes on with
    WebGL and says so once. *)
Lemma init_webgpu_refused fuel w m tvg pre rest :
  _timer (self w) = true ->
  _module (ambient w) = Some m ->
  requestedRenderer (self w) = WG ->
  _initStatus (ambient w) <> REQUESTED ->
  _initStatus (ambient w) <> INITIALIZED ->
  initResults (ambient w) = pre ++ 1%Z :: rest ->
  Forall (fun r => r <> 0 /\ r <> 1)%Z pre ->
  (List.length pre < fuel)%nat ->
  TvgLottieAnimation m GL (Some ("#" ++ canvasId (self w))%string) = Some tvg ->
  exists w',
    drive [] (_init (S fuel) w) = (Returned tt, w')
    /\ _actualRenderer (self w') = Some GL
    /\ _TVG (self w') = Some tvg
    /\ constructed (trace w') = constructed (trace w) ++ [GL]
    /\ fallbacks (trace w') =
       fallbacks (trace w) ++ [FallbackDetail WG GL (fallbackMessage WG GL)].
Proof.
  Opaque initLoop spawn fallbackMessage String.append hasSrc.
  intros Ht Hm Hreq Hs1 Hs2 Hr Hp Hf Htvg.
  cbn [_init].
  destruct fuel as [|fuel]; [inversion Hf|].
  destruct w as [p g t].
  destruct p as [sr ft rc ? ? ? ? ? ? ? ? ? ? ? cid ? ? ? ? tm ? ?].
  destruct g as [ck h md mr st rs].
  cbn [self ambient trace _timer _module _initStatus initResults canvasId]
    in *.
  subst tm md rs.
  assert (Hrc : exists d, rc = Some {| enableDevicePixelRatio := d;
                                       renderer := Some WG |}).
  { unfold requestedRenderer, configuredRenderer in Hreq. cbn in Hreq.
    destruct rc as [[d [r|]]|]; cbn in Hreq; try discriminate.
    subst. eauto. }
  destruct Hrc as [d ->].
  assert (Hst : InitStatus_eqb st REQUESTED = false
                /\ InitStatus_eqb st INITIALIZED = false).
  { destruct st; split; try reflexivity; congruence. }
  destruct Hst as [Hst1 Hst2].
  destruct mr; cbn -[_init]; rewrite Hst1; cbn -[_init]; rewrite Hst2;
    cbn -[_init].
  all: rewrite !drive_nil_andThen.
  all: erewrite initLoop_refused;
    [| reflexivity | reflexivity | eassumption | assumption].
  all: cbn -[_init]; rewrite Htvg; cbn -[_init].
  all: match goal with
       | |- context [hasSrc ?p] => destruct (hasSrc p) as [s|]
       end; cbn -[_init].
  all: try (unfold bind at 1;
            match goal with
            | |- context [spawn (load (_init ?n) ?src ?ft) ?w0] =>
                destruct (spawn_load_inert n src ft w0)
                  as [pr [w' [E [Hs' Ht']]]]; [reflexivity|];
                rewrite E; cbn -[_init];
                exists w'; rewrite Hs', Ht'
            end).
  all: try (eexists; split; [reflexivity|]).
  all: cbn [self trace _actualRenderer _TVG set__actualRenderer set__TVG
              set__timer].
  all: repeat split; try reflexivity.
  all: change (ModuleInit :: repeat ModuleInit (List.length pre))
         with (repeat ModuleInit (S (List.length pre)));
       rewrite ?constructed_app, ?fallbacks_app, ?constructed_ModuleInit,
         ?fallbacks_ModuleInit; cbn; rewrite ?app_nil_r; reflexivity.
  Transparent initLoop spawn fallbackMessage String.append hasSrc.
Qed.

(** WebGL is requested and the status is FAILED when [_init] reads it, left
    so by a bring-up of WebGPU: [_init] goes on with the software renderer and
    says so once. *)
Lemma init_webgl_failed fuel w m tvg :
  (0 < fuel)%nat ->
  _timer (self w) = true ->
  _module (ambient w) = Some m ->
  requestedRenderer (self w) = GL ->
  _initStatus (ambient w) = FAILED ->
  TvgLottieAnimation m SW (Some ("#" ++ canvasId (self w))%string) = Some tvg ->
  exists w',
    drive [] (_init (S fuel) w) = (Returned tt, w')
    /\ _actualRenderer (self w') = Some SW
    /\ _TVG (self w') = Some tvg
    /\ constructed (trace w') = constructed (trace w) ++ [SW]
    /\ fallbacks (trace w') =
       fallbacks (trace w) ++ [FallbackDetail GL SW (fallbackMessage GL SW)].
Proof.
  Opaque spawn fallbackMessage String.append hasSrc.
  intros Hf Ht Hm Hreq Hs Htvg.
  cbn [_init].
  destruct fuel as [|fuel]; [inversion Hf|].
  destruct w as [p g t].
  destruct p as [sr ft rc ? ? ? ? ? ? ? ? ? ? ? cid ? ? ? ? tm ? ?].
  destruct g as [ck h md mr st rs].
  cbn [self ambient trace _timer _module _initStatus initResults canvasId]
    in *.
  subst tm md st.
  assert (Hrc : exists d, rc = Some {| enableDevicePixelRatio := d;
                                       renderer := Some GL |}).
  { unfold requestedRenderer, configuredRenderer in Hreq. cbn in Hreq.
    destruct rc as [[d [r|]]|]; cbn in Hreq; try discriminate.
    subst. eauto. }
  destruct Hrc as [d ->].
  destruct mr; cbn -[_init]; rewrite Htvg; cbn -[_init].
  all: match goal with
       | |- context [hasSrc ?p] => destruct (hasSrc p) as [s|]
       end; cbn -[_init].
  all: try (unfold bind at 1;
            match goal with
            | |- context [spawn (load (_init ?n) ?src ?ft) ?w0] =>
                destruct (spawn_load_inert n src ft w0)
                  as [pr [w' [E [Hs' Ht']]]]; [reflexivity|];
                rewrite E; cbn -[_init];
                exists w'; rewrite Hs', Ht'
            end).
  all: try (eexists; split; [reflexivity|]).
  all: cbn [self trace _actualRenderer _TVG set__actualRenderer set__TVG
              set__timer].
  all: repeat split; try reflexivity.
  all: rewrite ?constructed_app, ?fallbacks_app; cbn; rewrite ?app_nil_r;
       reflexivity.
  Transparent spawn fallbackMessage String.append hasSrc.
Qed.

(** C1 (the code against the claim).  The branch of [_init] that is to fall
    back from WebGL to the software renderer is taken when [_initStatus] is
    FAILED, and nothing in the bring-up of WebGL sets it so: [_initModule]
    returns at once for WebGL, and the construction of the engine is not
    guarded.  So when WebGL is requested and the WebGL engine cannot be
    constructed, [_init] throws: the software renderer is not tried, no
    [rendererFallback] (and no other) event is dispatched, no engine is
    there, and the timer that would have called [_init] again is cleared.
    This holds while the rest of the page leaves the module alone and does
    not set the status to FAILED. *)
Theorem init_webgl_failure_is_not_caught fuel w m sched :
  (2 <= fuel)%nat ->
  _timer (self w) = true ->
  _module (ambient w) = Some m ->
  requestedRenderer (self w) = GL ->
  _initStatus (ambient w) <> FAILED ->
  TvgLottieAnimation m GL (Some ("#" ++ canvasId (self w))%string) = None ->
  Forall (fun e => forall g,
            _module (e g) = _module g
            /\ (_initStatus g <> FAILED -> _initStatus (e g) <> FAILED))
    sched ->
  let r := drive (map interfere sched) (_init fuel w) in
  (exists e, fst r = Thrown e)
  /\ _TVG (self (snd r)) = _TVG (self w)
  /\ _actualRenderer (self (snd r)) = _actualRenderer (self w)
  /\ currentState (self (snd r)) = currentState (self w)
  /\ _timer (self (snd r)) = false
  /\ constructed (trace (snd r)) = constructed (trace w) ++ [GL]
  /\ dispatched (trace (snd r)) = dispatched (trace w).
Proof.
  Opaque String.append.
  intros Hf Ht Hm Hreq Hs Htvg Hsched r. subst r.
  destruct fuel as [|[|fuel]]; try lia.
  destruct w as [p g t].
  destruct p as [sr ft rc ? ? ? ? ? ? ? ? ? ? ? cid ? ? ? ? tm ? ?].
  destruct g as [ck h md mr st rs].
  cbn [self ambient trace _timer _module _initStatus initResults canvasId
       _TVG _actualRenderer currentState] in *.
  subst tm md.
  assert (Hrc : exists d, rc = Some {| enableDevicePixelRatio := d;
                                       renderer := Some GL |}).
  { unfold requestedRenderer, configuredRenderer in Hreq. cbn in Hreq.
    destruct rc as [[d [r|]]|]; cbn in Hreq; try discriminate.
    subst. eauto. }
  destruct Hrc as [d ->].
  assert (Hst : InitStatus_eqb st FAILED = false)
    by (destruct st; try reflexivity; now elim Hs).
  destruct sched as [|e sched].
  - destruct mr; cbn; rewrite Hst; cbn; rewrite Htvg; cbn;
      rewrite ?constructed_app, ?dispatched_app; cbn;
      repeat split; rewrite ?constructed_app, ?dispatched_app; cbn;
      rewrite ?app_nil_r; eauto.
  - inversion Hsched as [|? ? He _]; subst.
    destruct mr;
      match goal with
      | |- context [mkAmbient ?a ?b ?c ?d ?f ?i] =>
          set (g := mkAmbient a b c d f i) in *
      end;
      destruct (He g) as [Em Es];
      assert (Hst' : InitStatus_eqb (_initStatus (e g)) FAILED = false)
        by (destruct (_initStatus (e g)) eqn:E; try reflexivity;
            exfalso; apply Es; [exact Hs | reflexivity]);
      cbn; fold g; rewrite Hst'; cbn; fold g; rewrite Em; cbn;
      rewrite Htvg; cbn;
      repeat split; rewrite ?constructed_app, ?dispatched_app; cbn;
      rewrite ?app_nil_r; eauto.
  Transparent String.append.
Qed.

End InitFacts.

(** ** The worker *)

Section WorkerFacts.
Import LottieWorker.
#[local] Opaque Qplus Qminus Qmult Qdiv Qinv Qopp Qle_bool Qeq_bool Qabs.

Section Invariant.
Variable ok : WorkerResponse -> bool.
Variable base : list WorkerResponse.
Hypothesis ok_FRAME : forall i n b, ok (FRAME i n b) = true.
Hypothesis ok_ERROR : forall m, ok (ERROR m) = true.

#[local] Abbreviation Sound := (Tame ok base).

Lemma sound_same w w' :
  calls w' = calls w -> posted w' = posted w -> Sound w -> Sound w'.
Proof.
  intros Hc Hp [H1 H2]. split; [rewrite Hc | rewrite Hp]; assumption.
Qed.

Lemma sound_post r w :
  ok r = true -> Sound w -> Sound (set_posted (posted w ++ [r]) w).
Proof.
  intros Hr [H1 [rs [H2 H3]]]. destruct w; split; simpl in *; [assumption|].
  exists (rs ++ [r]). rewrite H2, <- app_assoc. split; [reflexivity|].
  rewrite forallb_app, H3. simpl. now rewrite Hr.
Qed.

Lemma sound_call e w :
  Forall (eq SW) (constructed [e]) ->
  Sound w -> Sound (set_calls (calls w ++ [e]) w).
Proof.
  intros He [H1 H2]. destruct w; split; simpl in *; [|assumption].
  rewrite constructed_app. apply Forall_app. split; assumption.
Qed.

Lemma keeps_get (I : Worker -> Prop) w : I w -> Keeps I (get w).
Proof. apply keeps_done. Qed.

Lemma keeps_modify (I : Worker -> Prop) f w : I (f w) -> Keeps I (modify f w).
Proof. apply keeps_done. Qed.

Lemma keeps_postMessage r w :
  ok r = true -> Sound w -> Keeps Sound (postMessage r w).
Proof. intros. apply keeps_modify. now apply sound_post. Qed.

Lemma keeps_emit e w :
  Forall (eq SW) (constructed [e]) -> Sound w -> Keeps Sound (emit e w).
Proof. intros. apply keeps_modify. now apply sound_call. Qed.

Lemma keeps_putImageData i w : Sound w -> Keeps Sound (putImageData i w).
Proof.
  intros. apply keeps_modify.
  apply (sound_same w); [destruct w; reflexivity .. | assumption].
Qed.

Ltac sound_step :=
  match goal with
  | |- Keeps _ (bind _ _ _) => apply keeps_bind; [| intros]
  | |- Keeps _ (tryCatch _ _ _) => apply keeps_tryCatch; [| intros]
  | |- Keeps _ (await _ _) => apply keeps_await
  | |- Keeps _ (when _ _ _) => apply keeps_when; [assumption | intros]
  | |- Keeps _ (ret _ _) => apply keeps_ret; assumption
  | |- Keeps _ (throw _ _) => apply keeps_throw; assumption
  | |- Keeps _ (outOfFuel _) => apply keeps_outOfFuel; assumption
  | |- Keeps _ (suspend _ _) => apply keeps_suspend; assumption
  | |- Keeps _ (get _) => apply keeps_get; assumption
  | |- Keeps _ (postMessage _ _) =>
      apply keeps_postMessage; [solve [auto] | assumption]
  | |- Keeps _ (emit _ _) =>
      apply keeps_emit; [repeat constructor | assumption]
  | |- Keeps _ (putImageData _ _) => apply keeps_putImageData; assumption
  | |- Keeps _ (modify _ ?w) =>
      apply keeps_modify;
      apply (sound_same w); [destruct w; reflexivity .. | assumption]
  | |- Keeps _ ((if ?c then _ else _) _) => destruct c
  | |- Keeps _ ((match ?x with _ => _ end) _) => destruct x
  end.

Lemma newImageData_sound buffer width height w :
  Sound w -> Keeps Sound (newImageData buffer width height w).
Proof. intros. unfold newImageData. repeat sound_step. Qed.

Lemma renderFrame_sound n w : Sound w -> Keeps Sound (renderFrame n w).
Proof.
  intros. unfold renderFrame, renderInto.
  repeat first [sound_step | apply newImageData_sound; assumption].
Qed.

Lemma intervalCallback_sound w : Sound w -> Keeps Sound (intervalCallback w).
Proof.
  intros. unfold intervalCallback.
  repeat first [sound_step | apply renderFrame_sound; assumption].
Qed.

(** The other entry points also post [READY] and [LOADED]. *)
Hypothesis ok_READY : ok READY = true.
Hypothesis ok_LOADED : forall n size, ok (LOADED n size) = true.

Lemma initModule_sound engine w : Sound w -> Keeps Sound (_initModule engine w).
Proof. intros. unfold _initModule. repeat sound_step. Qed.

Lemma waitForModule_sound fuel w : Sound w -> Keeps Sound (waitForModule fuel w).
Proof.
  revert w. induction fuel as [|fuel IH]; intros w H; simpl.
  - sound_step.
  - repeat sound_step. now apply IH.
Qed.

Lemma initializeWorker_sound fuel wasmUrl rc u oc w :
  Sound w -> Keeps Sound (initializeWorker fuel wasmUrl rc u oc w).
Proof.
  intros. unfold initializeWorker.
  repeat first [sound_step | apply waitForModule_sound; assumption
               | apply initModule_sound; assumption].
Qed.

Lemma loadLottieData_sound src ft w :
  Sound w -> Keeps Sound (loadLottieData src ft w).
Proof. intros. unfold loadLottieData. repeat sound_step. Qed.

Lemma onmessage_sound fuel m w : Sound w -> Keeps Sound (onmessage fuel m w).
Proof.
  intros. unfold onmessage, startWorkerAnimationLoop, stopWorkerAnimationLoop.
  destruct m;
    repeat first [sound_step | apply renderFrame_sound; assumption
                 | apply initializeWorker_sound; assumption
                 | apply loadLottieData_sound; assumption].
Qed.

Lemma turn_sound fuel i w : Sound w -> Sound (turn fuel i w).
Proof.
  intros H. destruct i as [m | | t]; simpl.
  - apply (keeps_drive Sound (onmessage fuel m w) []); [|constructor].
    now apply onmessage_sound.
  - destruct (_animationFrame w); [|assumption].
    apply (keeps_drive Sound (intervalCallback w) []); [|constructor].
    now apply intervalCallback_sound.
  - apply (sound_same w); [destruct w; reflexivity .. | assumption].
Qed.

Lemma turns_sound fuel inputs w : Sound w -> Sound (turns fuel inputs w).
Proof.
  revert w. unfold turns.
  induction inputs as [|i inputs IH]; intros w H; simpl; [assumption|].
  apply IH. now apply turn_sound.
Qed.

End Invariant.

Lemma fresh_tame ok h t : Tame ok [] (fresh h t).
Proof. split; [constructor | exists []; split; reflexivity]. Qed.

Lemma tame_start ok w :
  Forall (eq SW) (constructed (calls w)) -> Tame ok (posted w) w.
Proof.
  intros H. split; [assumption|]. exists []. now rewrite app_nil_r.
Qed.

Lemma turn_IntervalFires w :
  _animationFrame w = true ->
  forall fuel, turn fuel IntervalFires w = snd (drive [] (intervalCallback w)).
Proof. intros H fuel. simpl. now rewrite H. Qed.

(** C9. Whatever an INIT command asks for in [renderConfig], the worker
    constructs its engine with the software renderer: [initializeWorker] does
    not read the configuration, an INIT on a worker whose module is there (or
    loads) constructs [TvgLottieAnimation(SW, '')] and posts READY, and over
    any run of the worker no other kind of engine is ever constructed. *)
Theorem worker_engine_is_software :
  (forall fuel inputs h t,
      Forall (eq SW) (constructed (calls (turns fuel inputs (fresh h t)))))
  /\ (forall fuel wasmUrl rc rc' u oc,
        initializeWorker fuel wasmUrl rc u oc
        = initializeWorker fuel wasmUrl rc' u oc)
  /\ (forall fuel wasmUrl rc u oc w m tvg,
        (_module w = Some m
         \/ (_module w = None /\ _moduleRequested w = false
             /\ loadModule (whost w) = Some m)) ->
        _initStatus w <> FAILED ->
        TvgLottieAnimation m SW (Some "") = Some tvg ->
        let w' := turn fuel (Message (INIT wasmUrl rc u oc)) w in
        _TVG w' = Some tvg
        /\ _isInitialized w' = true
        /\ calls w' = calls w ++ [Construct SW (Some "")]
        /\ posted w' = posted w ++ [READY]).
Proof.
  split; [|split].
  - intros fuel inputs h t.
    apply (turns_sound (fun _ => true) []); auto. apply fresh_tame.
  - reflexivity.
  - intros fuel wasmUrl rc u oc w m tvg Hm Hs Ht. cbv zeta.
    destruct w as [md mr tv ini ci pl st sp tf du af uo oc' ox ist nw wh po dr ca].
    simpl in Hm, Hs.
    assert (Hst : InitStatus_eqb ist FAILED = false)
      by (destruct ist; try reflexivity; now elim Hs).
    destruct Hm as [Hm | [Hm [Hr Hl]]]; subst.
    + unfold turn, onmessage, initializeWorker. cbn.
      destruct u as [[]|]; destruct oc as [c|]; cbn; rewrite ?andb_false_r; cbn;
        rewrite Hst; cbn; rewrite Ht; cbn; repeat split; reflexivity.
    + unfold turn, onmessage, initializeWorker. cbn.
      destruct u as [[]|]; destruct oc as [c|]; cbn; rewrite Hl; cbn;
        rewrite Hst; cbn; rewrite Ht; cbn; repeat split; reflexivity.
Qed.

(** The player-side handler reaches Stopped through LOADED and COMPLETE
    only. *)
Lemma handleWorkerMessage_stopped r p :
  LottieWorkerPlayer.currentState (LottieWorkerPlayer._handleWorkerMessage r p)
  = PlayerState.Stopped ->
  LottieWorkerPlayer.currentState p = PlayerState.Stopped
  \/ r = COMPLETE
  \/ exists n size, r = LOADED n size.
Proof.
  destruct r as [| n size | i n b | m |]; eauto.
  - (* READY *) destruct p as [s ? ? ? ? ? ? ? ? ? ? ? ? wk].
    unfold LottieWorkerPlayer._handleWorkerMessage,
      LottieWorkerPlayer._updateCanvasInfo, LottieWorkerPlayer._sendToWorker,
      LottieWorkerPlayer.hasSrc, LottieWorkerPlayer.load.
    destruct wk, s as [[|]|]; cbn; auto; discriminate.
  - (* FRAME *) destruct p as [? ? ? ? ? ? ? ? ? ? ? ? ? ? cx ? ? ? so].
    destruct so, i, cx; cbn; auto.
  - (* ERROR *) destruct p; cbn; discriminate.
Qed.

(** C10. When the frame computed by the worker's timer callback reaches
    [_totalFrames], the callback takes the remainder modulo [_totalFrames],
    resets the start time to the present and renders; the loop stays armed
    and playing.  Nothing the worker is ever given makes it post COMPLETE, a
    tick posts FRAME and ERROR responses only, and the player's handler
    reaches Stopped through LOADED and COMPLETE only; [play()] sends a bare
    PLAY, whatever the loop, count, mode and direction of the player are. *)
Theorem worker_loop_wraps_and_never_completes :
  (forall fuel w tvg info,
      _animationFrame w = true ->
      _isPlaying w = true ->
      _isInitialized w = true ->
      _TVG w = Some tvg ->
      _currentCanvasInfo w = Some info ->
      let elapsed := (now w - _animationStartTime w) / 1000 * _animationSpeed w in
      let frameNumber := (elapsed / _duration w) * _totalFrames w in
      _totalFrames w <= frameNumber ->
      let w' := turn fuel IntervalFires w in
      _animationStartTime w' = now w
      /\ _isPlaying w' = true
      /\ _animationFrame w' = true
      /\ exists pre post,
           calls w' =
             calls w ++ pre
               ++ TvgFrame (Num.floor (Num.rem frameNumber (_totalFrames w)))
               :: post)
  /\ (forall fuel inputs h t,
        ~ In COMPLETE (posted (turns fuel inputs (fresh h t))))
  /\ (forall fuel w,
        Forall (eq SW) (constructed (calls w)) ->
        exists rs,
          posted (turn fuel IntervalFires w) = posted w ++ rs
          /\ Forall (fun r => match r with
                              | FRAME _ _ _ | ERROR _ => True
                              | _ => False
                              end) rs)
  /\ (forall r p,
        LottieWorkerPlayer.currentState
          (LottieWorkerPlayer._handleWorkerMessage r p) = PlayerState.Stopped ->
        LottieWorkerPlayer.currentState p = PlayerState.Stopped
        \/ r = COMPLETE
        \/ exists n size, r = LOADED n size)
  /\ (forall p,
        LottieWorkerPlayer.sent (LottieWorkerPlayer.play p)
        = LottieWorkerPlayer.sent p
        \/ LottieWorkerPlayer.sent (LottieWorkerPlayer.play p)
           = LottieWorkerPlayer.sent p ++ [PLAY]).
Proof.
  split; [|split; [|split; [|split]]].
  - intros fuel w tvg info Haf Hpl Hin Htvg Hci elapsed frameNumber Hge.
    cbv zeta. rewrite (turn_IntervalFires w Haf).
    apply Num_geb_iff in Hge. subst frameNumber elapsed.
    destruct w as [md mr tv ini ci pl st sp tf du af uo oc' ox ist nw wh po dr ca].
    simpl in *. subst.
    unfold intervalCallback. cbn. rewrite Hge. cbn.
    unfold renderFrame, renderInto, offscreenTarget, newImageData. cbn.
    destruct uo, oc' as [c|], ox; cbn;
      repeat (match goal with
              | |- context [viewportInfo info] =>
                  destruct (viewportInfo info); cbn
              | |- context [tvg_update tvg] =>
                  destruct (tvg_update tvg); cbn
              | |- context [List.length (tvg_render tvg)] =>
                  destruct (tvg_render tvg); cbn
              | |- context [if ImageData_ok ?h ?b ?x ?y then _ else _] =>
                  destruct (ImageData_ok h b x y); cbn
              end);
      (split; [reflexivity|]); (split; [reflexivity|]); (split; [reflexivity|]);
      rewrite <- ?app_assoc; cbn;
      first [ exists [], []; reflexivity
            | eexists [_], _; reflexivity
            | eexists [_; _], _; reflexivity
            | eexists [_], []; reflexivity
            | eexists [_; _], []; reflexivity ].
  - intros fuel inputs h t.
    destruct (turns_sound (fun r => negb (isCOMPLETE r)) [] ltac:(auto)
                ltac:(auto) ltac:(auto) ltac:(auto) fuel inputs (fresh h t)
                (fresh_tame _ h t)) as [_ [rs [Hp Hok]]].
    rewrite Hp. simpl. intros Hin.
    rewrite forallb_forall in Hok. apply Hok in Hin. discriminate.
  - intros fuel w Hc.
    pose (ok := fun r => match r with FRAME _ _ _ | ERROR _ => true | _ => false end).
    assert (H : Tame ok (posted w) (turn fuel IntervalFires w)).
    { simpl. destruct (_animationFrame w); [|now apply tame_start].
      apply (keeps_drive (Tame ok (posted w)) (intervalCallback w) []);
        [|constructor].
      apply intervalCallback_sound; auto. now apply tame_start. }
    destruct H as [_ [rs [Hp Hok]]]. exists rs. split; [exact Hp|].
    rewrite forallb_forall in Hok. apply Forall_forall. intros r Hr.
    apply Hok in Hr. destruct r; simpl in Hr; try discriminate; exact Logic.I.
  - exact handleWorkerMessage_stopped.
  - intros p. unfold LottieWorkerPlayer.play.
    destruct p as [? ? ? ? ? ? ? ? ? ? tf ? st wk].
    destruct st; cbn; auto; destruct (Num.ltb tf 1); cbn; auto;
      destruct wk; cbn; auto.
Qed.

End WorkerFacts.

(** ** Examples on the concrete page *)

Section PlayerExamples.
Import LottiePlayer.

(** On the sample page, half a second into a two-second animation of 60
    frames, the tick reports frame 15 and stays Playing. *)
Lemma update_frame_and_completion_witness :
  currentState (self Sample.world) = PlayerState.Playing
  /\ _TVG (self Sample.world) = Some Sample.tvg
  /\ exists w',
       _update Sample.world = Done (Returned true) w'
       /\ currentFrame (self w') == 15
       /\ currentState (self w') = PlayerState.Playing.
Proof.
  split; [reflexivity|]. split; [reflexivity|].
  destruct (update_frame_and_completion Sample.world Sample.tvg
              eq_refl eq_refl) as [H _].
  destruct H as [w' [E [Hf [Hs _]]]].
  - intros [[_ H] | [H _]]; vm_compute in H.
    + apply H. reflexivity.
    + discriminate H.
  - exists w'. split; [exact E|]. split; [|exact Hs].
    rewrite Hf. vm_compute. reflexivity.
Defined.

(** At the end of the first forward leg of a Bounce with a count of two, the
    tick goes on: now backward, on the last frame, second leg. *)
Lemma update_repeat_bookkeeping_witness :
  currentState (self Sample.turning) = PlayerState.Playing
  /\ _TVG (self Sample.turning) = Some Sample.tvg
  /\ legOver
       (set_currentFrame (tickFrame Sample.turning Sample.tvg)
          (self Sample.turning)) = true
  /\ exists w' k,
       _update Sample.turning = Await (Timer 1) w' k
       /\ direction (self w') = -1
       /\ currentFrame (self w') = 60
       /\ _counter (self w') == 2.
Proof.
  split; [reflexivity|]. split; [reflexivity|]. split; [vm_compute; reflexivity|].
  destruct (update_repeat_bookkeeping Sample.turning Sample.tvg
              eq_refl eq_refl) as [_ H]; [vm_compute; reflexivity|].
  destruct H as [w' [k [E [Hb [_ [Hc _]]]]]].
  - right. split.
    + intros H. vm_compute in H. discriminate H.
    + vm_compute. reflexivity.
  - exists w', k. split; [exact E|].
    destruct (Hb eq_refl) as [Hd Hf].
    split; [rewrite Hd; vm_compute; reflexivity|].
    split; [rewrite Hf, Hd; vm_compute; reflexivity|].
    rewrite Hc. vm_compute. reflexivity.
Defined.

(** The same tick dispatches nothing. *)
Lemma looping_tick_dispatches_nothing_witness :
  currentState (self Sample.turning) = PlayerState.Playing
  /\ _TVG (self Sample.turning) = Some Sample.tvg
  /\ repeats (self Sample.turning) = true
  /\ exists w',
       drive [] (_update Sample.turning) = (Returned true, w')
       /\ dispatched (trace w') = [].
Proof.
  split; [reflexivity|]. split; [reflexivity|]. split; [vm_compute; reflexivity|].
  destruct (looping_tick_dispatches_nothing Sample.turning Sample.tvg []
              eq_refl eq_refl) as [_ [w' [E Ht]]].
  - vm_compute. reflexivity.
  - vm_compute. reflexivity.
  - exists w'. split; [exact E|]. rewrite Ht. reflexivity.
Defined.

(** Scrolling the playing sample player out of view dispatches [freeze]
    twice. *)
Lemma observerCallback_dispatches_freeze_twice_witness :
  currentState (self Sample.world) = PlayerState.Playing
  /\ exists w',
       _observerCallback false Sample.world = Done (Returned tt) w'
       /\ dispatched (trace w') =
          [(PlayerEvent.Freeze, NoDetail); (PlayerEvent.Freeze, NoDetail)].
Proof.
  split; [reflexivity|].
  destruct (observerCallback_dispatches_freeze_twice Sample.world eq_refl)
    as [w' [E [_ Ht]]].
  exists w'. split; [exact E|]. rewrite Ht. reflexivity.
Defined.

(** C4, against the claim as stated.  The sample player is sought to frame 30
    and played again: the tick at the instant of [play()] computes frame 0,
    and the tick 100 ms later frame 3, not 30 and 33. *)
Lemma play_after_seek_restarts_from_zero :
  let w1 := snd (drive [] (seek 30 Sample.world)) in
  let w2 := snd (drive [] (play w1)) in
  let w3 := snd (drive [] (_update w2)) in
  let w4 := snd (drive [] (_update (interfere (set_clock 10600) w2))) in
  currentState (self w1) = PlayerState.Paused
  /\ currentFrame (self w1) = 30
  /\ currentState (self w2) = PlayerState.Playing
  /\ currentFrame (self w3) == 0
  /\ ~ currentFrame (self w3) == 30
  /\ currentFrame (self w4) == 3.
Proof.
  vm_compute. repeat split; try reflexivity. intros H. discriminate H.
Qed.

(** Playing the paused sample player at frame 30 restarts the clock. *)
Lemma seek_pauses_and_play_restarts_clock_witness :
  let w1 := snd (drive [] (seek 30 Sample.world)) in
  currentState (self w1) = PlayerState.Paused
  /\ _TVG (self w1) = Some Sample.tvg
  /\ fileType (self w1) = JSON
  /\ Num.ltb (tvg_totalFrame Sample.tvg) 1 = false
  /\ _observable (self w1) = true
  /\ exists w3,
       play w1 = Done (Returned tt) w3
       /\ currentState (self w3) = PlayerState.Playing
       /\ tickFrame w3 Sample.tvg == 0.
Proof.
  cbv zeta.
  split; [reflexivity|]. split; [reflexivity|]. split; [reflexivity|].
  split; [reflexivity|]. split; [reflexivity|].
  destruct (seek_pauses_and_play_restarts_clock
              (snd (drive [] (seek 30 Sample.world))) 0 []) as [_ [_ H]].
  destruct (H Sample.tvg (or_introl eq_refl) eq_refl (or_introl eq_refl)
              eq_refl eq_refl) as [w3 [E [Hs [_ [_ Hz]]]]].
  exists w3. split; [exact E|]. split; [exact Hs|]. exact Hz.
Defined.

End PlayerExamples.

Section InitExamples.
Import LottiePlayer.

(** WebGL is asked for on a page whose module cannot construct the WebGL
    engine, though it can construct the software one: [_init] throws, and
    nothing is active and nothing was said. *)
Lemma init_webgl_failure_is_not_caught_witness :
  requestedRenderer (self Fixture.hopeful) = GL
  /\ TvgLottieAnimation Fixture.glless SW (Some "#thorvg-2") = Some Sample.tvg
  /\ let r := drive [] (_init 2 Fixture.hopeful) in
     (exists e, fst r = Thrown e)
     /\ _TVG (self (snd r)) = None
     /\ _actualRenderer (self (snd r)) = None
     /\ constructed (trace (snd r)) = [GL]
     /\ dispatched (trace (snd r)) = [].
Proof.
  split; [reflexivity|]. split; [reflexivity|].
  destruct (init_webgl_failure_is_not_caught 2 Fixture.hopeful
              Fixture.glless []) as [H1 [H2 [H3 [_ [_ [H6 H7]]]]]].
  - apply le_n.
  - reflexivity.
  - reflexivity.
  - reflexivity.
  - intros H. discriminate H.
  - reflexivity.
  - constructor.
  - cbv zeta. split; [exact H1|]. split; [exact H2|]. split; [exact H3|].
    split; [exact H6 | exact H7].
Defined.

(** The fallback from WebGPU hangs on the same shared status.  On the sample
    page the engine refuses WebGPU; when the status is reset by someone else
    while [_init] waits, [_init] takes WebGPU for accepted: the WebGPU engine
    is constructed and no fallback is reported. *)
Lemma init_webgpu_refusal_can_be_missed :
  let quiet := drive [] (_init 3 Sample.arrival) in
  let raced :=
    drive (map interfere [fun g => g; set__initStatus IDLE])
      (_init 3 Sample.arrival) in
  _actualRenderer (self (snd quiet)) = Some GL
  /\ fallbacks (trace (snd quiet))
     = [FallbackDetail WG GL "Fallback from wg to gl renderer"]
  /\ fst raced = Returned tt
  /\ _actualRenderer (self (snd raced)) = Some WG
  /\ constructed (trace (snd raced)) = [WG]
  /\ fallbacks (trace (snd raced)) = [].
Proof. vm_compute. repeat split; reflexivity. Qed.

(** The text of the empty object on the sample page: what would be handed to
    the engine is not that text. *)
Lemma parseSrc_encodes_parsed_object_not_text_witness :
  JSON_parse Sample.host "{}" = Some (JObject [])
  /\ ToString Sample.host (JObject []) = "[object Object]"
  /\ fst (drive [] (_parseSrc (SrcString "{}") JSON Sample.world))
     = Returned (encode "[object Object]")
  /\ fst (drive [] (_parseSrc (SrcObject (JObject [])) JSON Sample.world))
     = Returned (encode "{}").
Proof.
  split; [reflexivity|]. split; [reflexivity|].
  destruct (parseSrc_encodes_parsed_object_not_text Sample.world "{}" JSON []
              [] (or_introl eq_refl) eq_refl eq_refl) as [H1 [_ [_ [H4 _]]]].
  split; [exact H1 | exact H4].
Defined.

End InitExamples.

Section WorkerExamples.
Import LottieWorker.

(** A fresh worker is asked for WebGPU and constructs the software engine. *)
Lemma worker_engine_is_software_witness :
  let w' :=
    turn 1
      (Message
         (INIT None
            (Some {| enableDevicePixelRatio := None; renderer := Some WG |})
            None None))
      (fresh Sample.host 0) in
  _TVG w' = Some Sample.tvg
  /\ calls w' = [Construct SW (Some "")]
  /\ posted w' = [READY].
Proof.
  destruct worker_engine_is_software as [_ [_ H]].
  destruct (H 1%nat None
              (Some {| enableDevicePixelRatio := None; renderer := Some WG |})
              None None (fresh Sample.host 0) Sample.module Sample.tvg)
    as [H1 [_ [H3 H4]]].
  - right. repeat split.
  - intros H'. discriminate H'.
  - reflexivity.
  - cbv zeta. repeat split; assumption.
Defined.

(** Two and a half seconds into a two-second animation of 60 frames, the
    worker wraps to frame 15 and starts counting again. *)
Lemma worker_loop_wraps_and_never_completes_witness :
  _isPlaying Sample.playingWorker = true
  /\ _totalFrames Sample.playingWorker == 60
  /\ let w' := turn 1 IntervalFires Sample.playingWorker in
     _animationStartTime w' = 2500
     /\ _isPlaying w' = true
     /\ exists pre post,
          calls w' = calls Sample.playingWorker ++ pre ++ TvgFrame 15 :: post.
Proof.
  split; [reflexivity|]. split; [reflexivity|].
  destruct worker_loop_wraps_and_never_completes as [H _].
  destruct (H 1%nat Sample.playingWorker Sample.tvg Sample.canvas)
    as [H1 [H2 [_ [pre [post H4]]]]].
  - reflexivity.
  - reflexivity.
  - reflexivity.
  - reflexivity.
  - reflexivity.
  - vm_compute. intros H'. discriminate H'.
  - cbv zeta. split; [exact H1|]. split; [exact H2|].
    exists pre, post. exact H4.
Defined.

End WorkerExamples.

(** * More of the code *)

(** ** Loading *)

Section LoadFacts.
Import LottiePlayer.
#[local] Opaque Qplus Qminus Qmult Qdiv Qinv Qopp Qle_bool Qeq_bool Qabs.

(** A handler that returns at once makes [try ... catch] total: whatever the
    schedule, the outcome is not an exception. *)
Lemma orElse_total {W A} (h : string -> Async W A) :
  (forall e w, exists a w', h e w = Done (Returned a) w') ->
  forall (r : Run W A) sched,
    (exists a, fst (drive sched (orElse r h)) = Returned a)
    \/ fst (drive sched (orElse r h)) = OutOfFuel.
Proof.
  intros Hh r. induction r as [o w | s w k IH]; intros sched; simpl.
  - destruct o as [a | e' |]; simpl; [left; eauto | | now right].
    destruct (Hh e' w) as [a [w' E]]. rewrite E. simpl. left. eauto.
  - destruct sched as [| x sched']; apply IH.
Qed.

(** X1. The promise of [load()] is never rejected.  Whatever [_init], the
    reading of the source or the engine throw is caught by [load] itself: with
    every [_init], source, file type and interleaving at its suspensions, a
    [load] that ends has returned.  ([OutOfFuel] is a run the model does not
    follow to its end.) *)
Theorem load_never_rejects (init : M unit) src ft sched w :
  fst (drive sched (load init src ft w)) = Returned tt
  \/ fst (drive sched (load init src ft w)) = OutOfFuel.
Proof.
  unfold load, tryCatch.
  destruct (orElse_total
              (fun _ : string =>
                 modSelf (set_currentState PlayerState.Error) ;;
                 dispatchEvent PlayerEvent.Error NoDetail)
              (fun e' w' => ex_intro _ tt (ex_intro _ _ eq_refl))
              ((await init ;;
                bytes <- await (_parseSrc src ft) ;;
                dispatchEvent PlayerEvent.Ready NoDetail ;;
                modSelf (set_fileType ft) ;;
                await (_loadBytes bytes)) w) sched) as [[[] H] | H];
    [left | right]; exact H.
Qed.

Lemma init_ready fuel w m :
  _timer (self w) = false ->
  _module (ambient w) = Some m ->
  (2 <= fuel)%nat ->
  _init fuel w = Done (Returned tt) w.
Proof.
  intros Ht Hm Hf. destruct fuel as [|[|n]]; try lia.
  destruct w as [p g t]. destruct g as [c h md mr st ir].
  destruct p. simpl in *. subst. cbn.
  destruct mr; reflexivity.
Qed.

(** The ways [_parseSrc] throws, by what the host answers. *)
Lemma parseSrc_throws src ft w e :
  fst (drive [] (_parseSrc src ft w)) = Thrown e ->
  let h := host (ambient w) in
  src = SrcOther
  \/ exists s,
       src = SrcString s
       /\ ((FileType_eqb ft JSON || FileType_eqb ft LOT = true
            /\ JSON_parse h s = None
            /\ (URL_href h s = None
                \/ exists url,
                     URL_href h s = Some url /\ fetch_json h url = None))
           \/ (FileType_eqb ft JSON || FileType_eqb ft LOT = false
               /\ fetch_arrayBuffer h s = None)).
Proof.
  destruct w as [p g t]. unfold _parseSrc. cbn.
  destruct src as [s | b | o |]; cbn; try discriminate; [|now left].
  intros H. right. exists s. split; [reflexivity|]. revert H.
  destruct (FileType_eqb ft JSON || FileType_eqb ft LOT); cbn.
  - unfold _parseJSON. cbn.
    destruct (JSON_parse (host g) s); cbn; [discriminate|].
    unfold _parseLottieFromURL. cbn.
    destruct (URL_href (host g) s) as [url|] eqn:U; cbn.
    + destruct (fetch_json (host g) url) eqn:F; cbn; [discriminate|].
      intros _. left. repeat split. right. eauto.
    + intros _. left. repeat split. now left.
  - unfold _parseImageFromURL. cbn.
    destruct (fetch_arrayBuffer (host g) s); cbn; [discriminate|].
    intros _. right. split; reflexivity.
Qed.

Ltac peel sched Hs :=
  let e := fresh "e" in
  let He := fresh "He" in
  let Hs' := fresh "Hs" in
  destruct sched as [|e sched];
  [| inversion Hs as [|? ? He Hs']; subst; clear Hs; rename Hs' into Hs ].

(** X2. [load()] of a source that cannot be read (neither text, bytes nor
    object; text that is neither JSON nor a valid URL; a download that fails)
    returns normally, leaves the player in the error state and dispatches
    [error], without [ready] before it.  The engine is not touched, and the
    [fileType] of the player is left as it was.  The page may change while
    [load] is suspended, as long as the answers of the host stay the same. *)
Theorem load_unusable_source fuel w m src ft sched e :
  _timer (self w) = false ->
  _module (ambient w) = Some m ->
  (2 <= fuel)%nat ->
  Forall (fun c => forall g, host (c g) = host g) sched ->
  fst (drive [] (_parseSrc src ft w)) = Thrown e ->
  let r := drive (map interfere sched) (load (_init fuel) src ft w) in
  fst r = Returned tt
  /\ currentState (self (snd r)) = PlayerState.Error
  /\ fileType (self (snd r)) = fileType (self w)
  /\ exists urls,
       trace (snd r) =
         trace w ++ map Fetch urls ++ [Dispatch PlayerEvent.Error NoDetail].
Proof.
  intros Ht Hm Hf Hs Hp r. subst r.
  apply parseSrc_throws in Hp. cbv zeta in Hp.
  unfold load, tryCatch, bind, await, bind.
  rewrite (init_ready fuel w m Ht Hm Hf).
  destruct w as [p g t]. cbn in Hp. cbn.
  destruct Hp as [-> | [s [-> [[Hl [Hj Hu]] | [Hl Hf']]]]].
  - peel sched Hs; cbn; destruct p; cbn; repeat split; exists []; reflexivity.
  - unfold _parseSrc, _parseJSON, _parseLottieFromURL.
    destruct Hu as [Hu | [url [Hu Hfj]]].
    + peel sched Hs; cbn; rewrite ?He, Hl; cbn; rewrite ?He, Hj; cbn;
        rewrite ?He, Hu; cbn; destruct p; cbn; repeat split; exists [];
        reflexivity.
    + peel sched Hs; cbn; rewrite ?He, Hl; cbn; rewrite ?He, Hj; cbn;
        rewrite ?He, Hu; cbn; [| peel sched Hs; cbn]; rewrite Hfj; cbn;
        destruct p; cbn; repeat split; exists [url]; cbn;
        rewrite <- app_assoc; reflexivity.
  - unfold _parseSrc, _parseImageFromURL.
    peel sched Hs; cbn; rewrite ?He, Hl; cbn; [| peel sched Hs; cbn];
      rewrite ?He, Hf'; cbn; destruct p; cbn; repeat split; exists [s]; cbn;
      rewrite <- app_assoc; reflexivity.
Qed.

Ltac hosts :=
  repeat match goal with
    | H : forall g, host (?e g) = host g |- _ => progress rewrite H
    end.

Ltac close :=
  match goal with
  | |- exists _ _, _ /\ _ /\ drive (map interfere ?s) _ = _ => eexists _, s
  | |- exists _ _, _ /\ _ /\ drive [] _ = _ => eexists _, []
  end;
  (split; [|split; [eassumption || constructor|]]);
  [| cbn; rewrite <- ?app_assoc; reflexivity]; hosts; reflexivity.

(** The ways [_parseSrc] answers, by what the host answers. *)
Lemma parseSrc_returns src ft w bytes :
  fst (drive [] (_parseSrc src ft w)) = Returned bytes ->
  let h := host (ambient w) in
  src = SrcArrayBuffer bytes
  \/ (exists o, src = SrcObject o /\ bytes = encode (JSON_stringify h o))
  \/ exists s,
       src = SrcString s
       /\ ((FileType_eqb ft JSON || FileType_eqb ft LOT = true
            /\ ((exists v, JSON_parse h s = Some v
                           /\ bytes = encode (asString h v))
                \/ (JSON_parse h s = None
                    /\ exists url json,
                         URL_href h s = Some url
                         /\ fetch_json h url = Some json
                         /\ bytes = encode (JSON_stringify h json))))
           \/ (FileType_eqb ft JSON || FileType_eqb ft LOT = false
               /\ fetch_arrayBuffer h s = Some bytes)).
Proof.
  destruct w as [p g t]. unfold _parseSrc. cbn.
  destruct src as [s | b | o |]; cbn; try discriminate.
  - intros H. right. right. exists s. split; [reflexivity|]. revert H.
    destruct (FileType_eqb ft JSON || FileType_eqb ft LOT); cbn.
    + unfold _parseJSON. cbn.
      destruct (JSON_parse (host g) s) as [v|]; cbn.
      * intros [= <-]. left. split; [reflexivity|]. left. eauto.
      * unfold _parseLottieFromURL. cbn.
        destruct (URL_href (host g) s) as [url|] eqn:U; cbn; [|discriminate].
        destruct (fetch_json (host g) url) eqn:F; cbn; [|discriminate].
        intros [= <-]. left. split; [reflexivity|]. right.
        split; [reflexivity|]. eauto.
    + unfold _parseImageFromURL. cbn.
      destruct (fetch_arrayBuffer (host g) s); cbn; [|discriminate].
      intros [= <-]. right. split; reflexivity.
  - intros [= <-]. now left.
  - intros [= <-]. right. left. eauto.
Qed.

(** A load on a player whose engine is there, up to the call of [_loadBytes]:
    the source is read, [ready] is dispatched and the file type is assigned. *)
Lemma load_run fuel w m src ft sched bytes :
  _timer (self w) = false ->
  _module (ambient w) = Some m ->
  (2 <= fuel)%nat ->
  Forall (fun c => forall g, host (c g) = host g) sched ->
  fst (drive [] (_parseSrc src ft w)) = Returned bytes ->
  exists urls g2 rest,
    host g2 = host (ambient w)
    /\ Forall (fun c => forall g, host (c g) = host g) rest
    /\ drive (map interfere sched) (load (_init fuel) src ft w) =
       drive (map interfere rest)
         (tryCatch (await (_loadBytes bytes))
            (fun _ =>
               modSelf (set_currentState PlayerState.Error) ;;
               dispatchEvent PlayerEvent.Error NoDetail)
            (mkWorld (set_fileType ft (self w)) g2
               (trace w ++ map Fetch urls
                  ++ [Dispatch PlayerEvent.Ready NoDetail]))).
Proof.
  Opaque _loadBytes.
  intros Ht Hm Hf Hs Hp.
  apply parseSrc_returns in Hp. cbv zeta in Hp.
  unfold load, tryCatch, bind, await, bind.
  rewrite (init_ready fuel w m Ht Hm Hf).
  destruct w as [p g t]. cbn in Hp. cbn.
  destruct Hp as [-> | [[o [-> ->]] | [s [-> [[Hl [[v [Hj ->]] | [Hj [url [json [Hu [Hfj ->]]]]]]] | [Hl Hf']]]]]].
  - (* an ArrayBuffer *)
    exists []. unfold _parseSrc.
    peel sched Hs; cbn; [| peel sched Hs; cbn];
      close.
  - (* an object *)
    exists []. unfold _parseSrc.
    peel sched Hs; cbn; [| peel sched Hs; cbn];
      hosts;
      close.
  - (* a string that parses *)
    exists []. unfold _parseSrc, _parseJSON.
    peel sched Hs; cbn; rewrite ?Hl; cbn; hosts; rewrite ?Hl, ?Hj; cbn;
      [| peel sched Hs; cbn; [| peel sched Hs; cbn]];
      close.
  - (* a string that is fetched *)
    exists [url]. unfold _parseSrc, _parseJSON, _parseLottieFromURL.
    peel sched Hs; cbn; rewrite ?Hl; cbn; hosts; rewrite ?Hl, ?Hj; cbn;
      hosts; rewrite ?Hu; cbn; rewrite ?Hfj; cbn;
      [| peel sched Hs; cbn; rewrite ?Hfj; cbn;
         [| peel sched Hs; cbn;
            [| peel sched Hs; cbn; [| peel sched Hs; cbn]]]];
      close.
  - (* an image *)
    exists [s]. unfold _parseSrc, _parseImageFromURL.
    peel sched Hs; cbn; rewrite ?Hl; cbn; hosts; rewrite ?Hf'; cbn;
      [| peel sched Hs; cbn; rewrite ?Hf'; cbn;
         [| peel sched Hs; cbn; [| peel sched Hs; cbn]]];
      close.
  Transparent _loadBytes.
Qed.


(** When the host accepts image data, [_render] returns; it leaves the
    state, the file type and what is ambient alone, and dispatches nothing. *)
(** What decides [paintable] is the configuration, the size of the canvas
    and the host. *)
Lemma paintable_same w w' tvg :
  renderConfig (self w') = renderConfig (self w) ->
  canvasWidth (self w') = canvasWidth (self w) ->
  canvasHeight (self w') = canvasHeight (self w) ->
  host (ambient w') = host (ambient w) ->
  paintable w' tvg = paintable w tvg.
Proof.
  unfold paintable, sizeAtRender, usesDevicePixelRatio.
  intros -> -> -> ->. reflexivity.
Qed.

Lemma render_returns w tvg :
  _TVG (self w) = Some tvg ->
  paintable w tvg = true ->
  exists w' rest,
    _render w = Done (Returned tt) w'
    /\ ambient w' = ambient w
    /\ currentState (self w') = currentState (self w)
    /\ fileType (self w') = fileType (self w)
    /\ _TVG (self w') = _TVG (self w)
    /\ trace w' = trace w ++ rest
    /\ dispatched rest = [].
Proof.
  intros Ht Hi. destruct w as [p g t].
  destruct p as [? ? rc ? ? ? ? ? ? ? ? ? ? tv ? ? ? ? ? ? ? ?].
  simpl in Ht. subst tv.
  unfold paintable, sizeAtRender in Hi.
  unfold _render, _viewport, usesDevicePixelRatio, configuredRenderer in *.
  destruct rc as [[[[]|] r]|]; cbn in Hi |- *;
    repeat match goal with
      | |- context [if ?c then _ else _] => destruct c eqn:?; cbn
      | |- context [match ?r with Some _ => _ | None => _ end] => destruct r; cbn
      | |- context [match ?r with SW => _ | WG => _ | GL => _ end] => destruct r; cbn
      end;
    try congruence;
    do 2 eexists; (split; [reflexivity|]);
    cbn; rewrite <- ?app_assoc; cbn;
    repeat (split; [reflexivity || (symmetry; apply app_nil_r) |]);
    reflexivity.
Qed.

Lemma loadBytes_refused bytes w tvg :
  _TVG (self w) = Some tvg ->
  tvg_load tvg bytes (fileType (self w)) (canvasWidth (self w))
    (canvasHeight (self w)) "" = false ->
  exists e,
    _loadBytes bytes w =
      Done (Thrown e)
        (mkWorld (self w) (ambient w)
           (trace w ++ [TvgLoad bytes (fileType (self w))
                          (canvasWidth (self w)) (canvasHeight (self w))])).
Proof.
  intros Ht Hl. destruct w as [p g t]. destruct p. simpl in *. subst.
  unfold _loadBytes. cbn. rewrite Hl. cbn. eexists. reflexivity.
Qed.

Lemma loadBytes_accepted bytes w tvg :
  _TVG (self w) = Some tvg ->
  tvg_load tvg bytes (fileType (self w)) (canvasWidth (self w))
    (canvasHeight (self w)) "" = true ->
  paintable w tvg = true ->
  autoPlay (self w) = false ->
  exists w' rest,
    _loadBytes bytes w = Done (Returned tt) w'
    /\ currentState (self w') = currentState (self w)
    /\ fileType (self w') = fileType (self w)
    /\ trace w' =
       trace w ++ TvgLoad bytes (fileType (self w))
                    (canvasWidth (self w)) (canvasHeight (self w)) :: rest
    /\ dispatched rest = [(PlayerEvent.Load, NoDetail)].
Proof.
  Opaque _render.
  intros Ht Hl Hi Ha. destruct w as [p g t].
  destruct p as [? ft ? ? ap ? ? ? ? ? ? ? st tv ? cw ch ? ? ? ? ?].
  simpl in *. subst.
  unfold _loadBytes. cbn. rewrite Hl. cbn. unfold bind at 1.
  match goal with
  | |- context [_render ?w0] =>
      destruct (render_returns w0 tvg eq_refl Hi)
        as [w' [rest [E [Ha' [Hs [Hf [_ [Htr Hd]]]]]]]];
      rewrite E
  end.
  cbn. do 2 eexists. split; [reflexivity|]. cbn.
  split; [exact Hs|]. split; [exact Hf|].
  rewrite Htr. cbn. rewrite <- !app_assoc. cbn. split; [reflexivity|].
  rewrite dispatched_app, Hd. reflexivity.
  Transparent _render.
Qed.

(** X3. When the source is read but the engine refuses the bytes, [load()]
    has dispatched [ready], has assigned the file type, has handed the bytes
    to the engine at the size of the canvas, and ends in the error state with
    [error] dispatched: nothing is rendered and no [load] event is
    dispatched. *)
Theorem load_engine_refuses fuel w m tvg src ft sched bytes :
  _timer (self w) = false ->
  _module (ambient w) = Some m ->
  (2 <= fuel)%nat ->
  _TVG (self w) = Some tvg ->
  Forall (fun c => forall g, host (c g) = host g) sched ->
  fst (drive [] (_parseSrc src ft w)) = Returned bytes ->
  tvg_load tvg bytes ft (canvasWidth (self w)) (canvasHeight (self w)) ""
  = false ->
  let r := drive (map interfere sched) (load (_init fuel) src ft w) in
  fst r = Returned tt
  /\ currentState (self (snd r)) = PlayerState.Error
  /\ fileType (self (snd r)) = ft
  /\ exists urls,
       trace (snd r) =
         trace w ++ map Fetch urls
           ++ [Dispatch PlayerEvent.Ready NoDetail;
               TvgLoad bytes ft (canvasWidth (self w)) (canvasHeight (self w));
               Dispatch PlayerEvent.Error NoDetail].
Proof.
  intros Ht Hm Hf Hv Hs Hp Hl r. subst r.
  destruct (load_run fuel w m src ft sched bytes Ht Hm Hf Hs Hp)
    as [urls [g2 [rest [Hh [Hr E]]]]].
  rewrite E. clear E.
  unfold tryCatch, await, bind.
  match goal with
  | |- context [_loadBytes bytes ?w0] =>
      destruct (loadBytes_refused bytes w0 tvg) as [e E]
  end.
  { destruct w as [p g t]; destruct p; exact Hv. }
  { destruct w as [p g t]; destruct p; exact Hl. }
  rewrite E. cbn.
  destruct w as [p g t]; destruct p. cbn.
  repeat split. exists urls. rewrite <- !app_assoc. reflexivity.
Qed.

(** X4. When the source is read, the engine accepts the bytes and the image
    it renders fits the canvas (so that [new ImageData] accepts it at the size
    [_render] gives the canvas), [load()] without [autoPlay] dispatches
    [ready], hands the bytes to the engine, renders, and dispatches [load] and
    no other event after [ready].  It does not assign [currentState]: the
    state is what it was before the call. *)
Theorem load_engine_accepts fuel w m tvg src ft sched bytes :
  _timer (self w) = false ->
  _module (ambient w) = Some m ->
  (2 <= fuel)%nat ->
  _TVG (self w) = Some tvg ->
  autoPlay (self w) = false ->
  paintable w tvg = true ->
  Forall (fun c => forall g, host (c g) = host g) sched ->
  fst (drive [] (_parseSrc src ft w)) = Returned bytes ->
  tvg_load tvg bytes ft (canvasWidth (self w)) (canvasHeight (self w)) ""
  = true ->
  let r := drive (map interfere sched) (load (_init fuel) src ft w) in
  fst r = Returned tt
  /\ currentState (self (snd r)) = currentState (self w)
  /\ fileType (self (snd r)) = ft
  /\ exists urls rest,
       trace (snd r) =
         trace w ++ map Fetch urls
           ++ Dispatch PlayerEvent.Ready NoDetail
           :: TvgLoad bytes ft (canvasWidth (self w)) (canvasHeight (self w))
           :: rest
       /\ dispatched rest = [(PlayerEvent.Load, NoDetail)].
Proof.
  intros Ht Hm Hf Hv Ha Hi Hs Hp Hl r. subst r.
  destruct (load_run fuel w m src ft sched bytes Ht Hm Hf Hs Hp)
    as [urls [g2 [rest [Hh [Hr E]]]]].
  rewrite E. clear E.
  unfold tryCatch, await, bind.
  match goal with
  | |- context [_loadBytes bytes ?w0] =>
      destruct (loadBytes_accepted bytes w0 tvg)
        as [w' [fx [E [Hst [Hft [Htr Hd]]]]]]
  end.
  { destruct w as [p g t]; destruct p; exact Hv. }
  { destruct w as [p g t]; destruct p; exact Hl. }
  { rewrite <- Hi. apply paintable_same; cbn; try exact Hh;
      destruct w as [p g t]; destruct p; reflexivity. }
  { destruct w as [p g t]; destruct p; exact Ha. }
  rewrite E. cbn.
  assert (Hfin : forall e,
             currentState (self (interfere e w')) = currentState (self w)
             /\ fileType (self (interfere e w')) = ft
             /\ trace (interfere e w') = trace w').
  { intros e. cbn. rewrite Hst, Hft.
    destruct w as [p g t]; destruct p; repeat split; reflexivity. }
  assert (Hgoal : forall wf,
             currentState (self wf) = currentState (self w)
             /\ fileType (self wf) = ft /\ trace wf = trace w' ->
             (Returned tt : Outcome unit) = Returned tt
             /\ currentState (self wf) = currentState (self w)
             /\ fileType (self wf) = ft
             /\ exists urls rest,
                  trace wf =
                    trace w ++ map Fetch urls
                      ++ Dispatch PlayerEvent.Ready NoDetail
                      :: TvgLoad bytes ft (canvasWidth (self w))
                           (canvasHeight (self w))
                      :: rest
                  /\ dispatched rest = [(PlayerEvent.Load, NoDetail)]).
  { intros wf [H1 [H2 H3]]. repeat split; try assumption.
    exists urls, fx. split; [|exact Hd].
    rewrite H3, Htr. cbn.
    destruct w as [p g t]; destruct p; cbn. rewrite <- !app_assoc.
    reflexivity. }
  destruct rest as [|e rest']; cbn.
  - apply Hgoal. destruct (Hfin (fun g => g)) as [H1 [H2 H3]].
    cbn in *. auto.
  - apply Hgoal. exact (Hfin e).
Qed.

End LoadFacts.

(** ** What the element never does *)

#[local] Opaque Qplus Qminus Qmult Qdiv Qinv Qopp Qle_bool Qeq_bool Qabs.

Section ElementInvariant.
Import LottiePlayer LottieElement.
#[local] Opaque Qplus Qminus Qmult Qdiv Qinv Qopp Qle_bool Qeq_bool Qabs.

Context {A : Type}.
Variable f : Effect -> list A.
Variable r : option Renderer.
Variable v : list A.

(** What the methods emit, [f] does not read: every effect but the [play]
    and [loop] events and, for a player configured for a GPU renderer, the
    images put on the canvas. *)
Hypothesis f_dispatch :
  forall e d,
    e <> PlayerEvent.Play -> e <> PlayerEvent.Loop -> f (Dispatch e d) = [].
Hypothesis f_paint :
  r <> Some WG -> r <> Some GL -> forall a b, f (PutImageData a b) = [].
Hypothesis f_other :
  forall x,
    match x with
    | Dispatch _ _ | PutImageData _ _ => False
    | _ => True
    end -> f x = [].

#[local] Abbreviation Inv := (Within f r v).

Lemma within_same w w' :
  configuredRenderer (self w') = configuredRenderer (self w) ->
  trace w' = trace w -> Inv w -> Inv w'.
Proof. intros H1 H2 [H3 H4]. split; [rewrite H1 | rewrite H2]; assumption. Qed.

Lemma within_emit x w :
  f x = [] -> Inv w -> Inv (mkWorld (self w) (ambient w) (trace w ++ [x])).
Proof.
  intros Hx [H1 H2]. split; [exact H1|]. simpl.
  rewrite flat_map_app, H2. simpl. rewrite Hx. now rewrite !app_nil_r.
Qed.

Lemma keeps_getSelf w : Inv w -> Keeps Inv (getSelf w).
Proof. apply keeps_done. Qed.
Lemma keeps_getAmbient w : Inv w -> Keeps Inv (getAmbient w).
Proof. apply keeps_done. Qed.
Lemma keeps_getHost w : Inv w -> Keeps Inv (getHost w).
Proof. apply keeps_done. Qed.
Lemma keeps_Date_now w : Inv w -> Keeps Inv (Date_now w).
Proof. apply keeps_done. Qed.
Lemma keeps_modAmbient g w : Inv w -> Keeps Inv (modAmbient g w).
Proof. intros. apply keeps_done. now apply (within_same w). Qed.
Lemma keeps_modSelf g w :
  (forall p, configuredRenderer (g p) = configuredRenderer p) ->
  Inv w -> Keeps Inv (modSelf g w).
Proof. intros Hg H. apply keeps_done. apply (within_same w); auto. apply Hg. Qed.
Lemma keeps_emit_player x w : f x = [] -> Inv w -> Keeps Inv (emit x w).
Proof. intros. apply keeps_done. now apply within_emit. Qed.
Lemma keeps_dispatchEvent e d w :
  e <> PlayerEvent.Play -> e <> PlayerEvent.Loop ->
  Inv w -> Keeps Inv (dispatchEvent e d w).
Proof. intros. apply keeps_emit_player; auto. Qed.

Ltac config :=
  let p := fresh "p" in
  intros p; destruct p; reflexivity.

Ltac inv_step :=
  match goal with
  | |- Keeps _ (bind getSelf ?k ?w) =>
      change (Keeps Inv (k (self w) w)); cbv beta
  | |- Keeps _ (bind getAmbient ?k ?w) =>
      change (Keeps Inv (k (ambient w) w)); cbv beta
  | |- Keeps _ (bind getHost ?k ?w) =>
      change (Keeps Inv (k (host (ambient w)) w)); cbv beta
  | |- Keeps _ (bind _ _ _) => apply keeps_bind; [| intros]
  | |- Keeps _ (tryCatch _ _ _) => apply keeps_tryCatch; [| intros]
  | |- Keeps _ (await _ _) => apply keeps_await
  | |- Keeps _ (spawn _ _) => apply keeps_spawn
  | |- Keeps _ (when _ _ _) => apply keeps_when; [assumption | intros]
  | |- Keeps _ (ret _ _) => apply keeps_ret; assumption
  | |- Keeps _ (throw _ _) => apply keeps_throw; assumption
  | |- Keeps _ (outOfFuel _) => apply keeps_outOfFuel; assumption
  | |- Keeps _ (suspend _ _) => apply keeps_suspend; assumption
  | |- Keeps _ (_wait _ _) => apply keeps_suspend; assumption
  | |- Keeps _ (call ?a _) => destruct a
  | |- Keeps _ (settle ?p _) => unfold settle
  | |- Keeps _ (getSelf _) => apply keeps_getSelf; assumption
  | |- Keeps _ (getAmbient _) => apply keeps_getAmbient; assumption
  | |- Keeps _ (getHost _) => apply keeps_getHost; assumption
  | |- Keeps _ (Date_now _) => apply keeps_Date_now; assumption
  | |- Keeps _ (theTVG _) => unfold theTVG
  | |- Keeps _ (theModule _) => unfold theModule
  | |- Keeps _ (notFailed _) => unfold notFailed
  | |- Keeps _ (modAmbient _ _) => apply keeps_modAmbient; assumption
  | |- Keeps _ (modSelf _ _) =>
      apply keeps_modSelf; [config | assumption]
  | |- Keeps _ (dispatchEvent _ _ _) =>
      apply keeps_dispatchEvent; [discriminate | discriminate | assumption]
  | |- Keeps _ (emit _ _) =>
      apply keeps_emit_player; [apply f_other; exact I | assumption]
  | |- Keeps _ ((if ?c then _ else _) _) => destruct c
  | |- Keeps _ ((match ?x with _ => _ end) _) => destruct x
  | |- Keeps _ ((let '(_, _) := ?x in _) _) => destruct x
  end.

Lemma viewport_within w : Inv w -> Keeps Inv (_viewport w).
Proof. intros. unfold _viewport. repeat inv_step. Qed.

Lemma render_within w : Inv w -> Keeps Inv (_render w).
Proof.
  intros H. unfold _render. do 2 inv_step.
  apply keeps_bind; [repeat inv_step|]. intros _ w1 H1.
  apply keeps_bind; [repeat inv_step|]. intros tvg w2 H2.
  inv_step.
  apply keeps_bind; [repeat inv_step|]. intros _ w3 H3.
  apply keeps_bind; [now apply viewport_within|]. intros _ w4 H4.
  apply keeps_bind; [repeat inv_step|]. intros _ w5 H5.
  destruct (negb (tvg_update tvg)); [repeat inv_step|].
  destruct H2 as [Hr _].
  destruct (configuredRenderer (self w2)) as [[]|] eqn:Hc; repeat inv_step;
    apply keeps_emit_player; try assumption;
    apply f_paint; rewrite <- Hr; discriminate.
Qed.

(** [play] and the other commands. *)
Lemma play_within w : Inv w -> Keeps Inv (play w).
Proof. intros. unfold play. repeat inv_step. Qed.

Lemma pause_within w : Inv w -> Keeps Inv (pause w).
Proof. intros. unfold pause. repeat inv_step. Qed.

Lemma freeze_within w : Inv w -> Keeps Inv (freeze w).
Proof. intros. unfold freeze. repeat inv_step. Qed.

Lemma update_within w : Inv w -> Keeps Inv (_update w).
Proof.
  intros. unfold _update.
  repeat first [apply play_within; assumption | inv_step].
Qed.

Lemma frame_within n w : Inv w -> Keeps Inv (_frame n w).
Proof.
  intros. unfold _frame.
  repeat first [apply pause_within; assumption | inv_step].
Qed.

Lemma seek_within n w : Inv w -> Keeps Inv (seek n w).
Proof.
  intros. unfold seek.
  repeat first [apply frame_within; assumption
               | apply update_within; assumption
               | apply render_within; assumption | inv_step].
Qed.

(** [stop()], followed to the end of the [seek] it starts. *)
Lemma stop_within w :
  Inv w -> Keeps Inv ((started <- stop ;; settle started) w).
Proof.
  Opaque seek.
  intros H. unfold stop, bind at 1, bind at 1. cbn.
  unfold bind at 1, spawn.
  match goal with
  | |- context [seek 0 ?w0] =>
      assert (Hk : Keeps Inv (seek 0 w0))
        by (apply seek_within; apply (within_same w); auto;
            destruct w as [p g t]; destruct p; reflexivity);
      destruct (seek 0 w0) as [o w' | s w' k]
  end; cbn.
  - inversion Hk; subst. apply keeps_done.
    apply (within_emit _ w'); [apply f_dispatch; discriminate | assumption].
  - inversion Hk as [| ? ? ? Hw Hn]; subst. constructor.
    + apply (within_emit _ w'); [apply f_dispatch; discriminate | assumption].
    + exact Hn.
  Transparent seek.
Qed.

Lemma resize_within a b w : Inv w -> Keeps Inv (resize a b w).
Proof.
  intros. unfold resize.
  repeat first [apply render_within; assumption | inv_step].
Qed.

Lemma animLoop_within w : Inv w -> Keeps Inv (_animLoop w).
Proof.
  intros. unfold _animLoop.
  repeat first [apply render_within; assumption
               | apply update_within; assumption | inv_step].
Qed.

Lemma observerCallback_within b w : Inv w -> Keeps Inv (_observerCallback b w).
Proof.
  intros. unfold _observerCallback.
  repeat first [apply play_within; assumption
               | apply freeze_within; assumption | inv_step].
Qed.

Lemma setLooping_within b w : Inv w -> Keeps Inv (setLooping b w).
Proof. intros. unfold setLooping. repeat inv_step. Qed.

Lemma setDirection_within q w : Inv w -> Keeps Inv (setDirection q w).
Proof. intros. unfold setDirection. repeat inv_step. Qed.

Lemma setSpeed_within q w : Inv w -> Keeps Inv (setSpeed q w).
Proof. intros. unfold setSpeed. repeat inv_step. Qed.

(** Reading a source. *)
Lemma parseSrc_within src ft w : Inv w -> Keeps Inv (_parseSrc src ft w).
Proof.
  intros. unfold _parseSrc, _parseJSON, _parseImageFromURL,
    _parseLottieFromURL.
  repeat inv_step.
Qed.

Lemma loadBytes_within bytes w : Inv w -> Keeps Inv (_loadBytes bytes w).
Proof.
  intros. unfold _loadBytes.
  repeat first [apply render_within; assumption
               | apply play_within; assumption | inv_step].
Qed.

Lemma load_within (init : M unit) src ft w :
  (forall w', Inv w' -> Keeps Inv (init w')) ->
  Inv w -> Keeps Inv (load init src ft w).
Proof.
  intros Hi H. unfold load.
  repeat first [apply Hi; assumption
               | apply parseSrc_within; assumption
               | apply loadBytes_within; assumption | inv_step].
Qed.

(** Bringing the renderer up. *)
Lemma module_init_within w : Inv w -> Keeps Inv (module_init w).
Proof. intros. unfold module_init. repeat inv_step. Qed.

Lemma waitWhileRequested_within fuel w :
  Inv w -> Keeps Inv (waitWhileRequested fuel w).
Proof.
  revert w. induction fuel as [|fuel IH]; intros w H; simpl.
  - inv_step.
  - repeat first [apply IH; assumption | inv_step].
Qed.

Lemma initLoop_within fuel w : Inv w -> Keeps Inv (initLoop fuel w).
Proof.
  revert w. induction fuel as [|fuel IH]; intros w H; simpl.
  - inv_step.
  - repeat first [apply IH; assumption
                 | apply module_init_within; assumption | inv_step].
Qed.

Lemma initModule_within fuel engine w :
  Inv w -> Keeps Inv (LottiePlayer._initModule fuel engine w).
Proof.
  intros. unfold LottiePlayer._initModule.
  repeat first [apply waitWhileRequested_within; assumption
               | apply initLoop_within; assumption | inv_step].
Qed.

Lemma waitForModule_within fuel w :
  Inv w -> Keeps Inv (LottiePlayer.waitForModule fuel w).
Proof.
  revert w. induction fuel as [|fuel IH]; intros w H; simpl.
  - inv_step.
  - repeat first [apply IH; assumption | inv_step].
Qed.

Lemma fallbackChain_within fuel engine success w :
  Inv w -> Keeps Inv (fallbackChain fuel engine success w).
Proof.
  intros. unfold fallbackChain.
  repeat first [apply initModule_within; assumption | inv_step].
Qed.

Lemma init_within fuel w : Inv w -> Keeps Inv (_init fuel w).
Proof.
  Opaque fallbackMessage String.append.
  revert w. induction fuel as [|fuel IH]; intros w H; simpl.
  - inv_step.
  - repeat first [apply waitForModule_within; assumption
                 | apply initModule_within; assumption
                 | apply fallbackChain_within; assumption
                 | apply load_within; [exact IH | assumption]
                 | inv_step].
  Transparent fallbackMessage String.append.
Qed.

(** The same, for the element on its page. *)
#[local] Abbreviation PInv := (fun pg : Page => Within f r v (world pg)).

Lemma keeps_liftRun {B} (x : Run World B) d :
  Keeps Inv x -> Keeps PInv (liftRun x d).
Proof.
  intros H. revert d. induction H as [o w H | s w k Hw _ IH]; intros d; simpl.
  - constructor. exact H.
  - constructor; [exact Hw|]. intros pg Hpg. apply IH. exact Hpg.
Qed.

Lemma keeps_lift {B} (c : M B) pg :
  Keeps Inv (c (world pg)) -> Keeps PInv (lift c pg).
Proof. apply keeps_liftRun. Qed.

Lemma keeps_getDom pg : PInv pg -> Keeps PInv (getDom pg).
Proof. apply keeps_done. Qed.

Lemma keeps_modDom g pg : PInv pg -> Keeps PInv (modDom g pg).
Proof. intros. apply keeps_done. assumption. Qed.

Ltac pinv_step :=
  match goal with
  | |- Keeps _ (lift _ _) => apply keeps_lift
  | |- Keeps _ (getDom _) => apply keeps_getDom; assumption
  | |- Keeps _ (modDom _ _) => apply keeps_modDom; assumption
  | |- Keeps _ (domCall _ _) => apply keeps_modDom; assumption
  | |- Keeps _ (_downloadFile _ _ _) => unfold _downloadFile
  | _ => inv_step
  end.

Lemma destroy_within pg : PInv pg -> Keeps PInv (destroy pg).
Proof. intros. unfold destroy. repeat pinv_step. Qed.

Lemma term_within pg : PInv pg -> Keeps PInv (term pg).
Proof. intros. unfold term. repeat pinv_step. Qed.

Lemma setBgColor_within s pg : PInv pg -> Keeps PInv (setBgColor s pg).
Proof. intros. unfold setBgColor. repeat pinv_step. Qed.

Lemma save2png_within pg : PInv pg -> Keeps PInv (save2png pg).
Proof. intros. unfold save2png. repeat pinv_step. Qed.

Lemma save2png_callback_within blob pg :
  PInv pg -> Keeps PInv (save2png_callback blob pg).
Proof.
  intros. unfold save2png_callback. destruct blob; [|now constructor].
  unfold _downloadFile. repeat pinv_step.
Qed.

Lemma save2gif_within s pg : PInv pg -> Keeps PInv (save2gif s pg).
Proof.
  Opaque String.append.
  intros. unfold save2gif.
  repeat first [apply parseSrc_within; assumption | pinv_step].
  Transparent String.append.
Qed.

(** [firstUpdated()], followed to the end of the [load] it starts. *)
Lemma firstUpdated_within fuel pg :
  PInv pg ->
  Keeps PInv
    ((started <- firstUpdated fuel ;;
      match started with
      | Some load => settle load
      | None => ret tt
      end) pg).
Proof.
  Opaque load.
  intros H. unfold firstUpdated, bind at 1, bind at 1. cbn.
  destruct (_TVG (self (world pg))); cbn.
  - destruct (hasSrc _) as [s|]; cbn.
    + unfold bind at 1, spawn, lift. cbn.
      match goal with
      | |- context [liftRun (load ?i ?a ?b ?w0) ?d0] =>
          assert (Hk : Keeps PInv (liftRun (load i a b w0) d0));
          [ apply keeps_liftRun, load_within;
            [ intros; now apply init_within |]
          | destruct (liftRun (load i a b w0) d0) as [o pg' | su pg' k] ]
      end.
      * destruct pg as [w d]. cbn in *.
        apply (within_emit _ (mkWorld _ _ _)); [apply f_other; exact I|].
        apply (within_same w); auto;
          try (destruct w as [p g t]; destruct p; reflexivity).
      * cbn. inversion Hk; subst. now apply keeps_done.
      * cbn. exact Hk.
    + apply keeps_done. destruct pg as [w d]. cbn in *.
      apply (within_same w); auto;
        try (destruct w as [p g t]; destruct p; reflexivity).
  - apply keeps_done. destruct pg as [w d]. cbn in *.
    apply (within_same w); auto;
      try (destruct w as [p g t]; destruct p; reflexivity).
  Transparent load.
Qed.

Lemma invoke_within fuel c pg : PInv pg -> Keeps PInv (invoke fuel c pg).
Proof.
  intros H. destruct c; simpl.
  - apply keeps_lift. now apply play_within.
  - apply keeps_lift. now apply pause_within.
  - apply keeps_lift. now apply stop_within.
  - apply keeps_lift. now apply freeze_within.
  - apply keeps_lift. now apply seek_within.
  - apply keeps_lift. now apply resize_within.
  - apply keeps_lift. apply load_within; [|assumption].
    intros. now apply init_within.
  - apply keeps_lift. now apply setLooping_within.
  - apply keeps_lift. now apply setDirection_within.
  - apply keeps_lift. now apply setSpeed_within.
  - now apply setBgColor_within.
  - now apply destroy_within.
  - now apply term_within.
  - now apply save2png_within.
  - now apply save2gif_within.
  - now apply firstUpdated_within.
  - apply keeps_lift. now apply init_within.
  - apply keeps_lift. now apply animLoop_within.
  - apply keeps_lift. now apply observerCallback_within.
  - now apply save2png_callback_within.
Qed.

(** The event loop: every suspended call keeps the invariant when it is
    resumed. *)
Lemma park_within x others :
  Keeps PInv x ->
  Forall (fun k => forall pg, PInv pg -> Keeps PInv (k pg)) others ->
  PInv (page (park x others))
  /\ Forall (fun k => forall pg, PInv pg -> Keeps PInv (k pg))
       (suspended (park x others)).
Proof.
  intros Hx Ho. inversion Hx as [o pg Hpg | s pg k Hpg Hk]; subst; simpl.
  - split; assumption.
  - split; [assumption|]. apply Forall_app. split; [assumption|].
    constructor; [exact Hk | constructor].
Qed.

Lemma without_Forall {B} (P : B -> Prop) i l :
  Forall P l -> Forall P (without i l).
Proof.
  intros H. revert i. induction H as [|x l Hx Hl IH]; intros i; simpl.
  - destruct i; constructor.
  - destruct i; [assumption|]. constructor; auto.
Qed.

Lemma step_within fuel l ev :
  PInv (page l) ->
  Forall (fun k => forall pg, PInv pg -> Keeps PInv (k pg)) (suspended l) ->
  PInv (page (step fuel l ev))
  /\ Forall (fun k => forall pg, PInv pg -> Keeps PInv (k pg))
       (suspended (step fuel l ev)).
Proof.
  intros Hp Hs. destruct ev as [c | i | e]; simpl.
  - apply park_within; [now apply invoke_within | assumption].
  - destruct (nth_error (suspended l) i) as [k|] eqn:E;
      [|split; [exact Hp | exact Hs]].
    apply park_within.
    + apply nth_error_In in E.
      rewrite Forall_forall in Hs. now apply Hs.
    + now apply without_Forall.
  - split; [|assumption]. simpl. apply (within_same (world (page l))); auto.
Qed.

Lemma run_within fuel events pg :
  PInv pg -> PInv (page (run fuel events pg)).
Proof.
  intros H. unfold run.
  assert (G : forall l,
             PInv (page l) ->
             Forall (fun k => forall pg, PInv pg -> Keeps PInv (k pg))
               (suspended l) ->
             PInv (page (fold_left (step fuel) events l))).
  { induction events as [|ev events IH]; intros l Hp Hs; simpl; [assumption|].
    destruct (step_within fuel l ev Hp Hs) as [Hp' Hs']. now apply IH. }
  apply G; [assumption | constructor].
Qed.

End ElementInvariant.

Section ElementNever.
Import LottiePlayer LottieElement.

(** X5. Whatever the page does with the element, in whatever order and
    however the calls overlap, the element dispatches neither [play] nor
    [loop].  The page's doings are the public methods ([play], [pause],
    [stop], [freeze], [seek], [resize], [load], the setters, [destroy],
    [term], [save2png], [save2gif]), the callbacks the element has registered
    (first update, timer, animation frame, intersection, blob), resumptions of
    suspended calls in any order, and changes of everything ambient.  (The
    [load] that [_init] starts is followed to its first suspension, as in
    [_init]; from there on it is the [load] of a [Load] call.) *)
Theorem element_never_dispatches_play_or_loop fuel events pg :
  playOrLoop (trace (world (page (LottieElement.run fuel events pg))))
  = playOrLoop (trace (world pg)).
Proof.
  pose proof
    (run_within
       (fun x =>
          match x with
          | Dispatch PlayerEvent.Play d => [(PlayerEvent.Play, d)]
          | Dispatch PlayerEvent.Loop d => [(PlayerEvent.Loop, d)]
          | _ => []
          end)
       (configuredRenderer (self (world pg)))
       (playOrLoop (trace (world pg)))) as H.
  apply H.
  - intros e d H1 H2. destruct e; try reflexivity; contradiction.
  - reflexivity.
  - intros x Hx. destruct x; try reflexivity; contradiction.
  - split; reflexivity.
Qed.

(** X6. On an element configured for WebGPU or WebGL, nothing is ever put on
    the canvas by the element itself, whichever renderer is active and
    whatever the page does with the element (as in X5). *)
Theorem gpu_configuration_never_paints fuel events pg :
  configuredRenderer (self (world pg)) = Some WG
  \/ configuredRenderer (self (world pg)) = Some GL ->
  paints (trace (world (page (LottieElement.run fuel events pg))))
  = paints (trace (world pg)).
Proof.
  intros Hc.
  pose proof
    (run_within
       (fun x => match x with PutImageData a b => [(a, b)] | _ => [] end)
       (configuredRenderer (self (world pg)))
       (paints (trace (world pg)))) as H.
  apply H.
  - reflexivity.
  - intros H1 H2. destruct Hc as [Hc | Hc]; rewrite Hc in *; contradiction.
  - intros x Hx. destruct x; try reflexivity; contradiction.
  - split; reflexivity.
Qed.

End ElementNever.

(** ** The canvas *)

Section CanvasFacts.
Import LottiePlayer.
#[local] Transparent Qplus Qminus Qmult Qdiv Qinv Qopp Qle_bool Qeq_bool Qabs.

Lemma Num_gtb_iff a b : Num.gtb a b = true <-> b < a.
Proof.
  unfold Num.gtb. rewrite negb_true_iff, <- not_true_iff_false, Qle_bool_iff.
  split; [apply Qnot_le_lt | apply Qlt_not_le].
Qed.

Lemma Num_ltb_false a b : Num.ltb a b = false <-> b <= a.
Proof.
  unfold Num.ltb. rewrite negb_false_iff, Qle_bool_iff. reflexivity.
Qed.

Lemma Num_gtb_false a b : Num.gtb a b = false <-> a <= b.
Proof.
  unfold Num.gtb. rewrite negb_false_iff, Qle_bool_iff. reflexivity.
Qed.

Lemma Num_abs_neg a : a < 0 -> Num.abs a == - a.
Proof. intros H. unfold Num.abs. apply Qabs_neg. lra. Qed.

(** X7. The viewport handed to the engine never starts before the canvas and
    never ends after it: its origin is not negative, and its right and bottom
    edges do not pass the canvas size.  Its width is the canvas width less
    what the window cuts off on the left and on the right, so it is not
    negative exactly when the two cuts together are at most the canvas width,
    and likewise for the height: only then is the viewport a rectangle inside
    the canvas.  For an element that is entirely inside the window it is the
    whole canvas; for one that is far outside, the extent is negative. *)
Theorem viewport_edges_and_extent w tvg :
  _TVG (self w) = Some tvg ->
  let h := host (ambient w) in
  let cw := canvasWidth (self w) in
  let ch := canvasHeight (self w) in
  let cutLeft := if Num.ltb (rectLeft h) 0 then - rectLeft h else 0 in
  let cutTop := if Num.ltb (rectTop h) 0 then - rectTop h else 0 in
  let cutRight :=
    if Num.gtb (rectRight h) (innerWidth h)
    then rectRight h - innerWidth h else 0 in
  let cutBottom :=
    if Num.gtb (rectBottom h) (innerHeight h)
    then rectBottom h - innerHeight h else 0 in
  exists x y wd ht,
    _viewport w =
      Done (Returned tt)
        (mkWorld (self w) (ambient w) (trace w ++ [TvgViewport x y wd ht]))
    /\ 0 <= x /\ 0 <= y
    /\ x + wd <= cw /\ y + ht <= ch
    /\ wd == cw - cutLeft - cutRight
    /\ ht == ch - cutTop - cutBottom
    /\ (0 <= wd <-> cutLeft + cutRight <= cw)
    /\ (0 <= ht <-> cutTop + cutBottom <= ch)
    /\ (0 <= rectLeft h -> 0 <= rectTop h ->
        rectRight h <= innerWidth h -> rectBottom h <= innerHeight h ->
        x = 0 /\ y = 0 /\ wd = cw /\ ht = ch).
Proof.
  intros Ht h cw ch cutLeft cutTop cutRight cutBottom.
  subst h cw ch cutLeft cutTop cutRight cutBottom.
  destruct w as [p g t].
  destruct p as [? ? ? ? ? ? ? ? ? ? ? ? ? tv ? cw ch ? ? ? ? ?].
  simpl in Ht. subst tv. unfold _viewport. cbn.
  destruct (Num.ltb (rectLeft (host g)) 0) eqn:L;
    destruct (Num.ltb (rectTop (host g)) 0) eqn:T;
    destruct (Num.gtb (rectRight (host g)) (innerWidth (host g))) eqn:R;
    destruct (Num.gtb (rectBottom (host g)) (innerHeight (host g))) eqn:B;
    cbn; do 4 eexists; (split; [reflexivity|]);
    rewrite ?Num_ltb_iff, ?Num_ltb_false, ?Num_gtb_iff, ?Num_gtb_false in *;
    try (pose proof (Num_abs_neg _ L));
    try (pose proof (Num_abs_neg _ T));
    (repeat split; try lra);
    intros; try lra; repeat split; reflexivity.
Qed.

End CanvasFacts.

Section ResizeFacts.
Import LottiePlayer.
#[local] Opaque Qplus Qminus Qmult Qdiv Qinv Qopp Qle_bool Qeq_bool Qabs.


(** Whatever is assigned, what is stored is a whole number from 0 to
    2^31 - 1, the defaults being such numbers. *)
Lemma canvasDimension_whole d v :
  (exists z, d = inject_Z z /\ (0 <= z <= 2147483647)%Z) ->
  exists z, canvasDimension d v = inject_Z z /\ (0 <= z <= 2147483647)%Z.
Proof.
  intros [zd [-> Hd]]. unfold canvasDimension. cbv zeta.
  set (n := (Z.quot (Qnum v) (Zpos (Qden v)) mod 2 ^ 32)%Z).
  assert (Hn : (0 <= n)%Z) by (apply Z.mod_pos_bound; reflexivity).
  destruct (Z.leb_spec n 2147483647).
  - exists n. split; [reflexivity | lia].
  - exists zd. split; [reflexivity | exact Hd].
Qed.


End ResizeFacts.

(** ** The life of an element *)

Section DestroyFacts.
Import LottiePlayer LottieElement.
#[local] Opaque Qplus Qminus Qmult Qdiv Qinv Qopp Qle_bool Qeq_bool Qabs.

(** X9. [destroy()] deletes the engine once, disconnects the observer if
    there is one, dispatches [destroyed] and removes the element.  After it a
    second [destroy()], a tick of the animation loop and the three setters do
    nothing, while [play()] on an animation throws, the engine being gone. *)
Theorem destroy_once_and_after pg tvg :
  _TVG (self (world pg)) = Some tvg ->
  exists pg',
    destroy pg = Done (Returned tt) pg'
    /\ _TVG (self (world pg')) = None
    /\ currentState (self (world pg')) = PlayerState.Destroyed
    /\ trace (world pg') =
       trace (world pg)
         ++ [TvgDelete; Dispatch PlayerEvent.Destroyed NoDetail]
    /\ _observer (dom pg') = false
    /\ domLog (dom pg') =
       domLog (dom pg)
         ++ (if _observer (dom pg) then [ObserverDisconnect] else [])
         ++ [ElementRemove]
    /\ destroy pg' = Done (Returned tt) pg'
    /\ _animLoop (world pg') = Done (Returned tt) (world pg')
    /\ (forall b, setLooping b (world pg') = Done (Returned tt) (world pg'))
    /\ (forall q, setDirection q (world pg') = Done (Returned tt) (world pg'))
    /\ (forall q, setSpeed q (world pg') = Done (Returned tt) (world pg'))
    /\ (fileType (self (world pg)) = JSON \/ fileType (self (world pg)) = LOT ->
        exists e, play (world pg') = Done (Thrown e) (world pg')).
Proof.
  intros Ht. destruct pg as [[p g t] d].
  destruct p as [? ft ? ? ? ? ? ? ? ? ? ? ? tv ? ? ? ? ? ? ? ?].
  destruct d as [ob ? ? ? ? ? ? lg].
  simpl in Ht. subst tv. unfold destroy. cbn.
  destruct ob; cbn; eexists; (split; [reflexivity|]); cbn;
    rewrite <- ?app_assoc; cbn;
    (repeat split; try reflexivity);
    intros [-> | ->]; cbn; eexists; reflexivity.
Qed.

End DestroyFacts.

Section ModuleFacts.
Import LottiePlayer LottieElement.
#[local] Transparent Qplus Qminus Qmult Qdiv Qinv Qopp Qle_bool Qeq_bool Qabs.

(** Waiting for the module touches neither the player nor the trace. *)
Lemma waitForModule_still P T fuel w :
  self w = P /\ trace w = T ->
  Holds (fun w' => self w' = P /\ trace w' = T)
    (LottiePlayer.waitForModule fuel w).
Proof.
  assert (stable : forall e w0,
             self w0 = P /\ trace w0 = T ->
             self (interfere e w0) = P /\ trace (interfere e w0) = T)
    by (intros e [] H; exact H).
  revert w. induction fuel as [|fuel IH]; intros w H; simpl.
  - now apply holds_done.
  - unfold bind at 1. cbn. destruct (_module (ambient w)).
    + now apply holds_done.
    + apply holds_bind.
      * apply holds_suspend; [exact stable | exact H].
      * intros _ w' H'. now apply IH.
Qed.

(** X10. A call of [_init] on a player whose timer is not armed changes
    neither the player nor the trace, whatever happens to what is ambient (the
    clock, the geometry, the variables of the module) while it is suspended;
    when the module is there it returns at once, without being suspended.
    Calls that change the player itself while [_init] waits for the module
    are not covered: [_timer] is read after that wait. *)
Theorem init_without_timer_is_inert fuel w :
  _timer (self w) = false ->
  (forall sched,
      let w' := snd (drive (map interfere sched) (_init fuel w)) in
      self w' = self w /\ trace w' = trace w)
  /\ (forall m,
        _module (ambient w) = Some m -> (2 <= fuel)%nat ->
        _init fuel w = Done (Returned tt) w).
Proof.
  intros Ht. split; [|intros m Hm Hf; now apply (init_ready fuel w m)].
  intros sched.
  apply (runs_drive (fun _ w' => self w' = self w /\ trace w' = trace w)).
  assert (stable : forall e w0,
             self w0 = self w /\ trace w0 = trace w ->
             self (interfere e w0) = self w /\ trace (interfere e w0) = trace w)
    by (intros e [] H; exact H).
  destruct fuel as [|fuel]; simpl; [now constructor|].
  unfold bind at 1. cbn.
  apply holds_bind.
  { apply holds_when; [auto|]. intros _. now apply waitForModule_still. }
  intros _ w1 H1. unfold bind at 1. cbn.
  apply holds_bind.
  { destruct (_module (ambient w1)); [now apply holds_done|].
    apply holds_bind; [now apply holds_done|]. intros _ w2 H2.
    apply holds_bind; [now apply holds_suspend|]. intros _ w3 H3.
    unfold bind at 1. cbn.
    destruct (loadModule (host (ambient w3))); now apply holds_done. }
  intros _ w2 [H2 H2']. unfold bind at 1. cbn.
  rewrite H2, Ht. cbn. apply holds_done. auto.
Qed.

Lemma waitForModule_starves fuel w :
  _module (ambient w) = None ->
  drive [] (LottiePlayer.waitForModule fuel w) = (OutOfFuel, w).
Proof.
  intros H. induction fuel as [|fuel IH]; simpl; [reflexivity|].
  unfold bind at 1. cbn. rewrite H. cbn. exact IH.
Qed.

(** X11. Once the module has been asked for and is not there, [_init] polls
    for it and never ends by itself: whatever the fuel, it runs out of it
    with nothing changed.  [term()] leaves the page in that situation (and a
    second [term()] throws), and so does a module load that is rejected. *)
Theorem init_never_ends_without_module :
  (forall fuel w,
      _moduleRequested (ambient w) = true ->
      _module (ambient w) = None ->
      drive [] (_init fuel w) = (OutOfFuel, w))
  /\ (forall pg m,
        _module (ambient (world pg)) = Some m ->
        exists pg',
          term pg = Done (Returned tt) pg'
          /\ world pg' =
             mkWorld (self (world pg))
               (set__module None (ambient (world pg))) (trace (world pg))
          /\ domLog (dom pg') = domLog (dom pg) ++ [ModuleTerm]
          /\ exists e, term pg' = Done (Thrown e) pg')
  /\ (forall fuel w,
        _moduleRequested (ambient w) = false ->
        _module (ambient w) = None ->
        loadModule (host (ambient w)) = None ->
        exists e,
          drive [] (_init (S fuel) w) =
            (Thrown e,
             mkWorld (self w) (set__moduleRequested true (ambient w))
               (trace w))).
Proof.
  split; [|split].
  - intros fuel w Hr Hm. destruct fuel as [|fuel]; simpl; [reflexivity|].
    unfold bind at 1. cbn. rewrite Hr. cbn.
    rewrite drive_nil_andThen.
    rewrite (waitForModule_starves fuel w Hm). reflexivity.
  - intros [w d] m Hm. destruct w as [p g t].
    destruct g as [c h md mr st ir]. simpl in Hm. subst md.
    eexists. split; [reflexivity|]. cbn.
    repeat split. eexists. reflexivity.
  - intros fuel w Hr Hm Hl. destruct w as [p g t].
    destruct g as [c h md mr st ir]. simpl in *. subst.
    cbn. rewrite Hl. cbn. eexists. reflexivity.
Qed.

End ModuleFacts.

Section TickFacts.
Import LottiePlayer.
#[local] Opaque Qplus Qminus Qmult Qdiv Qinv Qopp Qle_bool Qeq_bool Qabs.

Ltac setters :=
  unfold set_fileType, set_direction, set_totalFrame, set_currentFrame,
    set_currentState, set__TVG, set_canvasWidth, set_canvasHeight,
    set__beginTime, set__counter, set__timer, set__observable,
    set__actualRenderer, flipDirection, resetToBoundary, countLeg in *.

(** The bookkeeping at the end of a leg touches the frame, the direction and
    the counter only. *)
Lemma leg_keeps (b1 b2 : bool) f q :
  let q' :=
    (if b1 then countLeg else fun p : Player => p)
      (if b2 then resetToBoundary (flipDirection (set_currentFrame f q))
       else set_currentFrame f q) in
  _TVG q' = _TVG q /\ fileType q' = fileType q
  /\ _observable q' = _observable q.
Proof. destruct q, b1, b2; repeat split; reflexivity. Qed.

Lemma restarted_keeps (b1 b2 : bool) f st st' bt tf q :
  let q' :=
    set_currentState st
      (set__beginTime bt
         (set_totalFrame tf
            (set_currentState st'
               ((if b1 then countLeg else fun p : Player => p)
                  (if b2
                   then resetToBoundary (flipDirection (set_currentFrame f q))
                   else set_currentFrame f q))))) in
  renderConfig q' = renderConfig q
  /\ canvasWidth q' = canvasWidth q
  /\ canvasHeight q' = canvasHeight q.
Proof. destruct q, b1, b2; repeat split; reflexivity. Qed.

Lemma rested_keeps st bt tf q :
  let q' :=
    set_currentState st (set__beginTime bt (set_totalFrame tf q)) in
  _TVG q' = _TVG q /\ fileType q' = fileType q
  /\ _observable q' = _observable q
  /\ currentState q' = st.
Proof. destruct q; repeat split; reflexivity. Qed.

(** X12. A [pause()] that arrives during the intermission of a repeating
    animation does not hold: when the intermission is over the tick calls
    [play()] whatever the state is, the player is Playing again, and two
    animation frames are requested, one by [play()] and one by the tick.
    (The image the engine renders is taken to fit the canvas, so that the
    render of this tick does not throw.) *)
Theorem pause_during_intermission_is_undone w tvg :
  currentState (self w) = PlayerState.Playing ->
  _TVG (self w) = Some tvg ->
  fileType (self w) = JSON \/ fileType (self w) = LOT ->
  Num.ltb (tvg_totalFrame tvg) 1 = false ->
  _observable (self w) = true ->
  paintable w tvg = true ->
  legOver (set_currentFrame (tickFrame w tvg) (self w)) = true ->
  repeats (self w) = true ->
  let r := drive [fun w1 => sync (pause w1)] (_animLoop w) in
  fst r = Returned tt
  /\ currentState (self (snd r)) = PlayerState.Playing
  /\ exists rest,
       trace (snd r) =
         trace w
           ++ Dispatch PlayerEvent.Pause NoDetail :: RequestAnimationFrame
           :: rest ++ [RequestAnimationFrame]
       /\ dispatched rest = [].
Proof.
  Opaque play _render tickFrame hasCount countLeg resetToBoundary
    flipDirection.
  intros Hs Ht Hf Hn Ho Hi Hover Hrep r.
  assert (G : exists wf rest,
             drive [fun w1 => sync (pause w1)] (_animLoop w)
             = (Returned tt, wf)
             /\ currentState (self wf) = PlayerState.Playing
             /\ trace wf =
                trace w
                  ++ Dispatch PlayerEvent.Pause NoDetail
                  :: RequestAnimationFrame :: rest ++ [RequestAnimationFrame]
             /\ dispatched rest = []);
    [| destruct G as [wf [rest [E [G1 [G2 G3]]]]]; subst r; rewrite E;
       simpl; eauto].
  pose proof (update_tick w tvg Hs Ht) as H. cbv zeta in H.
  rewrite Hover in H.
  replace (repeats (set_currentFrame (tickFrame w tvg) (self w))) with true in H
    by (destruct w as [q g t]; destruct q; symmetry; exact Hrep).
  destruct H as [k [H Hk]].
  unfold _animLoop. unfold bind at 1. cbn. rewrite Ht.
  unfold bind at 1, await, bind at 1. rewrite H. cbn.
  rewrite Hk.
  match goal with
  | |- context [play ?w0] =>
      rewrite (play_from_rest w0 tvg)
  end.
  - cbn. unfold bind at 1.
    match goal with
    | |- context [_render ?w0] =>
        destruct (render_returns w0 tvg) as [w' [rest [E [Ha [Hst [_ [_ [Htr Hd]]]]]]]]
    end.
    + cbn [self].
      destruct (rested_keeps PlayerState.Playing (clock (ambient w) / 1000)
                  (tvg_totalFrame tvg)
                  (set_currentState PlayerState.Paused
                     ((if hasCount
                            (set_currentFrame (tickFrame w tvg) (self w))
                       then countLeg else fun p : Player => p)
                        (if PlayMode_eqb (mode (self w)) Bounce
                         then resetToBoundary
                                (flipDirection
                                   (set_currentFrame (tickFrame w tvg)
                                      (self w)))
                         else set_currentFrame (tickFrame w tvg) (self w)))))
        as [R1 _].
      rewrite R1. clear R1.
      match goal with
      | |- _TVG (set_currentState _ ?q) = _ =>
          transitivity (_TVG q); [destruct q; reflexivity|]
      end.
      destruct (leg_keeps
                  (hasCount (set_currentFrame (tickFrame w tvg) (self w)))
                  (PlayMode_eqb (mode (self w)) Bounce)
                  (tickFrame w tvg) (self w)) as [L1 _].
      rewrite L1. exact Ht.
    + rewrite <- Hi. cbn [self ambient].
      destruct (restarted_keeps
                  (hasCount (set_currentFrame (tickFrame w tvg) (self w)))
                  (PlayMode_eqb (mode (self w)) Bounce)
                  (tickFrame w tvg) PlayerState.Playing PlayerState.Paused
                  (clock (ambient w) / 1000) (tvg_totalFrame tvg) (self w))
        as [K1 [K2 K3]].
      apply paintable_same; cbn [self ambient]; auto.
    + rewrite E. cbn.
      do 2 eexists. split; [reflexivity|]. cbn. split.
      * rewrite Hst. reflexivity.
      * split; [|exact Hd]. rewrite Htr. cbn.
        rewrite <- !app_assoc. reflexivity.
  - cbn [self].
    match goal with
    | |- currentState (set_currentState ?s ?q) <> _ =>
        replace (currentState (set_currentState s q)) with s
          by (destruct q; reflexivity)
    end.
    discriminate.
  - cbn [self].
    match goal with
    | |- _TVG (set_currentState _ ?q) = _ =>
        transitivity (_TVG q); [destruct q; reflexivity|]
    end.
    destruct (leg_keeps
                (hasCount (set_currentFrame (tickFrame w tvg) (self w)))
                (PlayMode_eqb (mode (self w)) Bounce)
                (tickFrame w tvg) (self w)) as [L1 _].
    rewrite L1. exact Ht.
  - cbn [self].
    match goal with
    | |- fileType (set_currentState _ ?q) = _ \/ _ =>
        replace (fileType (set_currentState PlayerState.Paused q))
          with (fileType q) by (destruct q; reflexivity)
    end.
    destruct (leg_keeps
                (hasCount (set_currentFrame (tickFrame w tvg) (self w)))
                (PlayMode_eqb (mode (self w)) Bounce)
                (tickFrame w tvg) (self w)) as [_ [L2 _]].
    rewrite L2. exact Hf.
  - exact Hn.
  - cbn [self].
    match goal with
    | |- _observable (set_currentState _ ?q) = _ =>
        transitivity (_observable q); [destruct q; reflexivity|]
    end.
    destruct (leg_keeps
                (hasCount (set_currentFrame (tickFrame w tvg) (self w)))
                (PlayMode_eqb (mode (self w)) Bounce)
                (tickFrame w tvg) (self w)) as [_ [_ L3]].
    rewrite L3. exact Ho.
  Transparent play _render tickFrame hasCount countLeg resetToBoundary
    flipDirection.
Qed.

(** X13. A tick of the animation loop on a player that is not Playing does
    nothing: no frame is computed, nothing is rendered and no further tick is
    asked for.  The tick on which a leg ends without a repeat leaves the
    player Stopped, after [complete] and [frame]: a tick after it is of the
    first kind. *)
Theorem animation_loop_rests w sched :
  (currentState (self w) <> PlayerState.Playing ->
   let r := drive (map interfere sched) (_animLoop w) in
   fst r = Returned tt /\ self (snd r) = self w /\ trace (snd r) = trace w)
  /\ (forall tvg,
        currentState (self w) = PlayerState.Playing ->
        _TVG (self w) = Some tvg ->
        legOver (set_currentFrame (tickFrame w tvg) (self w)) = true ->
        repeats (self w) = false ->
        let r := drive (map interfere sched) (_animLoop w) in
        currentState (self (snd r)) = PlayerState.Stopped
        /\ dispatched (trace (snd r)) =
           dispatched (trace w)
             ++ [(PlayerEvent.Complete, NoDetail);
                 (PlayerEvent.Frame, FrameDetail (tickFrame w tvg))]).
Proof.
  Opaque _render.
  split.
  - intros Hs r. subst r.
    apply (runs_drive
             (fun o w' => o = Returned tt /\ self w' = self w
                          /\ trace w' = trace w)).
    unfold _animLoop. unfold bind at 1. cbn.
    destruct (_TVG (self w)); [|constructor; auto].
    unfold bind at 1, await, bind at 1.
    rewrite (update_idle w Hs). cbn.
    constructor. intros e. constructor. destruct w; auto.
  - intros tvg Hs Ht Hover Hrep r. subst r.
    apply (runs_drive
             (fun (o : Outcome unit) w' =>
                currentState (self w') = PlayerState.Stopped
                /\ dispatched (trace w') =
                   dispatched (trace w)
                     ++ [(PlayerEvent.Complete, NoDetail);
                         (PlayerEvent.Frame,
                          FrameDetail (tickFrame w tvg))])).
    pose proof (update_tick w tvg Hs Ht) as H. cbv zeta in H.
    rewrite Hover in H.
    replace (repeats (set_currentFrame (tickFrame w tvg) (self w)))
      with false in H
      by (destruct w as [q g t]; destruct q; symmetry; exact Hrep).
    unfold _animLoop. unfold bind at 1. cbn. rewrite Ht.
    unfold bind at 1, await, bind at 1. rewrite H. cbn.
    constructor. intros e.
    destruct (tvg_frame tvg (tickFrame w tvg)); cbn.
    + unfold bind at 1.
      match goal with
      | |- context [_render ?w0] =>
          destruct (render_frame w0)
            as [o [w' [rest [E [_ [Hst [_ [_ [Htr [Hd _]]]]]]]]]]
      end.
      rewrite E.
      assert (Hs' : currentState (self w') = PlayerState.Stopped)
        by (rewrite Hst; destruct w as [q g t]; destruct q; reflexivity).
      destruct o; cbn; constructor; cbn; rewrite Hs', Htr; cbn;
        rewrite !dispatched_app, Hd; cbn; rewrite ?app_nil_r; auto.
    + constructor. cbn. rewrite dispatched_app.
      destruct w as [q g t]; destruct q; auto.
  Transparent _render.
Qed.

End TickFacts.

Section DetectionFacts.
Import LottiePlayer LottieElement.
#[local] Transparent Qplus Qminus Qmult Qdiv Qinv Qopp Qle_bool Qeq_bool Qabs.

Lemma sat_any_drive {W A} (Q : Outcome A -> W -> Prop) (x : Run W A) sched :
  Sat (fun _ => True) Q x -> Q (fst (drive sched x)) (snd (drive sched x)).
Proof.
  intros H. apply sat_drive with (I := fun _ => True); [exact H|].
  induction sched; constructor; auto.
Qed.

Lemma checkWebGPUSupport_answer navigator :
  exists webgpu,
    (forall w,
        Sat (fun _ => True) (fun o _ => o = Returned webgpu)
          (checkWebGPUSupport navigator w))
    /\ (webgpu = true <->
        exists g a d,
          gpu navigator = Some g
          /\ requestAdapter g = Gives (Some a)
          /\ requestDevice a = Gives d
          /\ device_destroy d = Gives tt).
Proof.
  destruct navigator as [[[ra]|]]; cbn.
  - destruct ra as [[[rd]|] | e].
    + destruct rd as [[dd] | e].
      * destruct dd as [[] | e].
        -- exists true. split.
           ++ intros w. unfold checkWebGPUSupport. cbn.
              constructor; [exact I|]. intros w1 _. cbn.
              constructor; [exact I|]. intros w2 _. cbn. now constructor.
           ++ split; [|reflexivity]. intros _. do 3 eexists.
              repeat split; reflexivity.
        -- exists false. split.
           ++ intros w. unfold checkWebGPUSupport. cbn.
              constructor; [exact I|]. intros w1 _. cbn.
              constructor; [exact I|]. intros w2 _. cbn. now constructor.
           ++ split; [discriminate|].
              intros [g [a [d [[= <-] [[= <-] [[= <-] H]]]]]]. discriminate.
      * exists false. split.
        -- intros w. unfold checkWebGPUSupport. cbn.
           constructor; [exact I|]. intros w1 _. cbn. now constructor.
        -- split; [discriminate|].
           intros [g [a [d [[= <-] [[= <-] [H _]]]]]]. discriminate.
    + exists false. split.
      * intros w. unfold checkWebGPUSupport. cbn.
        constructor; [exact I|]. intros w1 _. cbn. now constructor.
      * split; [discriminate|].
        intros [g [a [d [[= <-] [H _]]]]]. discriminate.
    + exists false. split.
      * intros w. unfold checkWebGPUSupport. cbn. now constructor.
      * split; [discriminate|].
        intros [g [a [d [[= <-] [H _]]]]]. discriminate.
  - exists false. split.
    + intros w. unfold checkWebGPUSupport. cbn. now constructor.
    + split; [discriminate|]. intros [g [a [d [H _]]]]. discriminate.
Qed.

Lemma checkWebGLSupport_answer document :
  exists webgl,
    (forall w, exists w',
        checkWebGLSupport document w = Done (Returned webgl) w')
    /\ (webgl = true <->
        exists getContext,
          createElement_canvas document = Gives getContext
          /\ (getContext "webgl" = Gives true
              \/ (getContext "webgl" = Gives false
                  /\ getContext "experimental-webgl" = Gives true))).
Proof.
  destruct document as [[gc | e]]; cbn.
  - destruct (gc "webgl") as [[] | e1] eqn:E1.
    + exists true. split.
      * intros w. unfold checkWebGLSupport. cbn; rewrite ?E1; cbn.
        eexists. reflexivity.
      * split; [|reflexivity]. intros _. exists gc. auto.
    + destruct (gc "experimental-webgl") as [[] | e2] eqn:E2.
      * exists true. split.
        -- intros w. unfold checkWebGLSupport. cbn; rewrite ?E1; cbn.
           rewrite ?E2; cbn. eexists. reflexivity.
        -- split; [|reflexivity]. intros _. exists gc. auto.
      * exists false. split.
        -- intros w. unfold checkWebGLSupport. cbn; rewrite ?E1; cbn.
           rewrite ?E2; cbn. eexists. reflexivity.
        -- split; [discriminate|].
           intros [gc' [[= <-] [H | [_ H]]]]; congruence.
      * exists false. split.
        -- intros w. unfold checkWebGLSupport. cbn; rewrite ?E1; cbn.
           rewrite ?E2; cbn. eexists. reflexivity.
        -- split; [discriminate|].
           intros [gc' [[= <-] [H | [_ H]]]]; congruence.
    + exists false. split.
      * intros w. unfold checkWebGLSupport. cbn; rewrite ?E1; cbn.
        eexists. reflexivity.
      * split; [discriminate|].
        intros [gc' [[= <-] [H | [H _]]]]; congruence.
  - exists false. split.
    + intros w. unfold checkWebGLSupport. cbn. eexists. reflexivity.
    + split; [discriminate|]. intros [gc' [H _]]. discriminate.
Qed.

(** X14. The GPU checks never throw and never reject.  [checkWebGPUSupport]
    answers [true] exactly when [navigator.gpu] is there, gives an adapter,
    the adapter gives a device and the device can be destroyed;
    [checkWebGLSupport] exactly when a canvas can be created and gives a
    [webgl] or an [experimental-webgl] context; any exception on the way is an
    answer [false].  [checkGPUSupport] answers the pair of the two. *)
Theorem gpu_checks_never_reject navigator document :
  exists webgpu webgl,
    (forall sched w,
        fst (drive sched (checkWebGPUSupport navigator w)) = Returned webgpu)
    /\ (webgpu = true <->
        exists g a d,
          gpu navigator = Some g
          /\ requestAdapter g = Gives (Some a)
          /\ requestDevice a = Gives d
          /\ device_destroy d = Gives tt)
    /\ (forall w, exists w',
          checkWebGLSupport document w = Done (Returned webgl) w')
    /\ (webgl = true <->
        exists getContext,
          createElement_canvas document = Gives getContext
          /\ (getContext "webgl" = Gives true
              \/ (getContext "webgl" = Gives false
                  /\ getContext "experimental-webgl" = Gives true)))
    /\ (forall sched w,
          fst (drive sched (checkGPUSupport navigator document w))
          = Returned (webgpu, webgl)).
Proof.
  Opaque checkWebGPUSupport checkWebGLSupport.
  destruct (checkWebGPUSupport_answer navigator) as [webgpu [Hg Hgi]].
  destruct (checkWebGLSupport_answer document) as [webgl [Hl Hli]].
  exists webgpu, webgl.
  split; [|split; [exact Hgi | split; [exact Hl | split; [exact Hli|]]]].
  - intros sched w.
    exact (sat_any_drive (fun o _ => o = Returned webgpu) _ sched (Hg w)).
  - intros sched w.
    apply (sat_any_drive (fun o _ => o = Returned (webgpu, webgl))).
    unfold checkGPUSupport. unfold bind at 1, spawn.
    pose proof (Hg w) as Hw.
    destruct (checkWebGPUSupport navigator w) as [o w1 | s w1 k]; cbn.
    + inversion Hw; subst. unfold bind at 1.
      destruct (Hl w1) as [w2 E]. rewrite E. cbn.
      constructor; [exact I|]. intros w3 _. now constructor.
    + inversion Hw as [| ? ? ? _ Hk]; subst. unfold bind at 1.
      destruct (Hl w1) as [w2 E]. rewrite E. cbn.
      constructor; [exact I|]. intros w3 _.
      specialize (Hk w3 I).
      induction Hk as [o w4 Ho | s' w4 k' _ _ IH]; cbn.
      * subst o. cbn. constructor; [exact I|]. intros w5 _. now constructor.
      * constructor; [exact I|]. intros w5 _. apply IH. exact I.
  Transparent checkWebGPUSupport checkWebGLSupport.
Qed.

End DetectionFacts.

Section LifecycleFacts.
Import LottiePlayer LottieElement.
#[local] Opaque Qplus Qminus Qmult Qdiv Qinv Qopp Qle_bool Qeq_bool Qabs.

Lemma replaceAll_removes c s :
  ~ In c (list_ascii_of_string (replaceAll c "" s)).
Proof.
  induction s as [|a s IH]; simpl; [auto|].
  destruct (Ascii.eqb a c) eqn:E; simpl; [exact IH|].
  intros [H | H]; [|now apply IH].
  subst. rewrite Ascii.eqb_refl in E. discriminate.
Qed.

Lemma substring_prefix n s :
  (String.length (substring 0 n s) <= n)%nat
  /\ forall c, In c (list_ascii_of_string (substring 0 n s)) ->
               In c (list_ascii_of_string s).
Proof.
  revert s. induction n as [|n IH]; intros s.
  - destruct s; simpl; split; auto; intros c [].
  - destruct s as [|a s]; simpl.
    + split; [lia | auto].
    + destruct (IH s) as [H1 H2]. split; [lia|].
      intros c [H | H]; auto.
Qed.

(** X15. [firstUpdated()] on an element with no engine names the canvas
    [thorvg-] followed by at most six characters of the uuid, none of them a
    dash, sizes it (the canvas stores its offset size, as it stores any
    size), starts observing and arms the timer; nothing is loaded.
    The first tick of the timer then constructs the engine for that canvas
    and disarms the timer, and a second tick does nothing. *)
Theorem first_update_then_init fuel pg :
  _TVG (self (world pg)) = None ->
  let id :=
    ("thorvg-" ++ substring 0 6 (replaceAll "-" "" (uuidv4 (dom pg))))%string
  in
  exists pg1,
    firstUpdated fuel pg = Done (Returned None) pg1
    /\ self (world pg1) =
       set__timer true
         (set_canvasHeight (canvas_height (offsetHeight (dom pg)))
            (set_canvasWidth (canvas_width (offsetWidth (dom pg)))
               (set_canvasId id (self (world pg)))))
    /\ ambient (world pg1) = ambient (world pg)
    /\ trace (world pg1) = trace (world pg)
    /\ _observer (dom pg1) = true
    /\ domLog (dom pg1) =
       domLog (dom pg) ++ [ObserverObserve; SetInterval 100]
    /\ (exists suffix,
          id = ("thorvg-" ++ suffix)%string
          /\ (String.length suffix <= 6)%nat
          /\ forall c, In c (list_ascii_of_string suffix) -> c <> "-"%char)
    /\ (forall m tvg,
          _module (ambient (world pg)) = Some m ->
          configuredRenderer (self (world pg)) = None ->
          _initStatus (ambient (world pg)) <> FAILED ->
          hasSrc (self (world pg)) = None ->
          TvgLottieAnimation m SW (Some ("#" ++ id)%string) = Some tvg ->
          (2 <= fuel)%nat ->
          exists w2,
            drive [] (_init fuel (world pg1)) = (Returned tt, w2)
            /\ _TVG (self w2) = Some tvg
            /\ actualRenderer (self w2) = Some SW
            /\ _timer (self w2) = false
            /\ trace w2 =
               trace (world pg)
                 ++ [ClearInterval; Construct SW (Some ("#" ++ id)%string)]
            /\ _init fuel w2 = Done (Returned tt) w2).
Proof.
  Opaque String.append substring replaceAll.
  intros Ht id. destruct pg as [[p g t] d].
  destruct p as [sr ft rc sp ap cn lp dr md' im tf cf cs tv cid cw ch bt ct
                   tm ob' ar].
  destruct d as [ob uu ow oh ? ? ? lg].
  simpl in Ht. subst tv. unfold firstUpdated. cbn.
  eexists. split; [reflexivity|]. cbn.
  rewrite <- app_assoc. repeat (split; [reflexivity|]).
  split.
  - exists (substring 0 6 (replaceAll "-" "" uu)). split; [reflexivity|].
    destruct (substring_prefix 6 (replaceAll "-" "" uu)) as [H1 H2].
    split; [exact H1|]. intros c Hc ->. apply H2 in Hc.
    now apply replaceAll_removes in Hc.
  - intros m tvg Hm Hc Hs Hsrc Htvg Hf. unfold id in *. cbn in Htvg.
    destruct fuel as [|[|fuel]]; try lia.
    destruct g as [ck h md mr st ir]. simpl in Hm, Hs. subst md.
    unfold configuredRenderer in Hc. simpl in Hc.
    unfold hasSrc in Hsrc. simpl in Hsrc.
    assert (Hst : InitStatus_eqb st FAILED = false)
      by (destruct st; try reflexivity; now elim Hs).
    Opaque requestedRenderer hasSrc.
    destruct mr; cbn;
      match goal with
      | |- context [requestedRenderer ?p] => set (P := p)
      end;
      (assert (Hq : requestedRenderer P = SW)
         by (with_strategy transparent [requestedRenderer]
               (unfold requestedRenderer, configuredRenderer; simpl;
                now rewrite Hc)));
      (assert (Hh : hasSrc (set__timer false P) = None)
         by (with_strategy transparent [hasSrc] (exact Hsrc)));
      rewrite Hq; cbn; rewrite Hst; cbn;
      rewrite Htvg; cbn; rewrite Hh; cbn;
      eexists; (split; [reflexivity|]); cbn; rewrite <- app_assoc;
      repeat (split; [reflexivity|]); reflexivity.
    Transparent requestedRenderer hasSrc.
  Transparent String.append substring replaceAll.
Qed.

End LifecycleFacts.

Section ExportFacts.
Import LottiePlayer LottieElement.
#[local] Transparent Qplus Qminus Qmult Qdiv Qinv Qopp Qle_bool Qeq_bool Qabs.

(** X16. Two runs of [save2gif(src)].  When nothing else runs while it waits
    for the source, it hands a file to the browser only when the saver has
    exported the animation and the exported file has at least six bytes, and
    in every other case it rejects; the saver is deleted exactly once if the
    source has been read, and not at all if it cannot be read.  When [term()]
    is called while it waits, it rejects, nothing is handed to the browser,
    and a saver that has exported is never deleted: [_module.FS] throws
    before [saver.delete()]. *)
Theorem save2gif_downloads_only_valid_exports pg m saver src :
  _module (ambient (world pg)) = Some m ->
  TvgLottieAnimation m SW (Some ("#" ++ canvasId (self (world pg)))%string)
  = Some saver ->
  let r := drive [] (save2gif src pg) in
  let d := dom pg in
  (match fst (drive [] (_parseSrc (SrcString src) JSON (world pg))) with
    | Returned bytes =>
        if saver_save d bytes "gif" then
          let data := FS_readFile d "output.gif" in
          if (List.length data <? 6)%nat then
            (exists e, fst r = Thrown e)
            /\ domLog (dom (snd r)) =
               domLog d ++ [SaverSave bytes "gif"; ReadFile "output.gif";
                            SaverDelete]
          else
            fst r = Returned tt
            /\ domLog (dom (snd r)) =
               domLog d ++ [SaverSave bytes "gif"; ReadFile "output.gif";
                            LinkAppend "output.gif" data; LinkClick; LinkRemove;
                            SaverDelete]
        else
          (exists e, fst r = Thrown e)
          /\ domLog (dom (snd r)) = domLog d ++ [SaverSave bytes "gif"; SaverDelete]
    | _ =>
        (exists e, fst r = Thrown e) /\ domLog (dom (snd r)) = domLog d
    end)
  /\ let r' := drive [fun pg' => snd (drive [] (term pg'))] (save2gif src pg) in
     match fst (drive [] (_parseSrc (SrcString src) JSON (world pg))) with
     | Returned bytes =>
         (exists e, fst r' = Thrown e)
         /\ domLog (dom (snd r')) =
            domLog d
              ++ ModuleTerm :: SaverSave bytes "gif"
              :: (if saver_save d bytes "gif" then [] else [SaverDelete])
     | _ =>
         (exists e, fst r' = Thrown e)
         /\ (domLog (dom (snd r')) = domLog d
             \/ domLog (dom (snd r')) = domLog d ++ [ModuleTerm])
     end.
Proof.
  Opaque String.append.
  intros Hm Hs r d. subst r d.
  destruct pg as [[p g t] d]. destruct g as [ck h md mr st ir].
  destruct d as [ob uu ow oh ss se fs lg].
  simpl in Hm, Hs. subst md.
  unfold save2gif, term, _parseSrc, _parseJSON, _parseLottieFromURL. cbn.
  rewrite Hs. cbn.
  destruct (JSON_parse h src) as [v|]; cbn;
    [| destruct (URL_href h src) as [url|]; cbn;
       [destruct (fetch_json h url) as [json|]; cbn|]];
    (split;
     [ repeat match goal with
         | |- context [if ?c then _ else _] => destruct c; cbn
         end;
       rewrite <- ?app_assoc; cbn; eauto
     | rewrite ?Hs; cbn;
       repeat match goal with
         | |- context [negb ?c] => destruct c; cbn
         | |- context [if ?c then _ else _] => destruct c; cbn
         end;
       rewrite <- ?app_assoc; cbn; eauto ]).
  Transparent String.append.
Qed.

End ExportFacts.

Section InitAccepted.
Import LottiePlayer.
#[local] Transparent Qplus Qminus Qmult Qdiv Qinv Qopp Qle_bool Qeq_bool Qabs.

(** The engine answers anything but 0 and 1 for a while, then 0: the loop ends
    with the status INITIALIZED. *)
Lemma initLoop_accepted pre : forall fuel w m rest,
  _module (ambient w) = Some m ->
  initResults (ambient w) = pre ++ 0%Z :: rest ->
  Forall (fun r => r <> 0 /\ r <> 1)%Z pre ->
  (List.length pre < fuel)%nat ->
  drive [] (initLoop fuel w) =
    (Returned tt,
     mkWorld (self w)
       (set__initStatus INITIALIZED (set_initResults rest (ambient w)))
       (trace w ++ repeat ModuleInit (S (List.length pre)))).
Proof.
  induction pre as [|r pre IH]; intros fuel w m rest Hm Hr Hp Hf;
    (destruct fuel as [|fuel]; [inversion Hf|]);
    destruct w as [p g t]; destruct g as [ck h md mr st rs];
    simpl in Hm, Hr; subst.
  - reflexivity.
  - inversion Hp as [|? ? [Hr0 Hr1] Hp']; subst.
    simpl in Hf. apply PeanoNat.lt_S_n in Hf.
    cbn [initLoop]. unfold bind at 1. cbn -[initLoop Z.eqb].
    replace (r =? 0)%Z with false by (symmetry; now apply Z.eqb_neq).
    replace (r =? 1)%Z with false by (symmetry; now apply Z.eqb_neq).
    destruct (r =? 2)%Z; cbn -[initLoop];
      rewrite (IH fuel _ m rest);
      [cbn; rewrite <- app_assoc; reflexivity
      | reflexivity | reflexivity | assumption | assumption
      | cbn; rewrite <- app_assoc; reflexivity
      | reflexivity | reflexivity | assumption | assumption].
Qed.

(** With the module there, a [load] called from [_init] leaves the world as
    it is before its first suspension. *)
Lemma spawn_load_still n src ft w m :
  _timer (self w) = false ->
  _module (ambient w) = Some m ->
  exists pr, spawn (load (_init n) src ft) w = Done (Returned pr) w.
Proof.
  intros Ht Hm. destruct w as [p g t].
  destruct p as [? ? ? ? ? ? ? ? ? ? ? ? ? ? ? ? ? ? ? tm ? ?].
  simpl in Ht. subst.
  destruct g as [ck h md mr st rs]. simpl in Hm. subst md.
  unfold spawn, load, tryCatch, await, bind.
  destruct n as [|n]; [eexists; cbn; reflexivity|].
  cbn.
  destruct mr; cbn.
  - destruct n as [|n]; cbn; eexists; reflexivity.
  - eexists; reflexivity.
Qed.

(** X17. When WebGPU is requested and the engine accepts it, after any number
    of answers that ask to try again, [_init] constructs the WebGPU engine,
    dispatches no fallback event and leaves the module initialised; the
    engine's [init] is then not called again: a later [_initModule] for
    WebGPU returns at once. *)
Theorem init_webgpu_accepted fuel w m tvg pre rest :
  _timer (self w) = true ->
  _module (ambient w) = Some m ->
  requestedRenderer (self w) = WG ->
  _initStatus (ambient w) <> REQUESTED ->
  _initStatus (ambient w) <> INITIALIZED ->
  initResults (ambient w) = pre ++ 0%Z :: rest ->
  Forall (fun r => r <> 0 /\ r <> 1)%Z pre ->
  (List.length pre < fuel)%nat ->
  TvgLottieAnimation m WG (Some ("#" ++ canvasId (self w))%string) = Some tvg ->
  exists w',
    drive [] (_init (S fuel) w) = (Returned tt, w')
    /\ _actualRenderer (self w') = Some WG
    /\ _TVG (self w') = Some tvg
    /\ constructed (trace w') = constructed (trace w) ++ [WG]
    /\ fallbacks (trace w') = fallbacks (trace w)
    /\ _initStatus (ambient w') = INITIALIZED
    /\ initResults (ambient w') = rest
    /\ forall w2,
         ambient w2 = ambient w' ->
         LottiePlayer._initModule (S fuel) WG w2 = Done (Returned tt) w2.
Proof.
  Opaque initLoop spawn fallbackMessage String.append hasSrc.
  intros Ht Hm Hreq Hs1 Hs2 Hr Hp Hf Htvg.
  cbn [_init].
  destruct fuel as [|fuel]; [inversion Hf|].
  destruct w as [p g t].
  destruct p as [sr ft rc ? ? ? ? ? ? ? ? ? ? ? cid ? ? ? ? tm ? ?].
  destruct g as [ck h md mr st rs].
  cbn [self ambient trace _timer _module _initStatus initResults canvasId]
    in *.
  subst tm md rs.
  assert (Hrc : exists d, rc = Some {| enableDevicePixelRatio := d;
                                       renderer := Some WG |}).
  { unfold requestedRenderer, configuredRenderer in Hreq. cbn in Hreq.
    destruct rc as [[d [r|]]|]; cbn in Hreq; try discriminate.
    subst. eauto. }
  destruct Hrc as [d ->].
  assert (Hst : InitStatus_eqb st REQUESTED = false
                /\ InitStatus_eqb st INITIALIZED = false).
  { destruct st; split; try reflexivity; congruence. }
  destruct Hst as [Hst1 Hst2].
  destruct mr; cbn -[_init]; rewrite Hst1; cbn -[_init]; rewrite Hst2;
    cbn -[_init].
  all: rewrite !drive_nil_andThen.
  all: erewrite initLoop_accepted;
    [| reflexivity | reflexivity | eassumption | assumption].
  all: cbn -[_init]; rewrite Htvg; cbn -[_init].
  all: match goal with
       | |- context [hasSrc ?p] => destruct (hasSrc p) as [s|]
       end; cbn -[_init].
  all: try (unfold bind at 1;
            match goal with
            | |- context [spawn (load (_init ?n) ?src ?ft) ?w0] =>
                destruct (spawn_load_still n src ft w0 m)
                  as [pr E]; [reflexivity | reflexivity |];
                rewrite E; cbn -[_init]
            end).
  all: try (eexists; split; [reflexivity|]).
  all: cbn [self trace ambient _actualRenderer _TVG set__actualRenderer
              set__TVG set__timer _initStatus initResults set__initStatus
              set_initResults].
  all: repeat split; try reflexivity.
  all: try (change (ModuleInit :: repeat ModuleInit (List.length pre))
              with (repeat ModuleInit (S (List.length pre)));
            rewrite ?constructed_app, ?fallbacks_app, ?constructed_ModuleInit,
              ?fallbacks_ModuleInit; cbn; rewrite ?app_nil_r; reflexivity).
  all: intros w2 Hw2; destruct w2 as [p2 g2 t2]; simpl in Hw2; subst g2;
       reflexivity.
  Transparent initLoop spawn fallbackMessage String.append hasSrc.
Qed.

End InitAccepted.

(** ** The worker, message by message *)

Section WorkerAnswers.
Import LottieWorker.
#[local] Opaque Qplus Qminus Qmult Qdiv Qinv Qopp Qle_bool Qeq_bool Qabs.

(** X18. A LOAD is answered exactly once, with LOADED or with ERROR, and
    [loadLottieData] never throws.  LOADED carries the frame count and the
    size the engine reports, and the worker takes its frame count and
    duration from the engine; after ERROR they are what they were.  On a
    worker that is not initialised the answer is ERROR, and neither the
    network nor the engine is touched. *)
Theorem load_is_answered_once src ft w :
  let r := drive [] (loadLottieData src ft w) in
  let w' := snd r in
  fst r = Returned tt
  /\ ((exists tvg,
         _TVG w = Some tvg
         /\ posted w' =
            posted w ++ [LOADED (tvg_totalFrame tvg) (tvg_size tvg)]
         /\ _totalFrames w' = tvg_totalFrame tvg
         /\ _duration w' = tvg_duration tvg)
      \/ (posted w' = posted w ++ [ERROR "Failed to load Lottie data"]
          /\ _totalFrames w' = _totalFrames w
          /\ _duration w' = _duration w))
  /\ (_isInitialized w = false \/ _TVG w = None ->
      posted w' = posted w ++ [ERROR "Failed to load Lottie data"]
      /\ calls w' = calls w).
Proof.
  Opaque String.append.
  intros r w'. subst w' r.
  destruct w as [md mr tv ini ci pl st sp tf du af uo oc ox ist nw wh po dr ca].
  unfold loadLottieData. cbn.
  destruct ini; cbn.
  2: { split; [reflexivity|]. split; [right; auto|]. auto. }
  destruct tv as [tvg|]; cbn.
  2: { split; [reflexivity|]. split; [right; auto|]. auto. }
  assert (Hno : true = false \/ Some tvg = None ->
                forall P : Prop, P)
    by (intros [H | H]; discriminate).
  destruct src as [s | b | o |]; cbn.
  - destruct (FileType_eqb ft JSON || FileType_eqb ft LOT); cbn.
    + destruct (JSON_parse wh s) as [v|]; cbn.
      * destruct (tvg_load tvg _ ft _ _ ""); cbn;
          (split; [reflexivity|]); (split; [|intros H; now apply Hno]);
          [left; exists tvg; auto | right; auto].
      * destruct (URL_href wh s) as [url|]; cbn.
        -- destruct (fetch_json wh url) as [json|]; cbn.
           ++ destruct (tvg_load tvg _ ft _ _ ""); cbn;
                (split; [reflexivity|]); (split; [|intros H; now apply Hno]);
                [left; exists tvg; auto | right; auto].
           ++ (split; [reflexivity|]); (split; [|intros H; now apply Hno]).
              right; auto.
        -- (split; [reflexivity|]); (split; [|intros H; now apply Hno]).
           right; auto.
    + destruct (fetch_arrayBuffer wh s) as [buf|]; cbn.
      * destruct (tvg_load tvg _ ft _ _ ""); cbn;
          (split; [reflexivity|]); (split; [|intros H; now apply Hno]);
          [left; exists tvg; auto | right; auto].
      * (split; [reflexivity|]); (split; [|intros H; now apply Hno]).
        right; auto.
  - destruct (tvg_load tvg _ ft _ _ ""); cbn;
      (split; [reflexivity|]); (split; [|intros H; now apply Hno]);
      [left; exists tvg; auto | right; auto].
  - destruct (tvg_load tvg _ ft _ _ ""); cbn;
      (split; [reflexivity|]); (split; [|intros H; now apply Hno]);
      [left; exists tvg; auto | right; auto].
  - (split; [reflexivity|]); (split; [|intros H; now apply Hno]).
    right; auto.
  Transparent String.append.
Qed.

Lemma worker_waitForModule_starves fuel w :
  _module w = None ->
  drive [] (waitForModule fuel w) = (OutOfFuel, w).
Proof.
  intros H. induction fuel as [|fuel IH]; simpl; [reflexivity|].
  unfold bind at 1. cbn. rewrite H. cbn. exact IH.
Qed.

Lemma drive_nil_orElse {W A} (x : Run W A) (h : string -> Async W A) :
  drive [] (orElse x h) =
    match drive [] x with
    | (Thrown e, w) => drive [] (h e w)
    | other => other
    end.
Proof.
  induction x as [o w | s w k IH]; simpl.
  - destruct o; reflexivity.
  - apply IH.
Qed.

(** X19. An INIT on a worker that is not waiting for its module is answered
    exactly once: with READY, the engine being there and the worker
    initialised, or with ERROR, the worker being as initialised as it was.
    When the module load is rejected the answer is ERROR and the module stays
    asked for; an INIT that finds it so waits for the module and is never
    answered. *)
Theorem init_is_answered_once_or_never fuel wasmUrl rc u oc w :
  let w' := turn fuel (Message (INIT wasmUrl rc u oc)) w in
  (_moduleRequested w = false \/ (exists m, _module w = Some m) ->
   (posted w' = posted w ++ [READY]
    /\ _isInitialized w' = true
    /\ exists tvg, _TVG w' = Some tvg)
   \/ (posted w' = posted w ++ [ERROR "Worker initialization failed"]
       /\ _isInitialized w' = _isInitialized w
       /\ _TVG w' = _TVG w))
  /\ (_moduleRequested w = false -> _module w = None ->
      loadModule (whost w) = None ->
      posted w' = posted w ++ [ERROR "Worker initialization failed"]
      /\ _moduleRequested w' = true
      /\ _module w' = None)
  /\ (_moduleRequested w = true -> _module w = None ->
      fst (drive [] (initializeWorker fuel wasmUrl rc u oc w)) = OutOfFuel
      /\ posted w' = posted w).
Proof.
  Opaque String.append.
  intros w'. subst w'.
  destruct w as [md mr tv ini ci pl st sp tf du af uo oc' ox ist nw wh po dr ca].
  cbn [_moduleRequested _module whost posted _isInitialized _TVG].
  split; [|split].
  - intros Hm.
    assert (Hmd : exists lm, (md = None -> mr = false /\ loadModule wh = lm)
                             /\ (md <> None -> lm = md)).
    { destruct md as [m|].
      - exists (Some m). split; [discriminate | reflexivity].
      - exists (loadModule wh). split; [|congruence].
        intros _. split; [|reflexivity].
        destruct Hm as [H | [m H]]; [exact H | discriminate]. }
    destruct Hmd as [lm [Hn Hs]].
    destruct md as [[mk]|].
    + clear Hn Hm.
      destruct (mk SW (Some "")) as [t1|] eqn:E1;
        destruct (mk SW None) as [t2|] eqn:E2;
        destruct mr, u as [[]|], oc as [c|], ist; vm_compute;
        rewrite ?E1; vm_compute; rewrite ?E2; vm_compute;
        first [ left; repeat split; eauto; fail
              | right; repeat split; reflexivity ].
    + destruct (Hn eq_refl) as [-> Hl]. clear Hn Hs Hm.
      destruct wh as [? ? ? ? ? ? ? ? ? ? ? ? ? ? ? ld ?].
      cbn in Hl. subst ld.
      destruct lm as [[mk]|];
        [ destruct (mk SW (Some "")) as [t1|] eqn:E1;
          destruct (mk SW None) as [t2|] eqn:E2 |];
        destruct u as [[]|], oc as [c|], ist; vm_compute;
        rewrite ?E1; vm_compute; rewrite ?E2; vm_compute;
        first [ left; repeat split; eauto; fail
              | right; repeat split; reflexivity ].
  - intros -> -> Hl. unfold turn, onmessage, initializeWorker. cbn.
    destruct u as [[]|]; destruct oc as [c|]; cbn; rewrite Hl; cbn;
      repeat split; reflexivity.
  - intros -> ->. unfold turn, onmessage, initializeWorker, await.
    unfold tryCatch, bind. cbn.
    destruct u as [[]|]; destruct oc as [c|]; cbn;
      rewrite ?drive_nil_andThen, ?drive_nil_orElse, ?drive_nil_andThen,
        ?worker_waitForModule_starves by reflexivity;
      cbn; split; reflexivity.
  Transparent String.append.
Qed.

(** X20. [renderFrame(n)] never throws and posts at most one response: a FRAME
    for frame [n], or ERROR.  With an offscreen canvas in use the FRAME
    carries no image (the image, if any, was put on that canvas); otherwise
    it carries the image, with the size of the canvas information.  On a
    worker that is not initialised it does nothing at all. *)
Theorem renderFrame_answers_at_most_once n w :
  exists w',
    renderFrame n w = Done (Returned tt) w'
    /\ (posted w' = posted w
        \/ (exists canvas,
              offscreenTarget w = Some canvas
              /\ posted w' = posted w ++ [FRAME None n true]
              /\ (drawn w' = drawn w
                  \/ exists px,
                       drawn w' =
                         drawn w
                           ++ [{| pixels := px;
                                  imageWidth := offscreenWidth canvas;
                                  imageHeight := offscreenHeight canvas |}]))
        \/ (exists info px,
              offscreenTarget w = None
              /\ _currentCanvasInfo w = Some info
              /\ drawn w' = drawn w
              /\ posted w' =
                 posted w
                   ++ [FRAME
                         (Some {| pixels := px;
                                  imageWidth := width info;
                                  imageHeight := height info |})
                         n false])
        \/ posted w' = posted w ++ [ERROR "Frame rendering failed"])
    /\ (_isInitialized w = false \/ _TVG w = None -> w' = w).
Proof.
  destruct w as [md mr tv ini ci pl st sp tf du af uo oc ox ist nw wh po dr ca].
  unfold renderFrame, renderInto, offscreenTarget, newImageData. cbn.
  destruct ini; cbn; [|eexists; split; [reflexivity|]; auto].
  destruct tv as [tvg|]; cbn; [|eexists; split; [reflexivity|]; auto].
  assert (Hno : true = false \/ Some tvg = None -> forall P : Prop, P)
    by (intros [H | H]; discriminate).
  destruct uo; cbn.
  - destruct oc as [canvas|]; cbn.
    + destruct ox; cbn.
      * destruct (tvg_update tvg); cbn.
        -- destruct (tvg_render tvg) as [|px0 px]; cbn.
           ++ eexists. split; [reflexivity|].
              split; [|intros H; now apply Hno].
              right. left. exists canvas. cbn. auto.
           ++ destruct (ImageData_ok wh (px0 :: px) _ _); cbn;
                eexists; (split; [reflexivity|]);
                (split; [|intros H; now apply Hno]); cbn.
              ** right. left. exists canvas. cbn. repeat split. right.
                 eexists. reflexivity.
              ** right. right. right. reflexivity.
        -- eexists. split; [reflexivity|].
           split; [|intros H; now apply Hno]. left. reflexivity.
      * destruct ci as [info|]; cbn.
        -- destruct (viewportInfo info) as [v|]; cbn;
             destruct (tvg_update tvg); cbn;
             try (eexists; split; [reflexivity|];
                  split; [|intros H; now apply Hno]; left; reflexivity);
             (destruct (tvg_render tvg) as [|px0 px]; cbn;
              [eexists; split; [reflexivity|];
               split; [|intros H; now apply Hno]; left; reflexivity|]);
             destruct (ImageData_ok wh (px0 :: px) _ _); cbn;
             eexists; (split; [reflexivity|]);
             (split; [|intros H; now apply Hno]); cbn;
             solve [right; right; left; do 2 eexists; repeat split; reflexivity
                   | right; right; right; reflexivity].
        -- eexists. split; [reflexivity|].
           split; [|intros H; now apply Hno]. left. reflexivity.
    + destruct ci as [info|]; cbn.
      * destruct (viewportInfo info) as [v|]; cbn;
          destruct (tvg_update tvg); cbn;
          try (eexists; split; [reflexivity|];
               split; [|intros H; now apply Hno]; left; reflexivity);
          (destruct (tvg_render tvg) as [|px0 px]; cbn;
           [eexists; split; [reflexivity|];
            split; [|intros H; now apply Hno]; left; reflexivity|]);
          destruct (ImageData_ok wh (px0 :: px) _ _); cbn;
          eexists; (split; [reflexivity|]);
          (split; [|intros H; now apply Hno]); cbn;
          solve [right; right; left; do 2 eexists; repeat split; reflexivity
                | right; right; right; reflexivity].
      * eexists. split; [reflexivity|].
        split; [|intros H; now apply Hno]. left. reflexivity.
  - destruct ci as [info|]; cbn.
    + destruct (viewportInfo info) as [v|]; cbn;
        destruct (tvg_update tvg); cbn;
        try (eexists; split; [reflexivity|];
             split; [|intros H; now apply Hno]; left; reflexivity);
        (destruct (tvg_render tvg) as [|px0 px]; cbn;
         [eexists; split; [reflexivity|];
          split; [|intros H; now apply Hno]; left; reflexivity|]);
        destruct (ImageData_ok wh (px0 :: px) _ _); cbn;
        eexists; (split; [reflexivity|]);
        (split; [|intros H; now apply Hno]); cbn;
        solve [right; right; left; do 2 eexists; repeat split; reflexivity
              | right; right; right; reflexivity].
    + eexists. split; [reflexivity|].
      split; [|intros H; now apply Hno]. left. reflexivity.
Qed.

End WorkerAnswers.

#[local] Transparent Qplus Qminus Qmult Qdiv Qinv Qopp Qle_bool Qeq_bool Qabs.

Section NumFacts.

Lemma Num_floor_bounds x :
  0 <= x -> 0 <= Num.floor x /\ Num.floor x <= x.
Proof.
  intros H. unfold Num.floor. split; [|apply Qfloor_le].
  change 0 with (inject_Z 0). rewrite <- Zle_Qle.
  change 0%Z with (Qfloor 0). now apply Qfloor_resp_le.
Qed.

Lemma Num_rem_bounds a b :
  0 <= a -> 0 < b -> 0 <= Num.rem a b /\ Num.rem a b < b.
Proof.
  intros Ha Hb. unfold Num.rem.
  assert (Hq : 0 <= a / b).
  { unfold Qdiv. apply Qmult_le_0_compat; [exact Ha|].
    apply Qinv_le_0_compat. lra. }
  assert (Hz : (Z.quot (Qnum (a / b)) (Zpos (Qden (a / b)))
                = Qfloor (a / b))%Z).
  { destruct (a / b) as [n d] eqn:E. simpl.
    apply Z.quot_div_nonneg; [|reflexivity].
    unfold Qle in Hq. simpl in Hq. lia. }
  rewrite Hz.
  pose proof (Qfloor_le (a / b)) as H1.
  pose proof (Qlt_floor (a / b)) as H2.
  rewrite inject_Z_plus in H2. change (inject_Z 1) with 1 in H2.
  set (k := inject_Z (Qfloor (a / b))) in *.
  assert (E : b * (a / b) == a) by (field; lra).
  assert (L1 : b * k <= b * (a / b)) by (apply Qmult_le_l; assumption).
  assert (L2 : b * (a / b) < b * (k + 1)) by (apply Qmult_lt_l; assumption).
  rewrite E in L1, L2. split; lra.
Qed.

Lemma frameNumber_at_start (nw sp du tf : Q) :
  (nw - nw) / 1000 * sp / du * tf == 0.
Proof. unfold Qdiv. ring. Qed.

Lemma Num_floor_zero x : x == 0 -> Num.floor x = 0.
Proof.
  intros H. unfold Num.floor. rewrite (Qfloor_comp _ _ H). reflexivity.
Qed.

Lemma Num_geb_comp a b c : a == b -> Num.geb a c = Num.geb b c.
Proof.
  intros H. unfold Num.geb.
  destruct (Qle_bool c a) eqn:E1, (Qle_bool c b) eqn:E2; try reflexivity.
  - apply Qle_bool_iff in E1. rewrite H in E1. apply Qle_bool_iff in E1.
    congruence.
  - apply Qle_bool_iff in E2. rewrite <- H in E2. apply Qle_bool_iff in E2.
    congruence.
Qed.

End NumFacts.

Section WorkerClock.
Import LottieWorker.

Lemma frameNumber_nonneg (nw st sp du tf : Q) :
  st <= nw -> 0 <= sp -> 0 < du -> 0 < tf ->
  0 <= (nw - st) / 1000 * sp / du * tf.
Proof.
  intros H1 H2 H3 H4. unfold Qdiv.
  repeat apply Qmult_le_0_compat; try lra;
    apply Qinv_le_0_compat; lra.
Qed.

#[local] Opaque Qplus Qminus Qmult Qdiv Qinv Qopp Qle_bool Qeq_bool Qabs.

(** X21. While time does not run backwards, the frame a tick of the worker
    hands to the engine is a whole number from 0 up to, and not including,
    the frame count. *)
Theorem tick_frame_is_in_range fuel w tvg info :
  _animationFrame w = true ->
  _isPlaying w = true ->
  _isInitialized w = true ->
  _TVG w = Some tvg ->
  _currentCanvasInfo w = Some info ->
  _animationStartTime w <= now w ->
  0 <= _animationSpeed w ->
  0 < _duration w ->
  0 < _totalFrames w ->
  exists n added,
    calls (turn fuel IntervalFires w) = calls w ++ added
    /\ In (TvgFrame n) added
    /\ (forall m, In (TvgFrame m) added -> m = n)
    /\ 0 <= n /\ n < _totalFrames w
    /\ exists z, n = inject_Z z.
Proof.
  intros Haf Hpl Hin Htvg Hci Hnow Hsp Hdu Htf.
  rewrite (turn_IntervalFires w Haf).
  destruct w as [md mr tv ini ci pl st sp tf du af uo oc' ox ist nw wh po dr ca].
  simpl in *. subst.
  pose proof (frameNumber_nonneg nw st sp du tf Hnow Hsp Hdu Htf) as Hf.
  unfold intervalCallback. cbn.
  set (f := (nw - st) / 1000 * sp / du * tf) in *.
  assert (Hn : exists n,
             (if Num.geb f tf then Num.floor (Num.rem f tf) else Num.floor f)
             = n
             /\ 0 <= n /\ n < tf /\ exists z, n = inject_Z z).
  { destruct (Num.geb f tf) eqn:G.
    - destruct (Num_rem_bounds f tf Hf Htf) as [R1 R2].
      destruct (Num_floor_bounds _ R1) as [F1 F2].
      eexists. split; [reflexivity|]. repeat split; try lra.
      eexists. reflexivity.
    - destruct (Num_floor_bounds _ Hf) as [F1 F2].
      assert (f < tf).
      { unfold Num.geb in G. apply Qnot_le_lt. intros C.
        apply Qle_bool_iff in C. congruence. }
      eexists. split; [reflexivity|]. repeat split; try lra.
      eexists. reflexivity. }
  destruct Hn as [n [En [N1 [N2 N3]]]]. exists n.
  destruct (Num.geb f tf); cbn; rewrite En;
    unfold renderFrame, renderInto, offscreenTarget, newImageData; cbn;
    destruct uo, oc' as [c|], ox; cbn;
      repeat (match goal with
              | |- context [viewportInfo info] =>
                  destruct (viewportInfo info); cbn
              | |- context [tvg_update tvg] =>
                  destruct (tvg_update tvg); cbn
              | |- context [List.length (tvg_render tvg)] =>
                  destruct (tvg_render tvg); cbn
              | |- context [if ImageData_ok ?h ?b ?x ?y then _ else _] =>
                  destruct (ImageData_ok h b x y); cbn
              end);
      rewrite <- ?app_assoc; cbn;
      eexists; (split; [reflexivity|]);
      (split; [simpl; tauto|]);
      (split; [intros m Hm; simpl in Hm;
               repeat (destruct Hm as [Hm | Hm]; try discriminate;
                       try (injection Hm as <-; reflexivity));
               contradiction|]);
      auto.
Qed.

(** X22. A PLAY while the loop is running changes nothing.  A PAUSE stops the
    loop, and the next PLAY restarts the clock at the present: the position
    reached is not kept, and a tick at that instant hands frame 0 to the
    engine. *)
Theorem play_restarts_the_worker_clock fuel w :
  (_isPlaying w = true -> turn fuel (Message PLAY) w = w)
  /\ (let w1 := turns fuel [Message PAUSE; Message PLAY] w in
      _isPlaying w1 = true
      /\ _animationFrame w1 = true
      /\ _animationStartTime w1 = now w
      /\ posted w1 = posted w /\ calls w1 = calls w)
  /\ (forall tvg info,
        _isInitialized w = true ->
        _TVG w = Some tvg ->
        _currentCanvasInfo w = Some info ->
        0 < _duration w ->
        0 < _totalFrames w ->
        exists pre post,
          calls (turns fuel [Message PAUSE; Message PLAY; IntervalFires] w)
          = calls w ++ pre ++ TvgFrame 0 :: post).
Proof.
  destruct w as [md mr tv ini ci pl st sp tf du af uo oc' ox ist nw wh po dr ca].
  split; [|split].
  - simpl. intros ->. reflexivity.
  - cbn. destruct af; cbn; repeat split; reflexivity.
  - intros tvg info Hin Htvg Hci _ Htf. simpl in Hin, Htvg, Hci, Htf. subst.
    assert (G : Num.geb ((nw - nw) / 1000 * sp / du * tf) tf = false).
    { rewrite (Num_geb_comp _ 0 tf (frameNumber_at_start nw sp du tf)).
      unfold Num.geb. destruct (Qle_bool tf 0) eqn:E; [|reflexivity].
      apply Qle_bool_iff in E. lra. }
    assert (F : Num.floor ((nw - nw) / 1000 * sp / du * tf) = 0)
      by (apply Num_floor_zero, frameNumber_at_start).
    unfold turns. cbn -[Num.geb Num.floor].
    destruct af; cbn -[Num.geb Num.floor];
      unfold intervalCallback; cbn -[Num.geb Num.floor];
      rewrite G; cbn -[Num.geb Num.floor]; rewrite F;
      unfold renderFrame, renderInto, offscreenTarget, newImageData; cbn;
      destruct uo, oc' as [c|], ox; cbn;
      repeat (match goal with
              | |- context [viewportInfo info] =>
                  destruct (viewportInfo info); cbn
              | |- context [tvg_update tvg] =>
                  destruct (tvg_update tvg); cbn
              | |- context [List.length (tvg_render tvg)] =>
                  destruct (tvg_render tvg); cbn
              | |- context [if ImageData_ok ?h ?b ?x ?y then _ else _] =>
                  destruct (ImageData_ok h b x y); cbn
              end);
      rewrite <- ?app_assoc; cbn;
      first [ exists [], []; reflexivity
            | eexists [_], _; reflexivity
            | eexists [_; _], _; reflexivity
            | eexists [_], []; reflexivity
            | eexists [_; _], []; reflexivity ].
Qed.

End WorkerClock.

Section SourceAgreement.
Import LottieWorker.
#[local] Opaque Qplus Qminus Qmult Qdiv Qinv Qopp Qle_bool Qeq_bool Qabs.

(** X23. The worker reads a source as the main-thread player does.  On the
    same host, an initialised worker given LOAD fetches what [_parseSrc]
    fetches, in the same order; where [_parseSrc] answers bytes the worker
    hands exactly those bytes to its engine, and where [_parseSrc] throws the
    worker answers ERROR without touching the engine. *)
Theorem worker_reads_sources_like_the_player fuel src ft w pw tvg :
  _isInitialized w = true ->
  _TVG w = Some tvg ->
  whost w = LottiePlayer.host (LottiePlayer.ambient pw) ->
  let r := drive [] (LottiePlayer._parseSrc src ft pw) in
  let w' := turn fuel (Message (LOAD src ft)) w in
  exists fx,
    LottiePlayer.trace (snd r) = LottiePlayer.trace pw ++ fx
    /\ match fst r with
       | Returned bytes =>
           exists wd ht, calls w' = calls w ++ fx ++ [TvgLoad bytes ft wd ht]
       | _ =>
           calls w' = calls w ++ fx
           /\ posted w' = posted w ++ [ERROR "Failed to load Lottie data"]
       end.
Proof.
  Opaque String.append.
  intros Hin Htvg Hh r w'. subst r w'.
  destruct w as [md mr tv ini ci pl st sp tf du af uo oc ox ist nw wh po dr ca].
  destruct pw as [p g t]. simpl in Hin, Htvg, Hh. subst ini tv wh.
  unfold turn, onmessage, loadLottieData, LottiePlayer._parseSrc,
    LottiePlayer._parseJSON, LottiePlayer._parseLottieFromURL,
    LottiePlayer._parseImageFromURL.
  cbn.
  destruct src as [s | b | o |]; cbn.
  - destruct (FileType_eqb ft JSON || FileType_eqb ft LOT); cbn.
    + destruct (JSON_parse (LottiePlayer.host g) s) as [v|]; cbn.
      * exists []. split; [now rewrite app_nil_r|].
        destruct (tvg_load tvg _ ft _ _ ""); cbn; eauto.
      * destruct (URL_href (LottiePlayer.host g) s) as [url|]; cbn.
        -- destruct (fetch_json (LottiePlayer.host g) url) as [json|]; cbn.
           ++ exists [Fetch url]. split; [reflexivity|].
              destruct (tvg_load tvg _ ft _ _ ""); cbn;
                rewrite <- ?app_assoc; cbn; eauto.
           ++ exists [Fetch url]. split; [reflexivity|]. auto.
        -- exists []. split; [now rewrite app_nil_r|].
           rewrite app_nil_r. auto.
    + destruct (fetch_arrayBuffer (LottiePlayer.host g) s) as [buf|]; cbn.
      * exists [Fetch s]. split; [reflexivity|].
        destruct (tvg_load tvg _ ft _ _ ""); cbn;
          rewrite <- ?app_assoc; cbn; eauto.
      * exists [Fetch s]. split; [reflexivity|]. auto.
  - exists []. split; [now rewrite app_nil_r|].
    destruct (tvg_load tvg _ ft _ _ ""); cbn; eauto.
  - exists []. split; [now rewrite app_nil_r|].
    destruct (tvg_load tvg _ ft _ _ ""); cbn; eauto.
  - exists []. split; [now rewrite app_nil_r|]. rewrite app_nil_r. auto.
  Transparent String.append.
Qed.

End SourceAgreement.

(** ** The delegating player and its worker *)

Section DelegateFacts.
Import LottieWorkerPlayer LottieWorkerElement.
#[local] Opaque Qplus Qminus Qmult Qdiv Qinv Qopp Qle_bool Qeq_bool Qabs.

Ltac psetters :=
  unfold set_src, LottieWorkerPlayer.set_fileType,
    LottieWorkerPlayer.set_totalFrame, LottieWorkerPlayer.set_currentFrame,
    LottieWorkerPlayer.set_currentState, set__worker,
    LottieWorkerPlayer.set_canvasWidth, LottieWorkerPlayer.set_canvasHeight,
    set__animationSize, set_sent, set_events, set_painted in *.

Lemma invoke_keeps c x :
  let x' := invoke c x in
  (_worker (player x) = false ->
   _worker (player x') = false /\ sent (player x') = sent (player x))
  /\ _supportsOffscreenCanvas (player x')
     = _supportsOffscreenCanvas (player x)
  /\ _context (player x') = _context (player x)
  /\ (_supportsOffscreenCanvas (player x) = true
      \/ _context (player x) = false ->
      painted (player x') = painted (player x))
  /\ (terminated x = true -> terminated x' = true).
Proof.
  destruct x as [p tm rm].
  destruct p as [? ? ? ? ap ? ? ? ? ? tf ? st wk cx ? ? ? so ? ? ? ?].
  destruct wk, so, cx;
  destruct c as [src ft | | | | f | a b | | r | m]; cbn;
    unfold load, play, pause, stop, seek, resize, destroy, lift,
      _handleWorkerMessage, _handleWorkerError, _updateCanvasInfo,
      hasSrc, load, play, _sendToWorker, LottieWorkerPlayer.dispatchEvent;
    cbn;
    repeat match goal with
           | |- context [if ?c then _ else _] => destruct c; cbn
           | |- context [match ?s with Some _ => _ | None => _ end] =>
               destruct s; cbn
           | |- context [match ?s with EmptyString => _ | String _ _ => _ end] =>
               destruct s; cbn
           | |- context [match ?r with READY => _ | _ => _ end] =>
               destruct r; cbn
           end;
    repeat split; auto; try discriminate;
    try (intros [H | H]; discriminate); try (intros H; discriminate).
Qed.

(** X24. Whatever is asked of the delegating element and whatever its worker
    answers, an element without a worker sends no message, and an element that
    has handed its canvas to the worker (or has no 2d context) paints nothing
    itself.  [destroy()] leaves the element without a worker, having
    terminated the one it had: nothing is sent after it. *)
Theorem delegate_never_sends_without_worker calls x :
  (_worker (player x) = false ->
   sent (player (session calls x)) = sent (player x))
  /\ (_supportsOffscreenCanvas (player x) = true
      \/ _context (player x) = false ->
      painted (player (session calls x)) = painted (player x))
  /\ (forall before,
        let y := session before x in
        let z := session calls (destroy y) in
        _worker (player (destroy y)) = false
        /\ (_worker (player y) = true -> terminated (destroy y) = true)
        /\ sent (player z) = sent (player y)).
Proof.
  assert (G : forall calls x,
             (_worker (player x) = false ->
              _worker (player (session calls x)) = false
              /\ sent (player (session calls x)) = sent (player x))
             /\ (_supportsOffscreenCanvas (player x) = true
                 \/ _context (player x) = false ->
                 painted (player (session calls x)) = painted (player x))).
  { clear. intros calls. unfold session.
    induction calls as [|c calls IH]; intros x; simpl; [auto|].
    destruct (invoke_keeps c x) as [H1 [H2 [H3 [H4 _]]]]. cbv zeta in *.
    destruct (IH (invoke c x)) as [I1 I2].
    split.
    - intros Hw. destruct (H1 Hw) as [A B]. destruct (I1 A) as [C D].
      split; [exact C|]. now rewrite D.
    - intros Hs. rewrite I2; [now apply H4|].
      rewrite H2, H3. exact Hs. }
  split; [|split].
  - intros Hw. now apply G.
  - now apply G.
  - intros before y z. subst z.
    assert (Hd : _worker (player (destroy y)) = false
                 /\ sent (player (destroy y)) = sent (player y)
                 /\ (_worker (player y) = true -> terminated (destroy y) = true)).
    { destruct y as [p tm rm].
      destruct p as [? ? ? ? ? ? ? ? ? ? ? ? ? wk ? ? ? ? ? ? ? ? ?].
      unfold destroy, lift, LottieWorkerPlayer.dispatchEvent. cbn.
      destruct wk; cbn; repeat split; auto; discriminate. }
    destruct Hd as [D1 [D2 D3]].
    split; [exact D1|]. split; [exact D3|].
    destruct (G calls (destroy y)) as [G1 _].
    destruct (G1 D1) as [_ E]. now rewrite E.
Qed.

End DelegateFacts.

Section HandshakeFacts.
Import LottieWorker LottieWorkerPlayer.
#[local] Opaque Qplus Qminus Qmult Qdiv Qinv Qopp Qle_bool Qeq_bool Qabs.

Lemma calculateCanvasInfo_size p :
  width (_calculateCanvasInfo p) = LottieWorkerPlayer.canvasWidth p
  /\ height (_calculateCanvasInfo p) = LottieWorkerPlayer.canvasHeight p.
Proof.
  unfold _calculateCanvasInfo.
  destruct (Num.ltb (rectLeft (phost p)) 0), (Num.ltb (rectTop (phost p)) 0);
    split; reflexivity.
Qed.

(** X25. What follows READY.  A player with a worker and a source answers
    READY with UPDATE_CANVAS_INFO and then LOAD, and is loading.  An
    initialised worker that reads the source as JSON text therefore loads it
    into the engine at the size of the player's canvas (200 for a side that
    is 0), and answers once.  If the engine accepts, the answer is LOADED, and
    the player takes the frame count and the size from it; with [autoPlay] and
    at least one frame it is then playing and has sent PLAY, which sets the
    worker playing, and otherwise it is stopped and has sent nothing more.  If
    the engine refuses, the answer is ERROR and the player is in the error
    state. *)
Theorem ready_handshake fuel p w tvg s v :
  _worker p = true ->
  hasSrc p = Some s ->
  FileType_eqb (LottieWorkerPlayer.fileType p) JSON
  || FileType_eqb (LottieWorkerPlayer.fileType p) LOT = true ->
  _isInitialized w = true ->
  LottieWorker._TVG w = Some tvg ->
  JSON_parse (whost w) s = Some v ->
  let ft := LottieWorkerPlayer.fileType p in
  let p1 := _handleWorkerMessage READY p in
  let msgs := [UPDATE_CANVAS_INFO (_calculateCanvasInfo p);
               LOAD (SrcString s) ft] in
  let w1 := turns fuel (map Message msgs) w in
  let bytes := encode (asString (whost w) v) in
  let wd := if Num.truthy (LottieWorkerPlayer.canvasWidth p)
            then LottieWorkerPlayer.canvasWidth p else 200 in
  let ht := if Num.truthy (LottieWorkerPlayer.canvasHeight p)
            then LottieWorkerPlayer.canvasHeight p else 200 in
  sent p1 = sent p ++ msgs
  /\ LottieWorkerPlayer.currentState p1 = PlayerState.Loading
  /\ calls w1 = calls w ++ [TvgLoad bytes ft wd ht]
  /\ exists r,
       posted w1 = posted w ++ [r]
       /\ let p2 := _handleWorkerMessage r p1 in
          if tvg_load tvg bytes ft wd ht ""
          then
            r = LOADED (tvg_totalFrame tvg) (tvg_size tvg)
            /\ LottieWorkerPlayer.totalFrame p2 = tvg_totalFrame tvg
            /\ _animationSize p2 = tvg_size tvg
            /\ (if LottieWorkerPlayer.autoPlay p
                   && negb (Num.ltb (tvg_totalFrame tvg) 1)
                then
                  LottieWorkerPlayer.currentState p2 = PlayerState.Playing
                  /\ sent p2 = sent p1 ++ [PLAY]
                  /\ _isPlaying (turn fuel (Message PLAY) w1) = true
                else
                  LottieWorkerPlayer.currentState p2 = PlayerState.Stopped
                  /\ sent p2 = sent p1)
          else
            r = ERROR "Failed to load Lottie data"
            /\ LottieWorkerPlayer.currentState p2 = PlayerState.Error
            /\ sent p2 = sent p1.
Proof.
  Opaque String.append.
  intros Hw Hs Hft Hi Ht Hp ft p1 msgs w1 bytes wd ht.
  subst ft p1 msgs w1 bytes wd ht.
  destruct p as [sr ft ? ? ap ? ? ? ? ? tf ? st wk cx cw ch ? so ph se ev pa].
  destruct w as [md mr tv ini ci pl stt sp wtf du af uo oc ox ist nw wh po dr ca].
  cbn in Hw, Hs, Hft, Hi, Ht, Hp. subst wk ini tv.
  unfold hasSrc in Hs. cbn in Hs.
  assert (Hsr : sr = Some s /\ s <> "").
  { destruct sr as [[|a s']|]; try discriminate; inversion Hs; subst.
    split; [reflexivity | discriminate]. }
  destruct Hsr as [-> Hne].
  destruct s as [|a s']; [congruence|].
  assert (E1 : forall q, _handleWorkerMessage READY q
                = match hasSrc (_updateCanvasInfo q) with
                  | Some s =>
                      load (SrcString s)
                        (LottieWorkerPlayer.fileType (_updateCanvasInfo q))
                        (_updateCanvasInfo q)
                  | None => _updateCanvasInfo q
                  end) by reflexivity.
  rewrite !E1. clear E1.
  unfold _updateCanvasInfo, hasSrc, load, _sendToWorker. cbn.
  split; [now rewrite <- app_assoc|]. split; [reflexivity|].
  unfold loadLottieData. cbn. rewrite Hft. cbn. rewrite Hp. cbn.
  match goal with
  | |- context [_calculateCanvasInfo ?q] =>
      destruct (calculateCanvasInfo_size q) as [Ew Eh]; rewrite !Ew, !Eh
  end. cbn.
  destruct (tvg_load tvg (encode (asString wh v)) ft
              (if Num.truthy cw then cw else 200)
              (if Num.truthy ch then ch else 200) "") eqn:L; cbn.
  - split; [reflexivity|].
    eexists. split; [reflexivity|].
    unfold _handleWorkerMessage, play, _sendToWorker,
      LottieWorkerPlayer.dispatchEvent. cbn.
    split; [reflexivity|].
    destruct ap; cbn; [|repeat split; reflexivity].
    destruct (Num.ltb (tvg_totalFrame tvg) 1); cbn;
      [repeat split; reflexivity|].
    split; [reflexivity|]. split; [reflexivity|].
    split; [reflexivity|]. split; [reflexivity|].
    unfold startWorkerAnimationLoop. cbn. destruct pl; reflexivity.
  - split; [reflexivity|].
    eexists. split; [reflexivity|].
    unfold _handleWorkerMessage, LottieWorkerPlayer.dispatchEvent. cbn. auto.
  Transparent String.append.
Qed.

End HandshakeFacts.

Section StopFacts.
Import LottieWorker LottieWorkerPlayer.
#[local] Opaque Qplus Qminus Qmult Qdiv Qinv Qopp Qle_bool Qeq_bool Qabs.

Lemma renderFrame_posts n w :
  exists w',
    renderFrame n w = Done (Returned tt) w'
    /\ _isPlaying w' = _isPlaying w
    /\ _animationFrame w' = _animationFrame w
    /\ (posted w' = posted w
        \/ (exists i b, posted w' = posted w ++ [FRAME i n b])
        \/ posted w' = posted w ++ [ERROR "Frame rendering failed"]).
Proof.
  destruct w as [md mr tv ini ci pl st sp tf du af uo oc ox ist nw wh po dr ca].
  unfold renderFrame, renderInto, offscreenTarget, newImageData. cbn.
  repeat match goal with
         | |- context [if ?c then _ else _] => destruct c; cbn
         | |- context [match ?s with Some _ => _ | None => _ end] =>
             destruct s; cbn
         | |- context [match ?s with nil => _ | cons _ _ => _ end] =>
             destruct s; cbn
         end;
    eexists; (split; [reflexivity|]); cbn;
    (split; [reflexivity|]); (split; [reflexivity|]);
    solve [ left; reflexivity
          | right; left; do 2 eexists; reflexivity
          | right; right; reflexivity ].
Qed.

Lemma turns_cons fuel i l w :
  turns fuel (i :: l) w = turns fuel l (turn fuel i w).
Proof. reflexivity. Qed.

Lemma turns_nil fuel w : turns fuel [] w = w.
Proof. reflexivity. Qed.

Lemma turn_Message fuel m w :
  turn fuel (Message m) w = snd (drive [] (onmessage fuel m w)).
Proof. reflexivity. Qed.

Lemma stopWorkerAnimationLoop_rests w :
  exists w',
    stopWorkerAnimationLoop w = Done (Returned tt) w'
    /\ _isPlaying w' = false /\ _animationFrame w' = false
    /\ posted w' = posted w.
Proof.
  destruct w as [md mr tv ini ci pl stt sp wtf du af uo oc ox ist nw wh po dr ca].
  unfold stopWorkerAnimationLoop. cbn.
  destruct af; cbn; eexists; repeat split; reflexivity.
Qed.

Lemma stop_sends p :
  _worker p = true ->
  exists p1,
    stop p = p1
    /\ sent p1 = sent p ++ [STOP; SEEK 0]
    /\ LottieWorkerPlayer.currentFrame p1 = 0
    /\ LottieWorkerPlayer.currentState p1 = PlayerState.Stopped
    /\ _supportsOffscreenCanvas p1 = _supportsOffscreenCanvas p
    /\ _context p1 = _context p.
Proof.
  destruct p as [sr ft ? ? ap ? ? ? ? ? tf ? st wk cx cw ch ? so ph se ev pa].
  cbn. intros ->. eexists. split; [reflexivity|].
  unfold stop, seek, _sendToWorker, LottieWorkerPlayer.dispatchEvent. cbn.
  rewrite <- app_assoc. repeat split; reflexivity.
Qed.

Lemma handle_FRAME i n b p :
  let p' := _handleWorkerMessage (FRAME i n b) p in
  LottieWorkerPlayer.currentFrame p' = n
  /\ LottieWorkerPlayer.currentState p' = LottieWorkerPlayer.currentState p
  /\ sent p' = sent p.
Proof.
  destruct p as [sr ft ? ? ap ? ? ? ? ? tf ? st wk cx cw ch ? so ph se ev pa].
  unfold _handleWorkerMessage, LottieWorkerPlayer.dispatchEvent. cbn.
  destruct so; cbn; [auto|]. destruct i; cbn; [|auto]. destruct cx; cbn; auto.
Qed.

Lemma handle_ERROR m p :
  let p' := _handleWorkerMessage (ERROR m) p in
  LottieWorkerPlayer.currentFrame p' = LottieWorkerPlayer.currentFrame p
  /\ LottieWorkerPlayer.currentState p' = PlayerState.Error
  /\ sent p' = sent p.
Proof. destruct p. cbn. auto. Qed.

(** X26. [stop()] on a player with a worker sends STOP and then SEEK 0.  The
    worker, having handled both, is not playing and has no timer, so a later
    tick of the timer does nothing; it has answered at most once, with the
    FRAME of frame 0 or with ERROR.  After that answer the player is at frame
    0, and stopped unless the answer was ERROR. *)
Theorem stop_round_trip fuel p w :
  _worker p = true ->
  let p1 := stop p in
  let w1 := turns fuel (map Message [STOP; SEEK 0]) w in
  sent p1 = sent p ++ [STOP; SEEK 0]
  /\ _isPlaying w1 = false
  /\ _animationFrame w1 = false
  /\ turn fuel IntervalFires w1 = w1
  /\ exists rs,
       posted w1 = posted w ++ rs
       /\ let p2 := receive rs p1 in
          LottieWorkerPlayer.currentFrame p2 = 0
          /\ (rs = [] \/ (exists i b, rs = [FRAME i 0 b])
              \/ rs = [ERROR "Frame rendering failed"])
          /\ (rs <> [ERROR "Frame rendering failed"] ->
              LottieWorkerPlayer.currentState p2 = PlayerState.Stopped
              /\ sent p2 = sent p1).
Proof.
  intros Hw p1 w1.
  destruct (stop_sends p Hw) as [q [Eq [S1 [S2 [S3 _]]]]].
  assert (Ep : p1 = q) by exact Eq. clearbody p1. subst p1. clear Eq.
  assert (Ew : w1 = turn fuel (Message (SEEK 0)) (turn fuel (Message STOP) w))
    by reflexivity.
  clearbody w1. subst w1.
  rewrite (turn_Message fuel STOP w). cbn [onmessage].
  destruct (stopWorkerAnimationLoop_rests w) as [w0 [E0 [A [B C]]]].
  rewrite E0. cbn [drive snd].
  rewrite (turn_Message fuel (SEEK 0) w0). cbn [onmessage].
  destruct (renderFrame_posts 0 w0) as [w1 [E [P1 [P2 P3]]]].
  rewrite E. cbn [drive snd].
  rewrite P1, P2, A, B.
  split; [exact S1|]. split; [reflexivity|]. split; [reflexivity|].
  split; [unfold turn; now rewrite P2, B|].
  rewrite C in P3.
  destruct P3 as [P3 | [[i [b P3]] | P3]].
  - exists []. split; [rewrite P3; symmetry; apply app_nil_r|].
    cbv zeta. unfold receive. cbn [fold_left].
    split; [exact S2|]. split; [left; reflexivity|]. intros _. now split.
  - exists [FRAME i 0 b]. split; [exact P3|].
    cbv zeta. unfold receive. cbn [fold_left].
    destruct (handle_FRAME i 0 b q) as [F1 [F2 F3]].
    split; [exact F1|]. split; [right; left; eauto|].
    intros _. rewrite F2, F3. now split.
  - exists [ERROR "Frame rendering failed"]. split; [exact P3|].
    cbv zeta. unfold receive. cbn [fold_left].
    destruct (handle_ERROR "Frame rendering failed" q) as [F1 [F2 F3]].
    split; [now rewrite F1|]. split; [right; right; reflexivity|].
    intros H. exfalso. apply H. reflexivity.
Qed.

End StopFacts.

Section ViewportFacts.
Import LottieWorker LottieWorkerPlayer.
#[local] Opaque Qplus Qminus Qmult Qdiv Qinv Qopp Qle_bool Qeq_bool Qabs.

Lemma renderFrame_fallback n w tvg info v :
  _isInitialized w = true ->
  LottieWorker._TVG w = Some tvg ->
  offscreenTarget w = None ->
  _currentCanvasInfo w = Some info ->
  viewportInfo info = Some v ->
  exists w' rest,
    renderFrame n w = Done (Returned tt) w'
    /\ calls w' =
       calls w ++ TvgViewport (vx v) (vy v) (vw v) (vh v)
         :: TvgResize (width info) (height info)
         :: TvgFrame n :: TvgUpdate :: rest.
Proof.
  destruct w as [md mr tv ini ci pl st sp tf du af uo oc ox ist nw wh po dr ca].
  cbn. intros -> -> Ho -> Hv.
  unfold renderFrame. cbn -[offscreenTarget].
  rewrite Ho. cbn. rewrite Hv. unfold renderInto, newImageData. cbn.
  destruct (tvg_update tvg); cbn.
  - destruct (tvg_render tvg) as [|px0 px]; cbn.
    + do 2 eexists. split; [reflexivity|]. cbn.
      repeat rewrite <- app_assoc. reflexivity.
    + destruct (ImageData_ok wh (px0 :: px) _ _); cbn;
        do 2 eexists; (split; [reflexivity|]); cbn;
        repeat rewrite <- app_assoc; reflexivity.
  - do 2 eexists. split; [reflexivity|]. cbn.
    repeat rewrite <- app_assoc. reflexivity.
Qed.

Lemma calculateCanvasInfo_viewport p w tvg :
  LottiePlayer._TVG (LottiePlayer.self w) = Some tvg ->
  phost p = LottiePlayer.host (LottiePlayer.ambient w) ->
  LottieWorkerPlayer.canvasWidth p
  = LottiePlayer.canvasWidth (LottiePlayer.self w) ->
  LottieWorkerPlayer.canvasHeight p
  = LottiePlayer.canvasHeight (LottiePlayer.self w) ->
  exists v,
    viewportInfo (_calculateCanvasInfo p) = Some v
    /\ width (_calculateCanvasInfo p) = LottieWorkerPlayer.canvasWidth p
    /\ height (_calculateCanvasInfo p) = LottieWorkerPlayer.canvasHeight p
    /\ LottiePlayer._viewport w =
       Done (Returned tt)
         (LottiePlayer.mkWorld (LottiePlayer.self w) (LottiePlayer.ambient w)
            (LottiePlayer.trace w
               ++ [TvgViewport (vx v) (vy v) (vw v) (vh v)])).
Proof.
  destruct w as [q g t].
  destruct q as [? ? ? ? ? ? ? ? ? ? ? ? ? tv ? cw ch ? ? ? ? ?].
  destruct p as [sr ft ? ? ap ? ? ? ? ? tf ? st wk cx pcw pch ? so ph se ev pa].
  cbn. intros -> -> -> ->.
  unfold _calculateCanvasInfo, LottiePlayer._viewport. cbn.
  destruct (Num.ltb (rectLeft (LottiePlayer.host g)) 0);
    destruct (Num.ltb (rectTop (LottiePlayer.host g)) 0);
    cbn; eexists; repeat split; reflexivity.
Qed.

(** X27. The worker renders with the viewport the main-thread player would
    use.  For the same window, canvas rectangle and canvas size, the viewport
    that [_calculateCanvasInfo] sends is the one [_viewport] hands to the
    engine; and a worker that draws for the main thread, given this canvas
    information and then a frame to seek, hands the engine that viewport, the
    canvas size, and the frame, in this order. *)
Theorem worker_viewport_agrees fuel p pw tvg w wtvg n :
  LottiePlayer._TVG (LottiePlayer.self pw) = Some tvg ->
  phost p = LottiePlayer.host (LottiePlayer.ambient pw) ->
  LottieWorkerPlayer.canvasWidth p
  = LottiePlayer.canvasWidth (LottiePlayer.self pw) ->
  LottieWorkerPlayer.canvasHeight p
  = LottiePlayer.canvasHeight (LottiePlayer.self pw) ->
  _isInitialized w = true ->
  LottieWorker._TVG w = Some wtvg ->
  offscreenTarget w = None ->
  let w' :=
    turns fuel
      [Message (UPDATE_CANVAS_INFO (_calculateCanvasInfo p));
       Message (SEEK n)] w in
  exists x y wd ht rest,
    LottiePlayer._viewport pw =
      Done (Returned tt)
        (LottiePlayer.mkWorld (LottiePlayer.self pw)
           (LottiePlayer.ambient pw)
           (LottiePlayer.trace pw ++ [TvgViewport x y wd ht]))
    /\ calls w' =
       calls w ++ TvgViewport x y wd ht
         :: TvgResize (LottieWorkerPlayer.canvasWidth p)
              (LottieWorkerPlayer.canvasHeight p)
         :: TvgFrame n :: TvgUpdate :: rest.
Proof.
  intros Ht Hh Hcw Hch Hi Hw Ho w'.
  destruct (calculateCanvasInfo_viewport p pw tvg Ht Hh Hcw Hch)
    as [v [Hv [Ewd [Eht Hvp]]]].
  assert (Ew : w' = turn fuel (Message (SEEK n))
                      (turn fuel
                         (Message (UPDATE_CANVAS_INFO (_calculateCanvasInfo p)))
                         w)) by reflexivity.
  clearbody w'. subst w'.
  set (info := _calculateCanvasInfo p) in *.
  assert (E1 : turn fuel (Message (UPDATE_CANVAS_INFO info)) w
               = set__currentCanvasInfo (Some info) w) by reflexivity.
  rewrite E1. clear E1.
  assert (E2 : forall x, turn fuel (Message (SEEK n)) x
                         = snd (drive [] (renderFrame n x))) by reflexivity.
  rewrite E2. clear E2.
  destruct (renderFrame_fallback n (set__currentCanvasInfo (Some info) w)
              wtvg info v) as [w1 [rest [E C]]].
  - destruct w; exact Hi.
  - destruct w; exact Hw.
  - destruct w; exact Ho.
  - destruct w; reflexivity.
  - exact Hv.
  - rewrite E. cbn [drive snd].
    exists (vx v), (vy v), (vw v), (vh v), rest.
    split; [exact Hvp|]. rewrite C, Ewd, Eht. destruct w; reflexivity.
Qed.

End ViewportFacts.

(** ** Examples *)

Section ElementExamples.
Import LottiePlayer LottieElement.

(** A source that is neither text, bytes nor an object: [load] returns, and
    the sample player is in the error state. *)
Lemma load_unusable_source_witness :
  let r := drive [] (load (_init 2) SrcOther JSON Sample.world) in
  fst r = Returned tt
  /\ currentState (self (snd r)) = PlayerState.Error.
Proof.
  edestruct (load_unusable_source 2 Sample.world Sample.module SrcOther JSON
               []) as [H1 [H2 _]].
  - reflexivity.
  - reflexivity.
  - apply le_n.
  - constructor.
  - reflexivity.
  - cbv zeta. split; [exact H1 | exact H2].
Defined.

(** The empty animation, on a page whose engine refuses everything. *)
Lemma load_engine_refuses_witness :
  tvg_load Fixture.refusing (encode "[object Object]") JSON 100 100 "" = false
  /\ let r :=
       drive [] (load (_init 2) (SrcString "{}") JSON Fixture.refused) in
     fst r = Returned tt
     /\ currentState (self (snd r)) = PlayerState.Error.
Proof.
  split; [reflexivity|].
  destruct (load_engine_refuses 2 Fixture.refused Sample.module
              Fixture.refusing (SrcString "{}") JSON []
              (encode "[object Object]")) as [H1 [H2 _]].
  - reflexivity.
  - reflexivity.
  - apply le_n.
  - reflexivity.
  - constructor.
  - reflexivity.
  - reflexivity.
  - cbv zeta. split; [exact H1 | exact H2].
Defined.

(** The empty animation on a canvas of one pixel, in a browser that checks
    the size of the image: the player was Playing, and it still is. *)
Lemma load_engine_accepts_witness :
  autoPlay (self Fixture.pixel) = false
  /\ paintable Fixture.pixel Sample.tvg = true
  /\ ImageData_ok Fixture.browser (tvg_render Sample.tvg) 100 100 = false
  /\ let r :=
       drive [] (load (_init 2) (SrcString "{}") JSON Fixture.pixel) in
     fst r = Returned tt
     /\ currentState (self (snd r)) = PlayerState.Playing.
Proof.
  split; [reflexivity|]. split; [reflexivity|]. split; [reflexivity|].
  destruct (load_engine_accepts 2 Fixture.pixel Sample.module Sample.tvg
              (SrcString "{}") JSON [] (encode "[object Object]"))
    as [H1 [H2 _]].
  - reflexivity.
  - reflexivity.
  - apply le_n.
  - reflexivity.
  - reflexivity.
  - reflexivity.
  - constructor.
  - reflexivity.
  - reflexivity.
  - cbv zeta. split; [exact H1 | exact H2].
Defined.

(** A WebGL element is played, ticked and sought: nothing is painted. *)
Lemma gpu_configuration_never_paints_witness :
  configuredRenderer (self (world Fixture.glPage)) = Some GL
  /\ paints
       (trace
          (world
             (page
                (LottieElement.run 2
                   [Calls Play; Calls AnimationFrame; Calls (Seek 3)]
                   Fixture.glPage)))) = [].
Proof.
  split; [reflexivity|].
  exact (gpu_configuration_never_paints 2
           [Calls Play; Calls AnimationFrame; Calls (Seek 3)]
           Fixture.glPage (or_intror eq_refl)).
Defined.

(** The element is 500 to the left of the window: the viewport starts at 500
    on a canvas of 100, with a width of -400. *)
Lemma viewport_edges_and_extent_witness :
  _viewport Fixture.farLeft =
    Done (Returned tt)
      (mkWorld Sample.player (ambient Fixture.farLeft)
         [TvgViewport 500 0 (-400) 100])
  /\ exists x y wd ht,
       _viewport Fixture.farLeft =
         Done (Returned tt)
           (mkWorld Sample.player (ambient Fixture.farLeft)
              [TvgViewport x y wd ht])
       /\ x + wd <= 100
       /\ ~ 0 <= wd.
Proof.
  split; [vm_compute; reflexivity|].
  destruct (viewport_edges_and_extent Fixture.farLeft Sample.tvg eq_refl)
    as [x [y [wd [ht [E [_ [_ [H1 [_ [_ [_ [Hw _]]]]]]]]]]]].
  exists x, y, wd, ht. split; [exact E|]. split; [exact H1|].
  intros H. apply Hw in H. vm_compute in H. apply H. reflexivity.
Defined.


(** The sample element is destroyed: the observer is disconnected, the
    element removed, and a second [destroy()] does nothing. *)
Lemma destroy_once_and_after_witness :
  exists pg',
    LottieElement.destroy Fixture.page = Done (Returned tt) pg'
    /\ domLog (dom pg') = [ObserverDisconnect; ElementRemove]
    /\ LottieElement.destroy pg' = Done (Returned tt) pg'.
Proof.
  destruct (destroy_once_and_after Fixture.page Sample.tvg eq_refl)
    as [pg' [E [_ [_ [_ [_ [Hl [Hd _]]]]]]]].
  exists pg'. split; [exact E|]. split; [exact Hl | exact Hd].
Defined.

(** The timer of the sample player is not armed. *)
Lemma init_without_timer_is_inert_witness :
  _timer (self Sample.world) = false
  /\ _init 2 Sample.world = Done (Returned tt) Sample.world.
Proof.
  split; [reflexivity|].
  exact (proj2 (init_without_timer_is_inert 2 Sample.world eq_refl)
           Sample.module eq_refl (le_n 2)).
Defined.

(** At the end of the first leg of the bouncing sample, on a canvas of one
    pixel in a browser that checks the size of the image, a [pause()] during
    the intermission is undone. *)
Lemma pause_during_intermission_is_undone_witness :
  repeats (self Fixture.pixelTurning) = true
  /\ paintable Fixture.pixelTurning Sample.tvg = true
  /\ currentState
       (self
          (snd (drive [fun w1 => sync (pause w1)]
                  (_animLoop Fixture.pixelTurning))))
     = PlayerState.Playing.
Proof.
  split; [vm_compute; reflexivity|]. split; [reflexivity|].
  destruct (pause_during_intermission_is_undone Fixture.pixelTurning
              Sample.tvg) as [_ [H _]].
  - reflexivity.
  - reflexivity.
  - left. reflexivity.
  - vm_compute. reflexivity.
  - reflexivity.
  - reflexivity.
  - vm_compute. reflexivity.
  - vm_compute. reflexivity.
  - exact H.
Defined.

(** An element is attached: its canvas is named after the uuid, and the timer
    is armed. *)
Lemma first_update_then_init_witness :
  exists pg1,
    firstUpdated 2 Fixture.attached = Done (Returned None) pg1
    /\ canvasId (self (world pg1)) = "thorvg-0f8fad"
    /\ _timer (self (world pg1)) = true
    /\ domLog (dom pg1) = [ObserverObserve; SetInterval 100].
Proof.
  destruct (first_update_then_init 2 Fixture.attached eq_refl)
    as [pg1 [E [Hs [_ [_ [_ [Hl _]]]]]]].
  exists pg1. split; [exact E|]. rewrite Hs.
  split; [reflexivity|]. split; [reflexivity | exact Hl].
Defined.

(** The empty animation is exported: eight bytes are handed to the browser,
    and the saver is deleted.  With [term()] in between nothing is handed
    over, and the saver stays. *)
Lemma save2gif_downloads_only_valid_exports_witness :
  let r := drive [] (save2gif "{}" Fixture.page) in
  let r' :=
    drive [fun pg' => snd (drive [] (term pg'))]
      (save2gif "{}" Fixture.page) in
  fst r = Returned tt
  /\ domLog (dom (snd r)) =
     [SaverSave (encode "[object Object]") "gif"; ReadFile "output.gif";
      LinkAppend "output.gif" (repeat Byte.x00 8); LinkClick; LinkRemove;
      SaverDelete]
  /\ (exists e, fst r' = Thrown e)
  /\ domLog (dom (snd r')) =
     [ModuleTerm; SaverSave (encode "[object Object]") "gif"].
Proof.
  destruct (save2gif_downloads_only_valid_exports Fixture.page Sample.module
              Sample.tvg "{}" eq_refl eq_refl) as [[H1 H2] [H3 H4]].
  cbv zeta. split; [exact H1|]. split; [exact H2|].
  split; [exact H3 | exact H4].
Defined.

(** The engine asks to try again, then accepts WebGPU. *)
Lemma init_webgpu_accepted_witness :
  initResults (ambient Fixture.welcome) = [2; 0]%Z
  /\ exists w',
       drive [] (_init 3 Fixture.welcome) = (Returned tt, w')
       /\ _actualRenderer (self w') = Some WG
       /\ fallbacks (trace w') = [].
Proof.
  split; [reflexivity|].
  destruct (init_webgpu_accepted 2 Fixture.welcome Sample.module Sample.tvg
              [2%Z] []) as [w' [E [Ha [_ [_ [Hf _]]]]]].
  - reflexivity.
  - reflexivity.
  - reflexivity.
  - intros H. discriminate H.
  - intros H. discriminate H.
  - reflexivity.
  - repeat constructor; intros H; discriminate H.
  - apply le_n.
  - reflexivity.
  - exists w'. split; [exact E|]. split; [exact Ha | exact Hf].
Defined.

End ElementExamples.

Section DelegateExamples.
Import LottieWorker LottieWorkerPlayer.

(** Two and a half seconds into a two-second animation of 60 frames, the
    frame of the tick is in range. *)
Lemma tick_frame_is_in_range_witness :
  exists n added,
    calls (turn 1 IntervalFires Sample.playingWorker)
    = calls Sample.playingWorker ++ added
    /\ In (TvgFrame n) added
    /\ 0 <= n /\ n < _totalFrames Sample.playingWorker.
Proof.
  destruct (tick_frame_is_in_range 1 Sample.playingWorker Sample.tvg
              Sample.canvas) as [n [added [E [Hi [_ [H0 [H1 _]]]]]]].
  - reflexivity.
  - reflexivity.
  - reflexivity.
  - reflexivity.
  - reflexivity.
  - vm_compute. intros H. discriminate H.
  - vm_compute. intros H. discriminate H.
  - vm_compute. reflexivity.
  - vm_compute. reflexivity.
  - exists n, added. split; [exact E|]. split; [exact Hi|].
    split; [exact H0 | exact H1].
Defined.

(** The worker and the sample player are on the same host: given the empty
    animation, the worker hands its engine the bytes the player would. *)
Lemma worker_reads_sources_like_the_player_witness :
  fst (drive [] (LottiePlayer._parseSrc (SrcString "{}") JSON Sample.world))
  = Returned (encode "[object Object]")
  /\ exists fx wd ht,
       calls (turn 1 (Message (LOAD (SrcString "{}") JSON))
                Sample.playingWorker)
       = calls Sample.playingWorker
           ++ fx ++ [TvgLoad (encode "[object Object]") JSON wd ht].
Proof.
  split; [reflexivity|].
  destruct (worker_reads_sources_like_the_player 1 (SrcString "{}") JSON
              Sample.playingWorker Sample.world Sample.tvg
              eq_refl eq_refl eq_refl) as [fx [_ H]].
  destruct H as [wd [ht H]].
  exists fx, wd, ht. exact H.
Defined.

(** The delegating player answers READY with the canvas information and the
    LOAD of its source. *)
Lemma ready_handshake_witness :
  hasSrc Fixture.delegate = Some "{}"
  /\ sent (_handleWorkerMessage READY Fixture.delegate) =
     [UPDATE_CANVAS_INFO (_calculateCanvasInfo Fixture.delegate);
      LOAD (SrcString "{}") JSON]
  /\ LottieWorkerPlayer.currentState
       (_handleWorkerMessage READY Fixture.delegate)
     = PlayerState.Loading.
Proof.
  split; [reflexivity|].
  destruct (ready_handshake 1 Fixture.delegate Fixture.readyWorker Sample.tvg
              "{}" (JObject [])) as [H1 [H2 _]].
  - reflexivity.
  - reflexivity.
  - reflexivity.
  - reflexivity.
  - reflexivity.
  - reflexivity.
  - split; [exact H1 | exact H2].
Defined.

(** [stop()] on the delegating player, and the playing worker. *)
Lemma stop_round_trip_witness :
  sent (stop Fixture.delegate) = [STOP; SEEK 0]
  /\ _isPlaying
       (turns 1 (map Message [STOP; SEEK 0]) Sample.playingWorker) = false.
Proof.
  destruct (stop_round_trip 1 Fixture.delegate Sample.playingWorker eq_refl)
    as [H1 [H2 _]].
  split; [exact H1 | exact H2].
Defined.

(** The delegating player and the sample player have the same canvas on the
    same page: the worker is given the viewport of the sample player. *)
Lemma worker_viewport_agrees_witness :
  exists x y wd ht rest,
    LottiePlayer._viewport Sample.world =
      Done (Returned tt)
        (LottiePlayer.mkWorld Sample.player Sample.ambient
           [TvgViewport x y wd ht])
    /\ calls
         (turns 1
            [Message (UPDATE_CANVAS_INFO (_calculateCanvasInfo Fixture.delegate));
             Message (SEEK 7)] Fixture.readyWorker)
       = calls Fixture.readyWorker
           ++ TvgViewport x y wd ht :: TvgResize 100 100 :: TvgFrame 7
           :: TvgUpdate :: rest.
Proof.
  destruct (worker_viewport_agrees 1 Fixture.delegate Sample.world Sample.tvg
              Fixture.readyWorker Sample.tvg 7
              eq_refl eq_refl eq_refl eq_refl eq_refl eq_refl eq_refl)
    as [x [y [wd [ht [rest [H1 H2]]]]]].
  exists x, y, wd, ht, rest. split; [exact H1 | exact H2].
Defined.

End DelegateExamples.
